(** * Quality-rule checkers of the agent-skills repository

A shallow embedding of the three rule engines of the repository,

- [src/codexer/scripts/quality-gate.py] (Python sources, through the
  syntax tree of the [ast] module),
- [src/code-quality/scripts/review-checklist.py] (JavaScript and
  TypeScript sources, through regular expressions and brace counting),
- [src/documentation-authoring/scripts/doc-structure-validator.py]
  (markdown documents, through fences, headings and links),

and the properties of their verdicts, exit codes and rules.

Text is modelled as [string], that is as sequences of 8-bit characters,
each of which stands for one code point of the Python text, so that
[len] counts the characters.  The character classes of Python
([str.isspace], the classes of the [re] module, [str.lower]) are
modelled on the code points below 128, where the model is exact; a
character above 127 is taken to be neither a space nor a word character
and to have no other case.  The slugs of the headings and the internal
links of doc-structure-validator.py, which depend on these classes for
every text, are also given over any alphabet, in [CodePoints], with the
classes and [str.lower] as parameters.

A run ends by returning, by [sys.exit], or by an exception that nothing
catches ([outcome]); the file system is a function from paths to what is
found there ([entry]). *)

From Stdlib Require Import ZArith Ascii String List Bool Lia Permutation Sorted.
From stdpp Require Import base decidable list gmap strings pretty.
Import ListNotations.

Local Open Scope string_scope.
Local Open Scope Z_scope.
Local Open Scope list_scope.

Local Set Warnings "-register-all".

(** ** Python text operations *)

Module Text.

Definition chars (s : string) : list ascii := list_ascii_of_string s.
Definition text (l : list ascii) : string := string_of_list_ascii l.

Definition newline : ascii := "010"%char.
Definition dquote : ascii := "034"%char.
Definition squote : ascii := "039"%char.
Definition backslash : ascii := "092"%char.
Definition backtick : ascii := "096"%char.

Definition code (c : ascii) : nat := nat_of_ascii c.

Definition in_range (lo hi : nat) (c : ascii) : bool :=
  (lo <=? code c)%nat && (code c <=? hi)%nat.

(** [str.isspace] on one character, which is also the class [\s]:
    tab, line feed, vertical tab, form feed, carriage return, the four
    separators 28 to 31, and the space. *)
Definition is_space (c : ascii) : bool :=
  in_range 9 13 c || in_range 28 32 c.

Definition is_upper (c : ascii) : bool := in_range 65 90 c.
Definition is_lower (c : ascii) : bool := in_range 97 122 c.
Definition is_digit (c : ascii) : bool := in_range 48 57 c.

(** The class [\w]. *)
Definition is_word (c : ascii) : bool :=
  is_upper c || is_lower c || is_digit c || Ascii.eqb c "_"%char.

Definition lower_char (c : ascii) : ascii :=
  if is_upper c then ascii_of_nat (code c + 32) else c.

Definition upper_char (c : ascii) : ascii :=
  if is_lower c then ascii_of_nat (code c - 32) else c.

Definition lower_chars (l : list ascii) : list ascii := map lower_char l.

(** [s.lower()] and [s.upper()] *)
Definition lower (s : string) : string := text (lower_chars (chars s)).
Definition upper (s : string) : string := text (map upper_char (chars s)).

Fixpoint lstrip_chars (l : list ascii) : list ascii :=
  match l with
  | c :: t => if is_space c then lstrip_chars t else l
  | [] => []
  end.

Definition strip_chars (l : list ascii) : list ascii :=
  rev (lstrip_chars (rev (lstrip_chars l))).

(** [s.strip()] *)
Definition strip (s : string) : string := text (strip_chars (chars s)).

Fixpoint prefix_chars (p l : list ascii) : bool :=
  match p, l with
  | [], _ => true
  | a :: p', b :: l' => Ascii.eqb a b && prefix_chars p' l'
  | _ :: _, [] => false
  end.

(** [s.startswith(p)] *)
Definition startswith (s p : string) : bool :=
  prefix_chars (chars p) (chars s).

Fixpoint infix_chars (p l : list ascii) : bool :=
  prefix_chars p l ||
  match l with
  | [] => false
  | _ :: t => infix_chars p t
  end.

(** [p in s] *)
Definition contains (p s : string) : bool := infix_chars (chars p) (chars s).

(** [len(s)] *)
Definition len (s : string) : Z := Z.of_nat (String.length s).

(** [s[n:]] and [s[:n]] for a non-negative [n] *)
Definition slice_from (n : nat) (s : string) : string :=
  text (drop n (chars s)).
Definition slice_to (n : nat) (s : string) : string :=
  text (take n (chars s)).

(** [s.split(sep)] for a separator of one character: the pieces between
    the occurrences of [sep], at least one piece. *)
Fixpoint split_chars (sep : ascii) (l : list ascii) : list (list ascii) :=
  match l with
  | [] => [[]]
  | c :: t =>
      if Ascii.eqb c sep then [] :: split_chars sep t
      else
        match split_chars sep t with
        | p :: ps => (c :: p) :: ps
        | [] => [[c]]
        end
  end.

Definition split (sep : ascii) (s : string) : list string :=
  map text (split_chars sep (chars s)).

(** [s.split(sep)[0]] *)
Definition split_first (sep : ascii) (s : string) : string :=
  match split sep s with
  | p :: _ => p
  | [] => ""
  end.

(** [s.split()]: the maximal runs of characters that are not spaces. *)
Fixpoint words_chars (cur : list ascii) (l : list ascii)
  : list (list ascii) :=
  match l with
  | [] => match cur with [] => [] | _ => [rev cur] end
  | c :: t =>
      if is_space c then
        match cur with
        | [] => words_chars [] t
        | _ => rev cur :: words_chars [] t
        end
      else words_chars (c :: cur) t
  end.

Definition words (s : string) : list string :=
  map text (words_chars [] (chars s)).

(** [sep.join(parts)] *)
Fixpoint join (sep : string) (parts : list string) : string :=
  match parts with
  | [] => ""
  | [p] => p
  | p :: rest => p +:+ sep +:+ join sep rest
  end.

(** [s.count(c)] for one character *)
Definition count_char (c : ascii) (s : string) : Z :=
  Z.of_nat (length (List.filter (Ascii.eqb c) (chars s))).

(** The line boundaries of [str.splitlines]: line feed, vertical tab,
    form feed, carriage return and the separators 28 to 30; a carriage
    return followed by a line feed is one boundary. *)
Definition is_linebreak (c : ascii) : bool :=
  in_range 10 13 c || in_range 28 30 c.

Fixpoint splitlines_chars (cur : list ascii) (l : list ascii)
  : list (list ascii) :=
  match l with
  | [] => match cur with [] => [] | _ => [rev cur] end
  | c :: t =>
      if is_linebreak c then
        match t with
        | d :: t' =>
            if Ascii.eqb c "013"%char && Ascii.eqb d newline
            then rev cur :: splitlines_chars [] t'
            else rev cur :: splitlines_chars [] t
        | [] => [rev cur]
        end
      else splitlines_chars (c :: cur) t
  end.

(** [s.splitlines()] *)
Definition splitlines (s : string) : list string :=
  map text (splitlines_chars [] (chars s)).

End Text.

(** ** Regular expressions

A backtracking matcher for the fragment of Python's [re] syntax that
the three scripts use: character classes, sequence, ordered choice,
greedy repetition, capture groups, back-references, negative
look-ahead, negative look-behind of one character, the anchors and the
word boundary. The matcher is written in continuation-passing style:
[run r k st] matches [r] at [st] and hands the state after the match to
[k]; when [k] fails, the next alternative of [r] is tried, as the
[re] module does. *)

Module Re.
  Import Text.

Inductive regex : Type :=
| Eps
| Chr (p : ascii -> bool)
| Seq (r1 r2 : regex)
| Alt (r1 r2 : regex)
| Star (r : regex)
| Group (n : nat) (r : regex)
| Backref (n : nat)
| NotAhead (r : regex)
| NotBehind (p : ascii -> bool)
| Bol (multiline : bool)
| Eol (multiline : bool)
| WordB.

(** A position in the subject: the character before it, its index, the
    characters from it on, and the groups captured so far (the latest
    capture of a group first). *)
Record state : Type := State {
  prev : option ascii;
  pos : nat;
  rest : list ascii;
  caps : list (nat * list ascii)
}.

Definition step (st : state) : option (ascii * state) :=
  match rest st with
  | c :: t => Some (c, State (Some c) (S (pos st)) t (caps st))
  | [] => None
  end.

Fixpoint consume (l : list ascii) (st : state) : option state :=
  match l with
  | [] => Some st
  | a :: l' =>
      match step st with
      | Some (c, st') => if Ascii.eqb a c then consume l' st' else None
      | None => None
      end
  end.

Fixpoint cap_lookup (n : nat) (cs : list (nat * list ascii))
  : option (list ascii) :=
  match cs with
  | [] => None
  | (i, v) :: cs' => if (i =? n)%nat then Some v else cap_lookup n cs'
  end.

Definition set_cap (n : nat) (v : list ascii) (st : state) : state :=
  State (prev st) (pos st) (rest st) ((n, v) :: caps st).

Definition is_word_opt (o : option ascii) : bool :=
  match o with
  | Some c => is_word c
  | None => false
  end.

(** Greedy repetition of a matcher [body], at most [n] times: a turn
    that takes no character is not repeated. *)
Fixpoint iterate (body : (state -> option state) -> state -> option state)
  (k : state -> option state) (n : nat) (st : state) {struct n}
  : option state :=
  match n with
  | O => k st
  | S n' =>
      match
        body
          (fun st' =>
             if (pos st <? pos st')%nat then iterate body k n' st' else None)
          st
      with
      | Some e => Some e
      | None => k st
      end
  end.

Fixpoint run (r : regex) (k : state -> option state) (st : state)
  {struct r} : option state :=
  match r with
  | Eps => k st
  | Chr p =>
      match step st with
      | Some (c, st') => if p c then k st' else None
      | None => None
      end
  | Seq r1 r2 => run r1 (run r2 k) st
  | Alt r1 r2 =>
      match run r1 k st with
      | Some e => Some e
      | None => run r2 k st
      end
  | Star r1 => iterate (run r1) k (length (rest st)) st
  | Group n r1 =>
      run r1
        (fun st' =>
           k (set_cap n (take (pos st' - pos st) (rest st)) st'))
        st
  | Backref n =>
      match cap_lookup n (caps st) with
      | Some v =>
          match consume v st with
          | Some st' => k st'
          | None => None
          end
      | None => None
      end
  | NotAhead r1 =>
      match run r1 Some st with
      | Some _ => None
      | None => k st
      end
  | NotBehind p =>
      match prev st with
      | Some c => if p c then None else k st
      | None => k st
      end
  | Bol multiline =>
      match prev st with
      | None => k st
      | Some c =>
          if multiline && Ascii.eqb c newline then k st else None
      end
  | Eol multiline =>
      match rest st with
      | [] => k st
      | c :: t =>
          if Ascii.eqb c newline
             && (multiline || match t with [] => true | _ => false end)
          then k st else None
      end
  | WordB =>
      if xorb (is_word_opt (prev st)) (is_word_opt (head (rest st)))
      then k st else None
  end.

(** *** Pattern syntax *)

Definition lit (c : ascii) : regex := Chr (Ascii.eqb c).

(** A letter under [re.IGNORECASE]. *)
Definition ilit (c : ascii) : regex :=
  Chr (fun x => Ascii.eqb (lower_char x) (lower_char c)).

Fixpoint seqs (rs : list regex) : regex :=
  match rs with
  | [] => Eps
  | [r] => r
  | r :: rs' => Seq r (seqs rs')
  end.

Fixpoint alts (rs : list regex) : regex :=
  match rs with
  | [] => Chr (fun _ => false)
  | [r] => r
  | r :: rs' => Alt r (alts rs')
  end.

Definition str (s : string) : regex := seqs (map lit (chars s)).
Definition istr (s : string) : regex := seqs (map ilit (chars s)).

Definition plus (r : regex) : regex := Seq r (Star r).
Definition opt (r : regex) : regex := Alt r Eps.

(** [r{0,n}]: up to [n] greedy copies. *)
Fixpoint upto (n : nat) (r : regex) : regex :=
  match n with
  | O => Eps
  | S n' => opt (Seq r (upto n' r))
  end.

(** [r{lo,hi}] *)
Definition rep (lo hi : nat) (r : regex) : regex :=
  seqs (repeat r lo ++ [upto (hi - lo) r]).

Definition one_of (s : string) (c : ascii) : bool :=
  existsb (Ascii.eqb c) (chars s).
Definition none_of (s : string) (c : ascii) : bool := negb (one_of s c).

Definition space : regex := Chr is_space.
Definition word : regex := Chr is_word.
Definition digit : regex := Chr is_digit.
(** [.] without [re.DOTALL] *)
Definition dot : regex := Chr (fun c => negb (Ascii.eqb c newline)).

(** *** Matches *)

(** A match: the state where it starts and the state where it ends. *)
Record found : Type := Found { m_from : state; m_to : state }.

Definition m_start (m : found) : nat := pos (m_from m).
Definition m_len (m : found) : nat := (pos (m_to m) - pos (m_from m))%nat.

(** [m.group()] *)
Definition m_text (m : found) : string :=
  text (take (m_len m) (rest (m_from m))).

(** [m.group(n)], [None] for a group that took no part in the match *)
Definition m_group (n : nat) (m : found) : option string :=
  text <$> cap_lookup n (caps (m_to m)).

Definition match_here (r : regex) (p : option ascii) (i : nat)
  (l : list ascii) : option found :=
  let st := State p i l [] in
  Found st <$> run r Some st.

(** The leftmost match at or after a position. *)
Fixpoint search_at (r : regex) (p : option ascii) (i : nat)
  (l : list ascii) {struct l} : option found :=
  match match_here r p i l with
  | Some m => Some m
  | None =>
      match l with
      | [] => None
      | c :: t => search_at r (Some c) (S i) t
      end
  end.

(** [r.match(s)]: a match at the start of [s] *)
Definition match_ (r : regex) (s : string) : option found :=
  match_here r None 0 (chars s).

(** [r.search(s)] *)
Definition search (r : regex) (s : string) : option found :=
  search_at r None 0 (chars s).

Definition is_some {A} (o : option A) : bool :=
  match o with Some _ => true | None => false end.

(** The non-overlapping matches from left to right. The scan resumes
    where a match ended, one character further after an empty match. *)
Fixpoint finditer_at (fuel : nat) (r : regex) (p : option ascii) (i : nat)
  (l : list ascii) {struct fuel} : list found :=
  match fuel with
  | O => []
  | S fuel' =>
      match search_at r p i l with
      | None => []
      | Some m =>
          let used := (m_start m - i + m_len m)%nat in
          m ::
          match m_len m, drop used l with
          | O, [] => []
          | O, c :: t => finditer_at fuel' r (Some c) (S (i + used)) t
          | _, l' => finditer_at fuel' r (prev (m_to m)) (i + used) l'
          end
      end
  end.

(** [r.finditer(s)] *)
Definition finditer (r : regex) (s : string) : list found :=
  finditer_at (S (String.length s)) r None 0 (chars s).

(** [r.findall(s)] for a pattern with exactly one group: the text of
    group 1 in every match, empty when the group took no part. *)
Definition findall1 (r : regex) (s : string) : list string :=
  map (fun m => default "" (m_group 1 m)) (finditer r s).

(** Replacement of the non-overlapping matches by a fixed text. *)
Fixpoint sub_at (fuel : nat) (r : regex) (repl : list ascii)
  (p : option ascii) (i : nat) (l : list ascii) {struct fuel}
  : list ascii :=
  match fuel with
  | O => l
  | S fuel' =>
      match search_at r p i l with
      | None => l
      | Some m =>
          let before := (m_start m - i)%nat in
          let used := (before + m_len m)%nat in
          take before l ++ repl ++
          match m_len m, drop used l with
          | O, [] => []
          | O, c :: t => c :: sub_at fuel' r repl (Some c) (S (i + used)) t
          | _, l' => sub_at fuel' r repl (prev (m_to m)) (i + used) l'
          end
      end
  end.

(** [re.sub(r, repl, s)] for a replacement without group references *)
Definition sub (r : regex) (repl : string) (s : string) : string :=
  text (sub_at (S (String.length s)) r (chars repl) None 0 (chars s)).

End Re.

(** ** Process outcomes

What a script run ends in: a value, [sys.exit(code)], or an exception
that nothing catches (the interpreter then prints a traceback and the
process ends with status 1). *)

Inductive outcome (A : Type) : Type :=
| Return (a : A)
| Exit (code : Z)
| Uncaught (exc : string).
Arguments Return {A} a.
Arguments Exit {A} code.
Arguments Uncaught {A} exc.

Definition bind {A B} (o : outcome A) (f : A -> outcome B) : outcome B :=
  match o with
  | Return a => f a
  | Exit c => Exit c
  | Uncaught e => Uncaught e
  end.

(** The exit status of a run of [main]; a [main] that returns ends the
    process with status 0. *)
Definition exit_status {A} (o : outcome A) : Z :=
  match o with
  | Return _ => 0
  | Exit c => c
  | Uncaught _ => 1
  end.

(** A path of the file system, as the scripts see it.  A directory is
    given by all the paths below it, at any depth: those of its files and
    those of its directories. *)
Inductive entry : Type :=
| Missing
| File (content : string)
| Unreadable (exc : string)
| Dir (paths : list string).

Definition is_dir (e : entry) : bool :=
  match e with
  | Dir _ => true
  | _ => false
  end.

(** ** review-checklist.py *)

Module ReviewChecklist.
  Import Text Re.

Record Issue : Type := mkIssue {
  rule : string;
  severity : string;
  line : Z;
  message : string
}.

Record ReviewReport : Type := mkReport {
  file : string;
  total_lines : Z;
  issues : list Issue
}.

Definition not_rparen : regex := Chr (none_of ")").

Definition FUNCTION_PATTERN : regex :=
  Alt
    (seqs
       [ Alt (Bol true) space;
         opt (Seq (str "export") (plus space));
         opt (Seq (str "default") (plus space));
         opt (Seq (str "async") (plus space));
         Alt
           (seqs [str "function"; plus space; Group 1 (plus word)])
           (seqs
              [ alts [str "const"; str "let"; str "var"];
                plus space; Group 2 (plus word);
                Star space; lit "="; Star space;
                opt (Seq (str "async") (plus space));
                alts
                  [ str "function";
                    seqs [lit "("; Star not_rparen; lit ")"; Star space;
                          str "=>"];
                    seqs [plus word; Star space; str "=>"] ] ]) ])
    (seqs [Group 3 (plus word); Star space; lit "("; Star not_rparen;
           lit ")"; Star space; lit "{"]).

Definition CONSOLE_LOG_PATTERN : regex :=
  seqs
    [ WordB; str "console"; lit ".";
      Group 1
        (alts [str "log"; str "debug"; str "info"; str "warn";
               str "error"; str "trace"]);
      Star space; lit "(" ].

Definition TODO_PATTERN : regex :=
  seqs
    [ WordB;
      Group 1 (alts [istr "TODO"; istr "FIXME"; istr "HACK"; istr "XXX"]);
      WordB ].

Definition dot_or_word (c : ascii) : bool :=
  Ascii.eqb c "." || is_word c.

Definition MAGIC_NUMBER_PATTERN : regex :=
  seqs
    [ NotBehind dot_or_word;
      opt (lit "-");
      Alt (Seq (Chr (in_range 50 57)) (plus digit))
          (seqs [plus digit; lit "."; plus digit]);
      NotAhead (Chr dot_or_word) ].

Definition EMPTY_CATCH_PATTERN : regex :=
  seqs
    [ str "catch"; Star space; lit "("; Star not_rparen; lit ")";
      Star space; lit "{"; Star space; lit "}" ].

Definition SAFE_NUMBER_CONTEXTS : regex :=
  seqs
    [ alts
        (map istr
           [ "port"; "timeout"; "delay"; "width"; "height"; "size";
             "length"; "index"; "count"; "max"; "min"; "limit";
             "version"; "STATUS"; "CODE"; "padding"; "margin"; "offset";
             "duration" ]);
      Star space; Chr (one_of ":="); Star space; Eol false ].

Definition IMPORT_CONTEXT : regex :=
  Seq (alts [str "import"; str "require"; str "from"]) space.

(** A quoted literal: an opening quote of either kind, then characters
    that are neither that quote nor a backslash, or escaped characters,
    then the same quote. *)
Definition QUOTED : regex :=
  seqs
    [ Group 1 (Chr (fun c => Ascii.eqb c dquote || Ascii.eqb c squote));
      Star (Alt (Seq (NotAhead (Alt (Backref 1) (lit backslash))) dot)
                (Seq (lit backslash) dot));
      Backref 1 ].

Definition TEMPLATE : regex :=
  seqs
    [ lit backtick;
      Star (Alt (Chr (fun c => negb (Ascii.eqb c backtick
                                     || Ascii.eqb c backslash)))
                (Seq (lit backslash) dot));
      lit backtick ].

Definition LINE_COMMENT : regex := seqs [str "//"; Star dot; Eol false].

(** The text that replaces a literal: two double quotes. *)
Definition empty_literal : string := text [dquote; dquote].

Definition brace_delta (line : string) : Z :=
  fold_left
    (fun depth ch =>
       if Ascii.eqb ch "{" then depth + 1
       else if Ascii.eqb ch "}" then depth - 1
       else depth)
    (chars line) 0.

(** The inner loop of [find_function_spans]: from line index [j] on,
    with the depth reached before it, the first index after [i] at which
    the depth is back at zero or below. *)
Fixpoint span_end (i j : nat) (depth : Z) (ls : list string)
  : option nat :=
  match ls with
  | [] => None
  | l :: t =>
      let depth' := depth + brace_delta l in
      if (depth' <=? 0) && (i <? j)%nat then Some j
      else span_end i (S j) depth' t
  end.

Definition span_name (m : found) : string :=
  match m_group 1 m, m_group 2 m, m_group 3 m with
  | Some n, _, _ => n
  | None, Some n, _ => n
  | None, None, Some n => n
  | None, None, None => "<anonymous>"
  end.

Fixpoint spans_from (i : nat) (ls : list string)
  : list (string * Z * Z) :=
  match ls with
  | [] => []
  | l :: t =>
      match search FUNCTION_PATTERN l with
      | Some m =>
          if contains "{" l then
            match span_end i i 0 ls with
            | Some j =>
                [(span_name m, Z.of_nat i + 1, Z.of_nat j + 1)]
            | None => []
            end
          else []
      | None => []
      end ++ spans_from (S i) t
  end.

Definition find_function_spans (lines : list string)
  : list (string * Z * Z) :=
  spans_from 0 lines.

Definition strip_comments_and_strings (line : string) : string :=
  let result := sub QUOTED empty_literal line in
  let result := sub TEMPLATE empty_literal result in
  sub LINE_COMMENT "" result.

Definition file_length_issues (lines : list string) : list Issue :=
  if Z.of_nat (length lines) >? 300 then
    [ mkIssue "file-length" "warning" 1
        ("File has " +:+ pretty (Z.of_nat (length lines))
           +:+ " lines (threshold: 300)") ]
  else [].

Definition long_function_issue (f : string * Z * Z) : list Issue :=
  let '(name, start, end_) := f in
  let length := end_ - start + 1 in
  if length >? 50 then
    [ mkIssue "long-function" "warning" start
        ("Function '" +:+ name +:+ "' is " +:+ pretty length
           +:+ " lines (threshold: 50)") ]
  else [].

Definition max_brace_depth (stripped : string) : Z :=
  snd
    (fold_left
       (fun '(brace_depth, max_depth) ch =>
          if Ascii.eqb ch "{" then
            (brace_depth + 1, Z.max max_depth (brace_depth + 1))
          else if Ascii.eqb ch "}" then (brace_depth - 1, max_depth)
          else (brace_depth, max_depth))
       (chars stripped) (0, 0)).

Definition todo_issues (i : Z) (raw_line : string) : list Issue :=
  map
    (fun tag =>
       mkIssue "todo-fixme" "info" i
         ("Found " +:+ upper tag +:+ " comment"))
    (findall1 TODO_PATTERN raw_line).

Definition console_log_issues (i : Z) (stripped : string) : list Issue :=
  if is_some (search CONSOLE_LOG_PATTERN stripped) then
    [ mkIssue "console-log" "warning" i
        "console.log/debug/warn/error left in code" ]
  else [].

Definition deep_nesting_issues (i : Z) (stripped : string) : list Issue :=
  let max_depth := max_brace_depth stripped in
  if max_depth >? 3 then
    [ mkIssue "deep-nesting" "warning" i
        ("Line has " +:+ pretty max_depth
           +:+ " levels of nesting (threshold: 3)") ]
  else [].

Definition magic_number_issues (i : Z) (raw_line stripped : string)
  : list Issue :=
  flat_map
    (fun m =>
       let prefix := slice_to (m_start m) stripped in
       if is_some (search SAFE_NUMBER_CONTEXTS prefix) then []
       else if is_some (search IMPORT_CONTEXT raw_line) then []
       else [mkIssue "magic-number" "info" i
               ("Magic number: " +:+ m_text m)])
    (finditer MAGIC_NUMBER_PATTERN stripped).

Definition long_line_issues (i : Z) (raw_line : string) : list Issue :=
  if len raw_line >? 120 then
    [ mkIssue "long-line" "info" i
        ("Line is " +:+ pretty (len raw_line)
           +:+ " characters (threshold: 120)") ]
  else [].

(** The rules of one line that is in no block comment. *)
Definition line_issues (i : Z) (raw_line : string) : list Issue :=
  let stripped := strip_comments_and_strings raw_line in
  todo_issues i raw_line
    ++ console_log_issues i stripped
    ++ deep_nesting_issues i stripped
    ++ magic_number_issues i raw_line stripped
    ++ long_line_issues i raw_line.

(** The loop over the lines, numbered from [i], with the flag
    [in_block_comment]. *)
Fixpoint lines_issues (in_block_comment : bool) (i : Z)
  (lines : list string) : list Issue :=
  match lines with
  | [] => []
  | raw_line :: t =>
      if contains "/*" raw_line && negb (contains "*/" raw_line) then
        lines_issues true (i + 1) t
      else if in_block_comment then
        lines_issues (negb (contains "*/" raw_line)) (i + 1) t
      else line_issues i raw_line ++ lines_issues false (i + 1) t
  end.

Definition empty_catch_issues (content : string) : list Issue :=
  map
    (fun m =>
       let line_num :=
         count_char newline (slice_to (m_start m) content) + 1 in
       mkIssue "empty-catch" "warning" line_num
         "Empty catch block — errors are silently swallowed")
    (finditer EMPTY_CATCH_PATTERN content).

(** [list.sort(key=...)] is stable: an issue is put before the first
    sorted issue of a greater line. *)
Fixpoint insert_by_line (x : Issue) (l : list Issue) : list Issue :=
  match l with
  | [] => [x]
  | y :: t =>
      if line x <=? line y then x :: l else y :: insert_by_line x t
  end.

Definition sort_by_line (l : list Issue) : list Issue :=
  foldr insert_by_line [] l.

(** The analysis of [check_file], from the text of the file on. *)
Definition check_content (filepath content : string) : ReviewReport :=
  let lines := splitlines content in
  mkReport filepath (Z.of_nat (length lines))
    (sort_by_line
       (file_length_issues lines
          ++ flat_map long_function_issue (find_function_spans lines)
          ++ lines_issues false 1 lines
          ++ empty_catch_issues content)).

Section Run.
(** The file system: what is found at a path. A file is given by its
    text, decoded as [read_text(errors=replace)] does. *)
Variable fs : string -> entry.

Definition check_file (filepath : string) : outcome ReviewReport :=
  match fs filepath with
  | Missing => Exit 1
  | File content => Return (check_content filepath content)
  | Unreadable exc => Uncaught exc
  | Dir _ => Uncaught "IsADirectoryError"
  end.

Definition warning_count (report : ReviewReport) : Z :=
  Z.of_nat
    (length
       (List.filter (fun i => String.eqb (severity i) "warning")
          (issues report))).

(** [main], without the rendering of the report. *)
Definition main (argv : list string) : outcome unit :=
  match argv with
  | _ :: filepath :: _ =>
      bind (check_file filepath) (fun report =>
        Exit (if warning_count report >? 0 then 1 else 0))
  | _ => Exit 1
  end.
End Run.

End ReviewChecklist.

(** ** Paths

Paths are taken in normal form, so that [str(Path(p))] is [p]. *)

Module Paths.
  Import Text.

(** [s.endswith(p)] *)
Definition endswith (s p : string) : bool :=
  prefix_chars (rev (chars p)) (rev (chars s)).

(** The last component of a path. *)
Definition name (p : string) : string :=
  List.last (split "/" p) "".

(** [Path(p).suffix == ext]: the name ends with [ext] and is more than
    the extension alone. *)
Definition has_suffix (ext p : string) : bool :=
  endswith (name p) ext && (String.length ext <? String.length (name p))%nat.

Fixpoint insert_sorted (x : string) (l : list string) : list string :=
  match l with
  | [] => [x]
  | y :: t => if String.leb x y then x :: l else y :: insert_sorted x t
  end.

(** [sorted(l)] on texts *)
Definition sorted (l : list string) : list string :=
  foldr insert_sorted [] l.

End Paths.

(** ** doc-structure-validator.py *)

Module DocValidator.
  Import Text Re.

Record Issue : Type := mkIssue {
  line : Z;
  severity : string;
  category : string;
  message : string
}.

Record SectionInfo : Type := mkSection {
  heading : string;
  level : Z;
  sec_line : Z;
  word_count : Z
}.

Record ValidationReport : Type := mkReport {
  file_path : string;
  total_words : Z;
  total_headings : Z;
  total_code_blocks : Z;
  total_images : Z;
  total_links : Z;
  sections : list SectionInfo;
  issues : list Issue
}.

Definition count_severity (sev : string) (l : list Issue) : Z :=
  Z.of_nat (length (List.filter (fun i => String.eqb (severity i) sev) l)).

Definition error_count (r : ValidationReport) : Z :=
  count_severity "error" (issues r).
Definition warning_count (r : ValidationReport) : Z :=
  count_severity "warning" (issues r).
Definition info_count (r : ValidationReport) : Z :=
  count_severity "info" (issues r).

Definition MARKER_PATTERN : regex :=
  seqs
    [ WordB;
      Group 1
        (alts [istr "TODO"; istr "TBD"; istr "FIXME"; istr "HACK";
               istr "XXX"]);
      WordB ].

Definition HEADING_PATTERN : regex :=
  seqs
    [ Bol false; Group 1 (rep 1 6 (lit "#")); plus space;
      Group 2 (plus dot); Eol false ].

Definition not_rbracket : regex := Chr (none_of "]").
Definition not_rparen : regex := Chr (none_of ")").

Definition IMAGE_PATTERN : regex :=
  seqs
    [ lit "!"; lit "["; Group 1 (Star not_rbracket); lit "]";
      lit "("; Group 2 (plus not_rparen); lit ")" ].

Definition LINK_PATTERN : regex :=
  seqs
    [ NotBehind (Ascii.eqb "!"); lit "["; Group 1 (plus not_rbracket);
      lit "]"; lit "("; Group 2 (plus not_rparen); lit ")" ].

Definition is_quote (c : ascii) : bool :=
  Ascii.eqb c dquote || Ascii.eqb c squote.

Definition ANCHOR_PATTERN : regex :=
  seqs
    [ lit "<"; ilit "a"; plus space; Alt (istr "name") (istr "id");
      Star space; lit "="; Star space; Chr is_quote;
      Group 1 (plus (Chr (fun c => negb (is_quote c)))); Chr is_quote ].

(** The characters that a slug drops: neither a word character, nor a
    space, nor a hyphen. *)
Definition SLUG_DROP : regex :=
  Chr (fun c => negb (is_word c || is_space c || Ascii.eqb c "-")).

Definition SPACES : regex := plus space.

Definition slugify_heading (text : string) : string :=
  let text := lower (strip text) in
  let text := sub SLUG_DROP "" text in
  sub SPACES "-" text.

Definition INLINE_CODE : regex :=
  seqs [lit backtick; plus (Chr (fun c => negb (Ascii.eqb c backtick)));
        lit backtick].

Definition MARKUP : regex := Chr (one_of "#*_[]()>|").

Definition count_words (text : string) : Z :=
  let cleaned := sub INLINE_CODE "" text in
  let cleaned := sub MARKUP " " cleaned in
  Z.of_nat (length (words cleaned)).

Record Heading : Type := mkHeading {
  h_level : Z;
  h_text : string;
  h_line : Z
}.

Record CodeBlock : Type := mkCodeBlock {
  cb_start : Z;
  cb_end : Z;
  cb_lang : option string;
  cb_unclosed : bool
}.

Record Image : Type := mkImage {
  img_alt : string;
  img_src : string;
  img_line : Z
}.

Record Link : Type := mkLink {
  link_text : string;
  href : string;
  link_line : Z
}.

(** The state of the loop of [parse_document]. *)
Record parser : Type := mkParser {
  headings : list Heading;
  code_blocks : list CodeBlock;
  images : list Image;
  links : list Link;
  in_code_block : bool;
  code_block_start : Z;
  code_block_lang : option string
}.

Definition is_fence (stripped : string) : bool := startswith stripped "```".

(** The language tag of an opening fence: the first word after the
    three backticks. A stripped line longer than the fence ends in a
    character that is no space, so that there is such a word. *)
Definition fence_lang (stripped : string) : string :=
  if len stripped >? 3 then
    match words (strip (slice_from 3 stripped)) with
    | w :: _ => w
    | [] => ""
    end
  else "".

Definition group_text (n : nat) (m : found) : string :=
  default "" (m_group n m).

Definition heading_of (i : Z) (stripped : string) : list Heading :=
  match match_ HEADING_PATTERN stripped with
  | Some m =>
      [ mkHeading (len (group_text 1 m)) (strip (group_text 2 m)) i ]
  | None => []
  end.

Definition images_of (i : Z) (line : string) : list Image :=
  map (fun m => mkImage (group_text 1 m) (group_text 2 m) i)
    (finditer IMAGE_PATTERN line).

Definition links_of (i : Z) (line : string) : list Link :=
  map (fun m => mkLink (group_text 1 m) (group_text 2 m) i)
    (finditer LINK_PATTERN line).

(** One turn of the loop of [parse_document], on line [i]. *)
Definition parse_line (p : parser) (i : Z) (line : string) : parser :=
  let stripped := strip line in
  if is_fence stripped then
    if negb (in_code_block p) then
      mkParser (headings p) (code_blocks p) (images p) (links p)
        true i (Some (fence_lang stripped))
    else
      mkParser (headings p)
        (code_blocks p
           ++ [mkCodeBlock (code_block_start p) i (code_block_lang p)
                 false])
        (images p) (links p) false (code_block_start p) None
  else if in_code_block p then p
  else
    mkParser (headings p ++ heading_of i stripped) (code_blocks p)
      (images p ++ images_of i line) (links p ++ links_of i line)
      (in_code_block p) (code_block_start p) (code_block_lang p).

Fixpoint parse_lines (p : parser) (i : Z) (lines : list string) : parser :=
  match lines with
  | [] => p
  | line :: t => parse_lines (parse_line p i line) (i + 1) t
  end.

Definition parse_document (lines : list string)
  : list Heading * list CodeBlock * list Image * list Link :=
  let p := parse_lines (mkParser [] [] [] [] false (-1) None) 1 lines in
  let code_blocks :=
    if in_code_block p then
      code_blocks p
        ++ [mkCodeBlock (code_block_start p) (Z.of_nat (length lines))
              (code_block_lang p) true]
    else code_blocks p in
  (headings p, code_blocks, images p, links p).

Fixpoint hierarchy_issues (prev_level : Z) (hs : list Heading)
  : list Issue :=
  match hs with
  | [] => []
  | h :: t =>
      (if (prev_level >? 0) && (h_level h >? prev_level + 1) then
         [ mkIssue (h_line h) "error" "heading-hierarchy"
             ("Heading level skipped: H" +:+ pretty prev_level
                +:+ " -> H" +:+ pretty (h_level h) +:+ " ('"
                +:+ h_text h +:+ "'). Expected H"
                +:+ pretty (prev_level + 1) +:+ " or lower.") ]
       else [])
      ++ hierarchy_issues (h_level h) t
  end.

Definition validate_heading_hierarchy (hs : list Heading) : list Issue :=
  match hs with
  | [] => [mkIssue 1 "warning" "structure" "Document has no headings."]
  | _ => hierarchy_issues 0 hs
  end.

(** The content lines among [rows]: outside fences, not empty, no
    heading. *)
Fixpoint content_lines (in_code : bool) (rows : list string)
  : list string :=
  match rows with
  | [] => []
  | row :: t =>
      let raw := strip row in
      if is_fence raw then content_lines (negb in_code) t
      else if negb in_code && negb (String.eqb raw "")
              && negb (is_some (match_ HEADING_PATTERN raw))
      then raw :: content_lines in_code t
      else content_lines in_code t
  end.

Definition sum_Z (l : list Z) : Z := fold_right Z.add 0 l.

(** The lines with the indices of [range(start_line, end_line)]. *)
Definition rows_between (start_line end_line : Z) (lines : list string)
  : list string :=
  take (Z.to_nat (end_line - start_line)) (drop (Z.to_nat start_line) lines).

Fixpoint sections_from (hs : list Heading) (lines : list string)
  : list SectionInfo :=
  match hs with
  | [] => []
  | h :: t =>
      let start_line := h_line h in
      let end_line :=
        match t with
        | next :: _ => h_line next - 1
        | [] => Z.of_nat (length lines)
        end in
      let content := content_lines false
                       (rows_between start_line end_line lines) in
      mkSection (h_text h) (h_level h) (h_line h)
        (sum_Z (map count_words content))
      :: sections_from t lines
  end.

Definition empty_section_issues (ss : list SectionInfo) : list Issue :=
  flat_map
    (fun s =>
       if word_count s =? 0 then
         [ mkIssue (sec_line s) "warning" "empty-section"
             ("Section '" +:+ heading s
                +:+ "' appears to have no content.") ]
       else [])
    ss.

Definition validate_empty_sections (hs : list Heading)
  (lines : list string) : list SectionInfo * list Issue :=
  let ss := sections_from hs lines in
  (ss, empty_section_issues ss).

(** The set of targets that an internal link may have. *)
Definition heading_slugs (hs : list Heading) (lines : list string)
  : gset string :=
  list_to_set (map (fun h => slugify_heading (h_text h)) hs)
    ∪ list_to_set
        (map (fun m => lower (group_text 1 m))
           (finditer ANCHOR_PATTERN (join (text [newline]) lines))).

Definition link_issue (slugs : gset string) (l : Link) : list Issue :=
  if startswith (href l) "#" then
    let target := lower (slice_from 1 (href l)) in
    if bool_decide (target ∈ slugs) then []
    else
      [ mkIssue (link_line l) "error" "broken-link"
          ("Internal link '#" +:+ target
             +:+ "' does not match any heading or anchor.") ]
  else [].

Definition validate_internal_links (hs : list Heading) (ls : list Link)
  (lines : list string) : list Issue :=
  flat_map (link_issue (heading_slugs hs lines)) ls.

Definition code_block_issue (cb : CodeBlock) : list Issue :=
  if cb_unclosed cb then
    [ mkIssue (cb_start cb) "error" "code-block"
        "Unclosed code block (missing closing ```)." ]
  else
    match cb_lang cb with
    | Some (String _ _) => []
    | _ =>
        [ mkIssue (cb_start cb) "warning" "code-block"
            "Code block missing language tag (e.g., ```python)." ]
    end.

Definition validate_code_blocks (cbs : list CodeBlock) : list Issue :=
  flat_map code_block_issue cbs.

Definition validate_images (imgs : list Image) : list Issue :=
  flat_map
    (fun img =>
       if String.eqb (strip (img_alt img)) "" then
         [ mkIssue (img_line img) "warning" "accessibility"
             ("Image missing alt text: " +:+ img_src img) ]
       else [])
    imgs.

Fixpoint markers_from (in_code : bool) (i : Z) (lines : list string)
  : list Issue :=
  match lines with
  | [] => []
  | l :: t =>
      if is_fence (strip l) then markers_from (negb in_code) (i + 1) t
      else if in_code then markers_from in_code (i + 1) t
      else
        map
          (fun m =>
             mkIssue i "info" "marker"
               ("Found '" +:+ m_text m +:+ "' marker: "
                  +:+ slice_to 80 (strip l)))
          (finditer MARKER_PATTERN l)
        ++ markers_from in_code (i + 1) t
  end.

Definition validate_markers (lines : list string) : list Issue :=
  markers_from false 1 lines.

(** The lines outside fences, for the count of all words. *)
Fixpoint word_lines (in_code : bool) (lines : list string) : list string :=
  match lines with
  | [] => []
  | l :: t =>
      if is_fence (strip l) then word_lines (negb in_code) t
      else if in_code then word_lines in_code t
      else l :: word_lines in_code t
  end.

(** [validate_document], from the text of the file on. *)
Definition validate_content (file_path content : string)
  : ValidationReport :=
  let lines := split newline content in
  let '(hs, cbs, imgs, ls) := parse_document lines in
  let '(ss, empties) := validate_empty_sections hs lines in
  mkReport file_path
    (count_words (join " " (word_lines false lines)))
    (Z.of_nat (length hs)) (Z.of_nat (length cbs))
    (Z.of_nat (length imgs)) (Z.of_nat (length ls))
    ss
    (validate_heading_hierarchy hs
       ++ empties
       ++ validate_internal_links hs ls lines
       ++ validate_code_blocks cbs
       ++ validate_images imgs
       ++ validate_markers lines).

(** The options of the command line, after [argparse]. *)
Record Args : Type := mkArgs {
  path : string;
  json : bool;
  recursive : bool;
  fail_on_warnings : bool
}.

Section Run.
(** The file system. *)
Variable fs : string -> entry.

Definition validate_document (file_path : string)
  : outcome ValidationReport :=
  match fs file_path with
  | Missing =>
      Return
        (mkReport file_path 0 0 0 0 0 []
           [ mkIssue 0 "error" "file"
               ("File not found: " +:+ file_path) ])
  | File content => Return (validate_content file_path content)
  | Unreadable exc => Uncaught exc
  | Dir _ => Uncaught "IsADirectoryError"
  end.

(** [os.walk] gives, of the paths below the directory, those that are
    not directories as the files; the names of the directories are not
    looked at. *)
Definition find_markdown_files (directory : string) : list string :=
  match fs directory with
  | Dir paths =>
      Paths.sorted
        (List.filter
           (fun f =>
              negb (is_dir (fs f))
              && Paths.endswith (lower (Paths.name f)) ".md")
           paths)
  | _ => []
  end.

(** The files that [main] validates, or the exit that ends it. *)
Definition targets (args : Args) : outcome (list string) :=
  match fs (path args) with
  | Dir _ =>
      if negb (recursive args) then Exit 1
      else
        match find_markdown_files (path args) with
        | [] => Exit 1
        | files => Return files
        end
  | File _ | Unreadable _ => Return [path args]
  | Missing => Exit 1
  end.

Fixpoint validate_all (files : list string)
  : outcome (list ValidationReport) :=
  match files with
  | [] => Return []
  | f :: t =>
      bind (validate_document f) (fun r =>
      bind (validate_all t) (fun rs => Return (r :: rs)))
  end.

Definition total_errors (reports : list ValidationReport) : Z :=
  sum_Z (map error_count reports).
Definition total_warnings (reports : list ValidationReport) : Z :=
  sum_Z (map warning_count reports).

(** [main], without the rendering of the reports. *)
Definition main (args : Args) : outcome unit :=
  bind (targets args) (fun files =>
  bind (validate_all files) (fun reports =>
    if total_errors reports >? 0 then Exit 1
    else if fail_on_warnings args && (total_warnings reports >? 0)
    then Exit 1
    else Return tt)).
End Run.

End DocValidator.

(** ** The slugs and the internal links over any alphabet

    [slugify_heading] and [validate_internal_links] of
    doc-structure-validator.py once more, over the code points of a
    Python text rather than over 8-bit characters.  What Python decides by
    its Unicode tables is a parameter here: the class [\s], which is also
    [str.isspace], the class [\w], and [str.lower]; so are the anchors
    that [ANCHOR_PATTERN] finds in a text. *)

Module CodePoints.

Section Alphabet.

(** The code points. *)
Variable char : Type.
Context `{Countable char}.

(** An ASCII character as a code point. *)
Variable of_ascii : ascii -> char.
(** [str.isspace] on one character, which is also the class [\s]. *)
Variable is_space : char -> bool.
(** The class [\w]. *)
Variable is_word : char -> bool.
(** [s.lower()] *)
Variable lower : list char -> list char.
(** [[m.group(1) for m in ANCHOR_PATTERN.finditer(s)]] *)
Variable anchors : list char -> list (list char).

Definition of_string (s : string) : list char :=
  map of_ascii (Text.chars s).

Definition hyphen : char := of_ascii "-".
Definition hash : char := of_ascii "#".

Fixpoint lstrip (l : list char) : list char :=
  match l with
  | c :: t => if is_space c then lstrip t else l
  | [] => []
  end.

(** [s.strip()] *)
Definition strip (l : list char) : list char :=
  rev (lstrip (rev (lstrip l))).

(** [s.startswith(p)] *)
Fixpoint startswith (s p : list char) {struct p} : bool :=
  match p, s with
  | [], _ => true
  | a :: p', b :: s' => bool_decide (a = b) && startswith s' p'
  | _ :: _, [] => false
  end.

(** [sep.join(l)] *)
Fixpoint join (sep : list char) (l : list (list char)) : list char :=
  match l with
  | [] => []
  | [x] => x
  | x :: t => x ++ sep ++ join sep t
  end.

(** [re.sub(p, repl, s)] for a pattern [p] that is one class of
    characters: each character of the class gives way to [repl]. *)
Definition sub_class (p : char -> bool) (repl s : list char) : list char :=
  flat_map (fun c => if p c then repl else [c]) s.

(** [re.sub(p, repl, s)] for a pattern [p] that is one class of
    characters, once or more: each maximal run of characters of the class
    gives way to [repl]. [in_run] says that the character before belongs
    to the class. *)
Fixpoint sub_runs (p : char -> bool) (repl : list char) (in_run : bool)
  (s : list char) : list char :=
  match s with
  | [] => []
  | c :: t =>
      if p c then
        if in_run then sub_runs p repl true t
        else repl ++ sub_runs p repl true t
      else c :: sub_runs p repl false t
  end.

(** The class [[^\w\s-]]. *)
Definition slug_drops (c : char) : bool :=
  negb (is_word c || is_space c || bool_decide (c = hyphen)).

Definition slugify_heading (text : list char) : list char :=
  let text := lower (strip text) in
  let text := sub_class slug_drops [] text in
  sub_runs is_space [hyphen] false text.

Record Heading : Type := mkHeading {
  h_level : Z;
  h_text : list char;
  h_line : Z
}.

Record Link : Type := mkLink {
  link_text : list char;
  href : list char;
  link_line : Z
}.

Record Issue : Type := mkIssue {
  line : Z;
  severity : string;
  category : string;
  message : list char
}.

(** The set of targets that an internal link may have. *)
Definition heading_slugs (hs : list Heading) (lines : list (list char))
  : gset (list char) :=
  list_to_set (map (fun h => slugify_heading (h_text h)) hs)
    ∪ list_to_set
        (map lower (anchors (join [of_ascii Text.newline] lines))).

Definition link_issue (slugs : gset (list char)) (l : Link) : list Issue :=
  if startswith (href l) [hash] then
    let target := lower (drop 1 (href l)) in
    if bool_decide (target ∈ slugs) then []
    else
      [ mkIssue (link_line l) "error" "broken-link"
          (of_string "Internal link '#" ++ target
             ++ of_string "' does not match any heading or anchor.") ]
  else [].

Definition validate_internal_links (hs : list Heading) (ls : list Link)
  (lines : list (list char)) : list Issue :=
  flat_map (link_issue (heading_slugs hs lines)) ls.

(** A character that is its own lower case. *)
Definition lower_case (c : char) : Prop := lower [c] = [c].

(** What the properties use of [str.lower]: Python gives the lower case
    of a text character by character, and no character that it gives has
    another lower case. *)
Record lower_laws : Prop := {
  lower_gives_lower_case : forall s c, In c (lower s) -> lower_case c;
  lower_keeps_lower_case : forall s, Forall lower_case s -> lower s = s;
  lower_case_hyphen : lower_case hyphen
}.

End Alphabet.

Arguments mkHeading {char}.
Arguments h_level {char}.
Arguments h_text {char}.
Arguments h_line {char}.
Arguments mkLink {char}.
Arguments link_text {char}.
Arguments href {char}.
Arguments link_line {char}.
Arguments mkIssue {char}.
Arguments line {char}.
Arguments severity {char}.
Arguments category {char}.
Arguments message {char}.

End CodePoints.

(** ** quality-gate.py *)

Module QualityGate.
  Import Text Re.

Definition STDLIB_TOP_LEVEL : gset string :=
  list_to_set
    [ "abc"; "aifc"; "argparse"; "array"; "ast"; "asynchat"; "asyncio";
      "asyncore"; "atexit"; "audioop"; "base64"; "bdb"; "binascii";
      "binhex"; "bisect"; "builtins"; "bz2"; "calendar"; "cgi"; "cgitb";
      "chunk"; "cmath"; "cmd"; "code"; "codecs"; "codeop"; "collections";
      "colorsys"; "compileall"; "concurrent"; "configparser"; "contextlib";
      "contextvars"; "copy"; "copyreg"; "cProfile"; "crypt"; "csv";
      "ctypes"; "curses"; "dataclasses"; "datetime"; "dbm"; "decimal";
      "difflib"; "dis"; "distutils"; "doctest"; "email"; "encodings";
      "enum"; "errno"; "faulthandler"; "fcntl"; "filecmp"; "fileinput";
      "fnmatch"; "formatter"; "fractions"; "ftplib"; "functools"; "gc";
      "getopt"; "getpass"; "gettext"; "glob"; "grp"; "gzip"; "hashlib";
      "heapq"; "hmac"; "html"; "http"; "idlelib"; "imaplib"; "imghdr";
      "imp"; "importlib"; "inspect"; "io"; "ipaddress"; "itertools";
      "json"; "keyword"; "lib2to3"; "linecache"; "locale"; "logging";
      "lzma"; "mailbox"; "mailcap"; "marshal"; "math"; "mimetypes";
      "mmap"; "modulefinder"; "multiprocessing"; "netrc"; "nis"; "nntplib";
      "numbers"; "operator"; "optparse"; "os"; "ossaudiodev"; "parser";
      "pathlib"; "pdb"; "pickle"; "pickletools"; "pipes"; "pkgutil";
      "platform"; "plistlib"; "poplib"; "posix"; "posixpath"; "pprint";
      "profile"; "pstats"; "pty"; "pwd"; "py_compile"; "pyclbr";
      "pydoc"; "queue"; "quopri"; "random"; "re"; "readline"; "reprlib";
      "resource"; "rlcompleter"; "runpy"; "sched"; "secrets"; "select";
      "selectors"; "shelve"; "shlex"; "shutil"; "signal"; "site";
      "smtpd"; "smtplib"; "sndhdr"; "socket"; "socketserver"; "spwd";
      "sqlite3"; "sre_compile"; "sre_constants"; "sre_parse"; "ssl";
      "stat"; "statistics"; "string"; "stringprep"; "struct"; "subprocess";
      "sunau"; "symtable"; "sys"; "sysconfig"; "syslog"; "tabnanny";
      "tarfile"; "telnetlib"; "tempfile"; "termios"; "test"; "textwrap";
      "threading"; "time"; "timeit"; "tkinter"; "token"; "tokenize";
      "tomllib"; "trace"; "traceback"; "tracemalloc"; "tty"; "turtle";
      "turtledemo"; "types"; "typing"; "unicodedata"; "unittest"; "urllib";
      "uu"; "uuid"; "venv"; "warnings"; "wave"; "weakref"; "webbrowser";
      "winreg"; "winsound"; "wsgiref"; "xdrlib"; "xml"; "xmlrpc";
      "zipapp"; "zipfile"; "zipimport"; "zlib"; "_thread" ].

Definition MAX_FUNCTION_LINES : Z := 50.

Record Issue : Type := mkIssue {
  file : string;
  line : Z;
  category : string;
  message : string;
  severity : string
}.

Record Report : Type := mkReport {
  issues : list Issue;
  files_checked : Z;
  functions_checked : Z;
  classes_checked : Z
}.

Definition empty_report : Report := mkReport [] 0 0 0.

Definition is_error (i : Issue) : bool := String.eqb (severity i) "error".
Definition is_warning (i : Issue) : bool :=
  String.eqb (severity i) "warning".

(** The property [Report.passed] *)
Definition passed (r : Report) : bool := negb (existsb is_error (issues r)).

(** [Report.add]; the severity is [warning] where a call gives none. *)
Definition add (r : Report) (file : string) (line : Z)
  (category message severity : string) : Report :=
  mkReport (issues r ++ [mkIssue file line category message severity])
    (files_checked r) (functions_checked r) (classes_checked r).

(** *** The syntax tree

The nodes of the [ast] module that the checks look at. A function
or class carries the value of [ast.get_docstring] as its field
[docstring]. Every other node is an [Other] with the nodes below it;
expressions have no statements below them and are left out of the
children, which leaves the order of [ast.walk] on the nodes of the
other kinds as it is. *)

Inductive expr : Type :=
| Name (id : string)
| OtherExpr.

Record arg : Type := mkArg {
  arg_name : string;
  annotation : option expr
}.

Record arguments : Type := mkArguments {
  posonlyargs : list arg;
  args : list arg;
  vararg : option arg;
  kwonlyargs : list arg;
  kwarg : option arg
}.

Inductive node : Type :=
| FunctionDef (is_async : bool) (name : string) (a : arguments)
    (body : list node) (returns : option expr) (lineno : Z)
    (end_lineno : option Z) (docstring : option string)
| ClassDef (name : string) (body : list node) (lineno : Z)
    (docstring : option string)
| Import (names : list string) (lineno : Z)
| ImportFrom (module : option string) (level : Z) (lineno : Z)
| Assign (targets : list expr) (lineno : Z)
| Other (children : list node).

Record Module_ : Type := mkModule {
  mod_body : list node;
  mod_docstring : option string
}.

(** [ast.iter_child_nodes] *)
Definition iter_child_nodes (n : node) : list node :=
  match n with
  | FunctionDef _ _ _ body _ _ _ _ => body
  | ClassDef _ body _ _ => body
  | Other children => children
  | _ => []
  end.

Fixpoint size (n : node) : nat :=
  match n with
  | FunctionDef _ _ _ body _ _ _ _ => S (list_sum (map size body))
  | ClassDef _ body _ _ => S (list_sum (map size body))
  | Other children => S (list_sum (map size children))
  | _ => 1%nat
  end.

(** The queue of [ast.walk]: the first node is taken, the nodes below
    it are put at the end. *)
Fixpoint walk_queue (fuel : nat) (todo : list node) : list node :=
  match fuel, todo with
  | S fuel', n :: rest => n :: walk_queue fuel' (rest ++ iter_child_nodes n)
  | _, _ => []
  end.

(** [ast.walk(tree)], without the module node at its head. *)
Definition walk (tree : Module_) : list node :=
  walk_queue (list_sum (map size (mod_body tree))) (mod_body tree).

(** A value that Python takes for false in [not doc]: no docstring, or
    an empty one. *)
Definition no_docstring (doc : option string) : bool :=
  match doc with
  | Some (String _ _) => false
  | _ => true
  end.

Definition is_none {A} (o : option A) : bool :=
  match o with Some _ => false | None => true end.

(** The names that the documentation and annotation checks skip. *)
Definition is_private (name : string) : bool :=
  startswith name "_" && negb (String.eqb name "__init__").

Definition bump_functions (r : Report) : Report :=
  mkReport (issues r) (files_checked r) (functions_checked r + 1)
    (classes_checked r).

Definition bump_classes (r : Report) : Report :=
  mkReport (issues r) (files_checked r) (functions_checked r)
    (classes_checked r + 1).

Definition bump_files (r : Report) : Report :=
  mkReport (issues r) (files_checked r + 1) (functions_checked r)
    (classes_checked r).

Definition check_arg (filepath name : string) (lineno : Z) (r : Report)
  (x : arg) : Report :=
  if String.eqb (arg_name x) "self" || String.eqb (arg_name x) "cls" then r
  else if is_none (annotation x) then
    add r filepath lineno "type-hints"
      ("Parameter '" +:+ arg_name x +:+ "' in '" +:+ name
         +:+ "' missing type hint")
      "error"
  else r.

(** The body of the loop of [check_type_hints]. *)
Definition type_hints_node (filepath : string) (r : Report) (n : node)
  : Report :=
  match n with
  | FunctionDef _ name a _ returns lineno _ _ =>
      if is_private name then r
      else
        let r := bump_functions r in
        let r := fold_left (check_arg filepath name lineno) (args a) r in
        if negb (String.eqb name "__init__") && is_none returns then
          add r filepath lineno "type-hints"
            ("Function '" +:+ name +:+ "' missing return type annotation")
            "error"
        else r
  | _ => r
  end.

Definition check_type_hints (tree : Module_) (filepath : string)
  (r : Report) : Report :=
  fold_left (type_hints_node filepath) (walk tree) r.

(** The body of the loop of [check_docstrings]. *)
Definition docstrings_node (filepath : string) (r : Report) (n : node)
  : Report :=
  match n with
  | ClassDef name _ lineno doc =>
      let r := bump_classes r in
      if no_docstring doc then
        add r filepath lineno "docstrings"
          ("Class '" +:+ name +:+ "' missing docstring") "warning"
      else r
  | FunctionDef _ name _ _ _ lineno _ doc =>
      if is_private name then r
      else if no_docstring doc then
        add r filepath lineno "docstrings"
          ("Function '" +:+ name +:+ "' missing docstring") "warning"
      else r
  | _ => r
  end.

Definition check_docstrings (tree : Module_) (filepath : string)
  (r : Report) : Report :=
  let r :=
    if no_docstring (mod_docstring tree) then
      add r filepath 1 "docstrings" "Module missing docstring" "warning"
    else r in
  fold_left (docstrings_node filepath) (walk tree) r.

Inductive group : Type := stdlib | third_party | local.

(** The text of a group *)
Definition group_name (g : group) : string :=
  match g with
  | stdlib => "stdlib"
  | third_party => "third-party"
  | local => "local"
  end.

Definition group_order (g : group) : Z :=
  match g with
  | stdlib => 0
  | third_party => 1
  | local => 2
  end.

Definition classify (name : string) : group :=
  let top := split_first "." name in
  if bool_decide (top ∈ STDLIB_TOP_LEVEL) then stdlib else third_party.

(** The import records of one statement at the top of the module. *)
Definition imports_of (n : node) : list (Z * group * string) :=
  match n with
  | Import names lineno =>
      map (fun alias => (lineno, classify alias, alias)) names
  | ImportFrom None _ _ => []
  | ImportFrom (Some module) level lineno =>
      [ (lineno, (if level >? 0 then local else classify module), module) ]
  | _ => []
  end.

Definition import_records (tree : Module_) : list (Z * group * string) :=
  flat_map imports_of (mod_body tree).

(** The scan of the import records, with the rank of the record before. *)
Fixpoint scan_imports (filepath : string) (prev_group_rank : Z)
  (imports : list (Z * group * string)) (r : Report) : Report :=
  match imports with
  | [] => r
  | (lineno, group, name) :: t =>
      let rank := group_order group in
      let r :=
        if rank <? prev_group_rank then
          add r filepath lineno "imports"
            ("Import '" +:+ name +:+ "' (" +:+ group_name group
               +:+ ") appears after a later group; "
               +:+ "expected order: stdlib → third-party → local")
            "warning"
        else r in
      scan_imports filepath rank t r
  end.

Definition check_import_organization (tree : Module_) (filepath : string)
  (r : Report) : Report :=
  scan_imports filepath (-1) (import_records tree) r.

(** The body of the loop of [check_function_length]. *)
Definition function_length_node (filepath : string) (r : Report)
  (n : node) : Report :=
  match n with
  | FunctionDef _ name _ _ _ lineno (Some end_lineno) _ =>
      let length := end_lineno - lineno + 1 in
      if length >? MAX_FUNCTION_LINES then
        add r filepath lineno "function-length"
          ("Function '" +:+ name +:+ "' is " +:+ pretty length
             +:+ " lines (max " +:+ pretty MAX_FUNCTION_LINES +:+ ")")
          "error"
      else r
  | _ => r
  end.

Definition check_function_length (tree : Module_) (filepath : string)
  (r : Report) : Report :=
  fold_left (function_length_node filepath) (walk tree) r.

Definition lower_digit_us (c : ascii) : bool :=
  is_lower c || is_digit c || Ascii.eqb c "_".
Definition upper_digit_us (c : ascii) : bool :=
  is_upper c || is_digit c || Ascii.eqb c "_".
Definition alnum (c : ascii) : bool :=
  is_lower c || is_upper c || is_digit c.

Definition SNAKE_CASE : regex :=
  seqs [ Bol false; upto 2 (lit "_"); Chr is_lower;
         Star (Chr lower_digit_us); upto 2 (lit "_"); Eol false ].

Definition UPPER_SNAKE : regex :=
  seqs [ Bol false; Chr is_upper; Star (Chr upper_digit_us); Eol false ].

Definition PASCAL_CASE : regex :=
  seqs [ Bol false; opt (lit "_"); Chr is_upper; Star (Chr alnum);
         Eol false ].

(** [keyword.kwlist] *)
Definition kwlist : gset string :=
  list_to_set
    [ "False"; "None"; "True"; "and"; "as"; "assert"; "async"; "await";
      "break"; "class"; "continue"; "def"; "del"; "elif"; "else";
      "except"; "finally"; "for"; "from"; "global"; "if"; "import"; "in";
      "is"; "lambda"; "nonlocal"; "not"; "or"; "pass"; "raise"; "return";
      "try"; "while"; "with"; "yield" ].

Definition iskeyword (name : string) : bool := bool_decide (name ∈ kwlist).

Definition matches (r : regex) (s : string) : bool := is_some (match_ r s).

Definition check_target (filepath : string) (lineno : Z) (r : Report)
  (target : expr) : Report :=
  match target with
  | Name name =>
      if iskeyword name then r
      else if matches UPPER_SNAKE name then r
      else if negb (matches SNAKE_CASE name) then
        add r filepath lineno "naming"
          ("Variable '" +:+ name +:+ "' should use snake_case") "warning"
      else r
  | OtherExpr => r
  end.

(** The body of the loop of [check_naming]. *)
Definition naming_node (filepath : string) (r : Report) (n : node)
  : Report :=
  match n with
  | ClassDef name _ lineno _ =>
      if negb (matches PASCAL_CASE name) then
        add r filepath lineno "naming"
          ("Class '" +:+ name +:+ "' should use PascalCase") "warning"
      else r
  | FunctionDef _ name _ _ _ lineno _ _ =>
      if negb (matches SNAKE_CASE name) then
        add r filepath lineno "naming"
          ("Function '" +:+ name +:+ "' should use snake_case") "warning"
      else r
  | Assign targets lineno =>
      fold_left (check_target filepath lineno) targets r
  | _ => r
  end.

Definition check_naming (tree : Module_) (filepath : string) (r : Report)
  : Report :=
  fold_left (naming_node filepath) (walk tree) r.

(** The five checks, in the order of [analyze_file]. *)
Definition run_checks (tree : Module_) (filepath : string) (r : Report)
  : Report :=
  let r := bump_files r in
  let r := check_type_hints tree filepath r in
  let r := check_docstrings tree filepath r in
  let r := check_import_organization tree filepath r in
  let r := check_function_length tree filepath r in
  check_naming tree filepath r.

(** What [ast.parse] gives: a tree, a [SyntaxError] with its line, if it
    has one, and its message, or an exception of another class (a
    [ValueError] for a source with a null byte, a [RecursionError], a
    [MemoryError]), which [analyze_file] does not catch. *)
Inductive parsed : Type :=
| Tree (tree : Module_)
| SyntaxError (lineno : option Z) (msg : string)
| Raises (exc : string).

(** The status line of [format_report]; without issues the report ends
    in [ALL CHECKS PASSED] and has no status line. *)
Definition report_status (r : Report) : string :=
  match issues r with
  | [] => "ALL CHECKS PASSED"
  | _ => if negb (passed r) then "FAILED" else "PASSED (with warnings)"
  end.

Section Run.
(** The file system and the parser of the [ast] module. *)
Variable fs : string -> entry.
Variable ast_parse : string -> string -> parsed.

(** [Path(filepath).read_text]: the text, or the message of the
    [OSError] or [UnicodeDecodeError]. *)
Definition read_text (filepath : string) : string + string :=
  match fs filepath with
  | File content => inl content
  | Unreadable exc => inr exc
  | Missing => inr "No such file or directory"
  | Dir _ => inr "Is a directory"
  end.

(** [analyze_file] returns with the report as it has left it, or ends
    with the exception of [ast.parse] that it does not catch; the report
    is then as it was. *)
Definition analyze_file (filepath : string) (r : Report) : outcome Report :=
  match read_text filepath with
  | inr exc =>
      Return (add r filepath 0 "parse" ("Cannot read file: " +:+ exc) "error")
  | inl source =>
      match ast_parse source filepath with
      | Raises exc => Uncaught exc
      | SyntaxError lineno msg =>
          Return
            (add r filepath
               (match lineno with
                | Some n => if n =? 0 then 0 else n
                | None => 0
                end)
               "parse" ("Syntax error: " +:+ msg) "error")
      | Tree tree => Return (run_checks tree filepath r)
      end
  end.

(** [rglob] gives every path below the directory whose name matches
    [*.py], a file or a directory. *)
Definition collect_python_files (path : string) : list string :=
  match fs path with
  | File _ | Unreadable _ =>
      if Paths.has_suffix ".py" path then [path] else []
  | Dir paths =>
      Paths.sorted
        (List.filter (fun f => Paths.endswith (Paths.name f) ".py") paths)
  | Missing => []
  end.

(** The loop of [main] over the files, from the report [r] on: an
    exception that [analyze_file] does not catch ends it. *)
Fixpoint analyze_files (files : list string) (r : Report)
  : outcome Report :=
  match files with
  | [] => Return r
  | f :: t => bind (analyze_file f r) (analyze_files t)
  end.

Definition analyze_all (files : list string) : outcome Report :=
  analyze_files files empty_report.

(** [main], without the rendering of the report. *)
Definition main (argv : list string) : outcome unit :=
  match argv with
  | _ :: target :: _ =>
      match collect_python_files target with
      | [] => Exit 2
      | files =>
          bind (analyze_all files) (fun report =>
            Exit (if passed report then 0 else 1))
      end
  | _ => Exit 2
  end.
End Run.

End QualityGate.

(** ** The words of the specification

Definitions that follow the text of the specification, to be compared
with what the scripts compute. *)

Module Spec.
  Import Text.

(** The verdict policy: an error gives FAILED; otherwise a warning
    gives PASSED_WITH_WARNINGS; otherwise PASSED. *)
Inductive verdict : Type := FAILED | PASSED_WITH_WARNINGS | PASSED.

Definition verdict_of (severities : list string) : verdict :=
  if existsb (String.eqb "error") severities then FAILED
  else if existsb (String.eqb "warning") severities
       then PASSED_WITH_WARNINGS
       else PASSED.

(** The import-ordering rule in the words of the specification: an
    import is flagged when its rank is lower than the highest rank seen
    before it. The result is the list of the flagged lines. *)
Fixpoint import_flags (highest : Z)
  (imports : list (Z * QualityGate.group * string)) : list Z :=
  match imports with
  | [] => []
  | (lineno, g, _) :: t =>
      (if QualityGate.group_order g <? highest then [lineno] else [])
      ++ import_flags (Z.max highest (QualityGate.group_order g)) t
  end.

(** The code of a JavaScript line outside its literals and comments, by
    one pass from left to right: a quote of one of the three kinds opens
    a literal that ends at the next such quote that no backslash
    escapes; two slashes outside a literal open a comment that runs to
    the end of the line. A literal leaves its two quotes, as a pair of
    double quotes. *)
Fixpoint code_outside_literals (inside : option ascii) (l : list ascii)
  : list ascii :=
  match l with
  | [] => []
  | c :: t =>
      match inside with
      | Some q =>
          if Ascii.eqb c backslash then
            match t with
            | [] => []
            | _ :: t' => code_outside_literals (Some q) t'
            end
          else if Ascii.eqb c q then
            dquote :: code_outside_literals None t
          else code_outside_literals (Some q) t
      | None =>
          if Ascii.eqb c dquote || Ascii.eqb c squote
             || Ascii.eqb c backtick
          then dquote :: code_outside_literals (Some c) t
          else if Ascii.eqb c "/" && prefix_chars ["/"%char] t then []
          else c :: code_outside_literals None t
      end
  end.

Definition js_code (line : string) : string :=
  text (code_outside_literals None (chars line)).

(** The analysis of a file that does not parse, in the words of the
    specification: one error issue of the rule [parse], and then all the
    rules on the empty model. *)
Definition analyze_unparsed (filepath : string) (lineno : Z) (msg : string)
  (r : QualityGate.Report) : QualityGate.Report :=
  QualityGate.run_checks (QualityGate.mkModule [] None) filepath
    (QualityGate.add r filepath lineno "parse" msg "error").

(** The slug of a heading in the words of the specification: the text in
    lower case, without the characters that are neither word characters,
    nor spaces, nor hyphens, and with one hyphen for each run of spaces. *)
Definition slug_keeps (c : ascii) : bool :=
  Text.is_word c || Text.is_space c || Ascii.eqb c "-".

Fixpoint hyphenate (in_run : bool) (l : list ascii) : list ascii :=
  match l with
  | [] => []
  | c :: t =>
      if Text.is_space c then
        if in_run then hyphenate true t else "-"%char :: hyphenate true t
      else c :: hyphenate false t
  end.

Definition slug (heading : string) : string :=
  Text.text
    (hyphenate false
       (List.filter slug_keeps
          (Text.lower_chars (Text.strip_chars (Text.chars heading))))).

End Spec.

Module QG := QualityGate.
Module RC := ReviewChecklist.
Module DV := DocValidator.

(** ** Notions for the properties *)

Module Notions.

(** [f] appends a fixed list of issues, all of which satisfy [ok]. *)
Definition appends (ok : QG.Issue -> Prop) (f : QG.Report -> QG.Report)
  : Prop :=
  exists l, Forall ok l /\ forall r, QG.issues (f r) = QG.issues r ++ l.

(** The two severities of quality-gate.py. *)
Definition error_or_warning (i : QG.Issue) : Prop :=
  QG.severity i = "error" \/ QG.severity i = "warning".

(** The issues of one file of quality-gate.py, analysed on its own; a
    file at which the analysis ends with an exception has none. *)
Definition file_issues (fs : string -> entry)
  (ast_parse : string -> string -> QG.parsed) (f : string)
  : list QG.Issue :=
  match QG.analyze_file fs ast_parse f QG.empty_report with
  | Return r => QG.issues r
  | _ => []
  end.

(** A file at which [ast.parse] raises an exception that analyze_file
    does not catch. *)
Definition crashes (fs : string -> entry)
  (ast_parse : string -> string -> QG.parsed) (f : string) : bool :=
  match fs f with
  | File source =>
      match ast_parse source f with
      | QG.Raises _ => true
      | _ => false
      end
  | _ => false
  end.

(** A run in which no file ends the analysis with an exception. *)
Definition crash_free (fs : string -> entry)
  (ast_parse : string -> string -> QG.parsed) (files : list string)
  : Prop :=
  Forall (fun f => crashes fs ast_parse f = false) files.

(** The status that [format_report] prints for a verdict. *)
Definition status_text (v : Spec.verdict) : string :=
  match v with
  | Spec.FAILED => "FAILED"
  | Spec.PASSED_WITH_WARNINGS => "PASSED (with warnings)"
  | Spec.PASSED => "ALL CHECKS PASSED"
  end.

(** The rule and the severity of an issue of review-checklist.py. *)
Definition rc_kind (i : RC.Issue) : string * string :=
  (RC.rule i, RC.severity i).

(** The kinds of the issues of the rules on one line. *)
Definition line_kinds : list (string * string) :=
  [ ("todo-fixme", "info"); ("console-log", "warning");
    ("deep-nesting", "warning"); ("magic-number", "info");
    ("long-line", "info") ].

(** The number of the issues of one rule. *)
Definition count_rule (rule : string) (l : list RC.Issue) : nat :=
  length (List.filter (fun i => String.eqb (RC.rule i) rule) l).

(** *** Sample inputs *)

(** A function [def f(x): pass] on line 1 of a module without docstring. *)
Definition sample_function : QG.node :=
  QG.FunctionDef false "f"
    (QG.mkArguments [] [QG.mkArg "x" None] None [] None)
    [] None 1 (Some 1) None.

Definition sample_module : QG.Module_ := QG.mkModule [sample_function] None.

(** A parser that knows one source text. *)
Definition sample_parse (source filename : string) : QG.parsed :=
  if String.eqb source "def f(x): pass" then QG.Tree sample_module
  else QG.SyntaxError (Some 1) "invalid syntax".

(** A parser that raises at every source an exception that is no
    [SyntaxError]. *)
Definition raising_parse (source filename : string) : QG.parsed :=
  QG.Raises "ValueError: source code string cannot contain null bytes".

Definition lines_text (lines : list string) : string :=
  Text.join (Text.text [Text.newline]) lines.

(** A markdown document with a link to an anchor that it does not have. *)
Definition sample_document : string :=
  lines_text ["# Title"; ""; "See [there](#nowhere)."; ""].

(** A file system with one file for each script and one directory. *)
Definition sample_fs (path : string) : entry :=
  if String.eqb path "src/a.py" then File "def f(x): pass"
  else if String.eqb path "src/bad.py" then File "def f(:"
  else if String.eqb path "src" then Dir ["src/bad.py"; "src/a.py"]
  else if String.eqb path "docs/a.md" then File sample_document
  else if String.eqb path "docs" then Dir ["docs/a.md"]
  else if String.eqb path "empty" then Dir []
  else if String.eqb path "a.js" then File "console.log(1)"
  else Missing.

(** *** Import records *)

Definition record_line (x : Z * QG.group * string) : Z := fst (fst x).
Definition record_rank (x : Z * QG.group * string) : Z :=
  QG.group_order (snd (fst x)).

(** The order of the groups, on import records. *)
Definition rank_le (a b : Z * QG.group * string) : Prop :=
  record_rank a <= record_rank b.

(** The records that stand right behind a record of a higher rank. *)
Definition out_of_order (imports : list (Z * QG.group * string))
  : list (Z * QG.group * string) :=
  map snd
    (List.filter (fun p => record_rank (snd p) <? record_rank (fst p))
       (zip imports (tail imports))).

(** The issue of check_import_organization for a record. *)
Definition import_issue (filepath : string) (x : Z * QG.group * string)
  : QG.Issue :=
  QG.mkIssue filepath (record_line x) "imports"
    ("Import '" +:+ snd x +:+ "' (" +:+ QG.group_name (snd (fst x))
       +:+ ") appears after a later group; "
       +:+ "expected order: stdlib → third-party → local")
    "warning".

(** [import os], [import sys], [import requests], [from . pkg import x]
    on the lines 1 to 4. *)
Definition ordered_imports : QG.Module_ :=
  QG.mkModule
    [ QG.Import ["os"] 1; QG.Import ["sys"] 2; QG.Import ["requests"] 3;
      QG.ImportFrom (Some "pkg") 1 4 ]
    (Some "doc").

(** The same imports with [requests] before [sys]. *)
Definition swapped_imports : QG.Module_ :=
  QG.mkModule
    [ QG.Import ["os"] 1; QG.Import ["requests"] 2; QG.Import ["sys"] 3;
      QG.ImportFrom (Some "pkg") 1 4 ]
    (Some "doc").

(** A local import, then a standard one, then a third-party one. *)
Definition local_first_imports : QG.Module_ :=
  QG.mkModule
    [ QG.ImportFrom (Some "pkg.mod") 1 1; QG.Import ["os"] 2;
      QG.Import ["requests"] 3 ]
    (Some "doc").

(** *** Parsing of documents *)

(** The state in which parse_document starts. *)
Definition initial_parser : DV.parser :=
  DV.mkParser [] [] [] [] false (-1) None.

Definition not_fence (line : string) : Prop :=
  DV.is_fence (Text.strip line) = false.

(** The line of a [SyntaxError], or 0. *)
Definition error_line (lineno : option Z) : Z :=
  match lineno with
  | Some n => if n =? 0 then 0 else n
  | None => 0
  end.

(** A document with a heading and a fence that is not closed. *)
Definition unclosed_document : list string :=
  ["# Title"; "text"; "```python"; "x = 1"].

(** *** Nodes of a syntax tree *)

(** [n] is one of the nodes [ns] or lies below one of them. *)
Inductive below (n : QG.node) : list QG.node -> Prop :=
| below_here ns : In n ns -> below n ns
| below_child m ns :
    In m ns -> below n (QG.iter_child_nodes m) -> below n ns.

(** A parameter that check_type_hints reports. *)
Definition needs_hint (x : QG.arg) : bool :=
  negb (String.eqb (QG.arg_name x) "self" || String.eqb (QG.arg_name x) "cls")
  && QG.is_none (QG.annotation x).

Definition param_issue (filepath name : string) (lineno : Z) (x : QG.arg)
  : QG.Issue :=
  QG.mkIssue filepath lineno "type-hints"
    ("Parameter '" +:+ QG.arg_name x +:+ "' in '" +:+ name
       +:+ "' missing type hint")
    "error".

Definition return_issue (filepath name : string) (lineno : Z) : QG.Issue :=
  QG.mkIssue filepath lineno "type-hints"
    ("Function '" +:+ name +:+ "' missing return type annotation") "error".

Definition function_docstring_issue (filepath name : string) (lineno : Z)
  : QG.Issue :=
  QG.mkIssue filepath lineno "docstrings"
    ("Function '" +:+ name +:+ "' missing docstring") "warning".

Definition class_docstring_issue (filepath name : string) (lineno : Z)
  : QG.Issue :=
  QG.mkIssue filepath lineno "docstrings"
    ("Class '" +:+ name +:+ "' missing docstring") "warning".

(** The issues that a step of a loop over the nodes adds for one node. *)
Definition node_issues (step : QG.Report -> QG.node -> QG.Report)
  (n : QG.node) : list QG.Issue :=
  QG.issues (step QG.empty_report n).

(** A class [_Helper] without docstring, and a function [_helper] without
    docstring and annotations. *)
Definition private_class : QG.node := QG.ClassDef "_Helper" [] 3 None.

Definition private_function : QG.node :=
  QG.FunctionDef false "_helper"
    (QG.mkArguments [] [QG.mkArg "x" None] None [] None) [] None 7 (Some 8)
    None.

(** *** Groups of imports, in the words of the claim *)

(** [top] is the top-level name of the dotted name [name]: it has no dot,
    and [name] is [top], or [top] with a dot and more behind it. *)
Definition top_level (name top : string) : Prop :=
  ~ In "."%char (Text.chars top)
  /\ (name = top \/ exists rest, name = top +:+ "." +:+ rest).

(** The group of a name by the allow-list: standard when its top-level
    name is on the list, third-party otherwise. *)
Inductive allow_list_group (name : string) : QG.group -> Prop :=
| group_stdlib top :
    top_level name top -> top ∈ QG.STDLIB_TOP_LEVEL ->
    allow_list_group name QG.stdlib
| group_third_party top :
    top_level name top -> top ∉ QG.STDLIB_TOP_LEVEL ->
    allow_list_group name QG.third_party.

(** A relative import: a from-import with dots before the module name,
    or with dots alone. *)
Definition relative (n : QG.node) : bool :=
  match n with
  | QG.ImportFrom _ level _ => level >? 0
  | _ => false
  end.

(** [record_of n x]: the statement [n] gives the import record [x]. *)
Inductive record_of : QG.node -> Z * QG.group * string -> Prop :=
| record_import names lineno name g :
    In name names -> allow_list_group name g ->
    record_of (QG.Import names lineno) (lineno, g, name)
| record_relative module level lineno :
    level > 0 ->
    record_of (QG.ImportFrom (Some module) level lineno)
      (lineno, QG.local, module)
| record_absolute module level lineno g :
    level <= 0 -> allow_list_group module g ->
    record_of (QG.ImportFrom (Some module) level lineno)
      (lineno, g, module).

(** The module [from . import x] at line 1 and [import os] at line 2, and
    the module [from .pkg import x] and [import os]. *)
Definition dots_alone_module : QG.Module_ :=
  QG.mkModule [QG.ImportFrom None 1 1; QG.Import ["os"] 2] (Some "doc").
Definition dotted_name_module : QG.Module_ :=
  QG.mkModule [QG.ImportFrom (Some "pkg") 1 1; QG.Import ["os"] 2]
    (Some "doc").

(** *** Usage errors *)

(** The runs of quality-gate.py without an input: no argument, or no
    Python file at the path. *)
Definition qg_usage_error (fs : string -> entry) (argv : list string)
  : Prop :=
  match argv with
  | _ :: target :: _ => QG.collect_python_files fs target = []
  | _ => True
  end.

(** The runs of review-checklist.py without an input: no argument, or no
    file at the path. *)
Definition rc_usage_error (fs : string -> entry) (argv : list string)
  : Prop :=
  match argv with
  | _ :: filepath :: _ => fs filepath = Missing
  | _ => True
  end.

(** *** Sizes *)



(** *** Slugs *)

(** A character that [str.lower] leaves as it is. *)
Definition lowered (c : ascii) : Prop := Text.lower_char c = c.

(** The anchors of a text of 8-bit characters, as [ANCHOR_PATTERN]
    finds them. *)
Definition ascii_anchors (s : list ascii) : list (list ascii) :=
  map (fun m => Text.chars (DV.group_text 1 m))
    (Re.finditer DV.ANCHOR_PATTERN (Text.text s)).

(** A heading, a link and an issue of 8-bit texts over the code points. *)
Definition heading_chars (h : DV.Heading) : CodePoints.Heading ascii :=
  CodePoints.mkHeading (DV.h_level h) (Text.chars (DV.h_text h))
    (DV.h_line h).
Definition link_chars (l : DV.Link) : CodePoints.Link ascii :=
  CodePoints.mkLink (Text.chars (DV.link_text l)) (Text.chars (DV.href l))
    (DV.link_line l).
Definition issue_chars (i : DV.Issue) : CodePoints.Issue ascii :=
  CodePoints.mkIssue (DV.line i) (DV.severity i) (DV.category i)
    (Text.chars (DV.message i)).

(** A markdown document with a heading and a link to its slug. *)
Definition linked_document : list string :=
  ["# Getting Started: Install & Run!"; "";
   "Back to [the start](#getting-started-install-run)."].

(** *** Matches of regular expressions *)

(** [r] can only match at a character of the class [first]. *)
Definition starts_with (first : ascii -> bool) (r : Re.regex) : Prop :=
  (forall k p i cs, Re.run r k (Re.State p i [] cs) = None)
  /\ (forall k p i c t cs,
         first c = false -> Re.run r k (Re.State p i (c :: t) cs) = None).

(** The character before the position behind [pre]. *)
Definition prev_after (p : option ascii) (pre : list ascii) : option ascii :=
  match rev pre with
  | c :: _ => Some c
  | [] => p
  end.

(** The quotes of the three kinds. *)
Definition is_any_quote (c : ascii) : bool :=
  Ascii.eqb c Text.dquote || Ascii.eqb c Text.squote
  || Ascii.eqb c Text.backtick.

(** A character inside a literal with the quote [q]: not the quote, no
    backslash and no line feed. *)
Definition plain_in (q : ascii) (c : ascii) : Prop :=
  c <> q /\ c <> Text.backslash /\ c <> Text.newline.

(** The two quotes of a string literal. *)
Definition is_string_quote (c : ascii) : bool :=
  Ascii.eqb c Text.dquote || Ascii.eqb c Text.squote.

(** The body of the repetition in QUOTED: a character that is neither the
    quote of group 1 nor a backslash, or an escaped character. *)
Definition quoted_char : Re.regex :=
  Re.Alt
    (Re.Seq (Re.NotAhead (Re.Alt (Re.Backref 1) (Re.lit Text.backslash)))
       Re.dot)
    (Re.Seq (Re.lit Text.backslash) Re.dot).

(** *** Positions of a match *)

(** [st'] is [st] after some characters of the subject. *)
Definition advances (st st' : Re.state) : Prop :=
  exists taken,
    Re.rest st = taken ++ Re.rest st'
    /\ Re.pos st' = (Re.pos st + length taken)%nat.

End Notions.

Import Notions.

(** ** More of the three scripts

    What the scripts compute from the issues for their reports, and the
    notions in which the further properties are stated. *)

Module More.

(** *** review-checklist.py *)

(** The issues of check_file before they are sorted, in the order in which
    the rules put them into the report. *)
Definition unsorted_issues (content : string) : list RC.Issue :=
  let lines := Text.splitlines content in
  RC.file_length_issues lines
    ++ flat_map RC.long_function_issue (RC.find_function_spans lines)
    ++ RC.lines_issues false 1 lines
    ++ RC.empty_catch_issues content.

Definition line_le (a b : RC.Issue) : Prop := RC.line a <= RC.line b.

(** The issues of one line, in the order of the list. *)
Definition on_line (n : Z) (l : list RC.Issue) : list RC.Issue :=
  List.filter (fun i => RC.line i =? n) l.

(** A line that opens a block comment and does not close it. *)
Definition opens_comment (line : string) : Prop :=
  Text.contains "/*" line = true /\ Text.contains "*/" line = false.

(** A line without the end of a block comment. *)
Definition no_comment_end (line : string) : Prop :=
  Text.contains "*/" line = false.

(** [ReviewReport.summary]: the number of issues of each rule, counted
    into a dictionary. *)
Definition count_step (counts : gmap string Z) (issue : RC.Issue)
  : gmap string Z :=
  <[RC.rule issue := default 0 (counts !! RC.rule issue) + 1]> counts.

Definition summary (issues : list RC.Issue) : gmap string Z :=
  fold_left count_step issues ∅.

(** [counts.get(rule, 0)]. *)
Definition count_in (rule : string) (counts : gmap string Z) : Z :=
  default 0 (counts !! rule).

(** The depth of braces that a run of lines adds up to. *)
Definition depth_of (ls : list string) : Z :=
  foldr (fun l depth => RC.brace_delta l + depth) 0 ls.

(** The lines from number [a] to number [b], both counted from 1. *)
Definition lines_between (a b : Z) (ls : list string) : list string :=
  take (Z.to_nat (b - a + 1)) (drop (Z.to_nat (a - 1)) ls).

(** The sum of the counts of a summary. *)
Definition total (counts : gmap string Z) : Z :=
  map_fold (fun _ n acc => n + acc) 0 counts.

(** *** doc-structure-validator.py *)

(** The quality score that format_report_text and format_report_json
    compute from the counts of a report. *)
Definition score (r : DV.ValidationReport) : Z :=
  Z.max 0
    (100 - DV.error_count r * 10 - DV.warning_count r * 3
       - DV.info_count r).

(** The three severities of doc-structure-validator.py. *)
Definition known_severity (i : DV.Issue) : Prop :=
  DV.severity i = "error" \/ DV.severity i = "warning"
  \/ DV.severity i = "info".

(** An issue that counts in strict mode. *)
Definition error_or_warning_issue (i : DV.Issue) : Prop :=
  DV.severity i = "error" \/ DV.severity i = "warning".

(** A file system with one document, a heading without content: it has
    a warning and no error. *)
Definition warning_fs (path : string) : entry :=
  if String.eqb path "w.md" then File "# Title" else Missing.

(** A line that opens or closes a fence. *)
Definition fence (line : string) : Prop :=
  DV.is_fence (Text.strip line) = true.

(** The parser after a fence that was opened in line [i] and closed in
    line [j]. *)
Definition after_fence (p : DV.parser) (i j : Z) (opening : string)
  : DV.parser :=
  DV.mkParser (DV.headings p)
    (DV.code_blocks p
       ++ [DV.mkCodeBlock i j
             (Some (DV.fence_lang (Text.strip opening))) false])
    (DV.images p) (DV.links p) false i None.

(** The heading [b] lies more than one level below the heading [a]. *)
Definition skips_level (a b : DV.Heading) : Prop :=
  0 < DV.h_level a /\ DV.h_level a + 1 < DV.h_level b.

(** *** quality-gate.py *)

(** The nodes that count as checked functions and as checked classes. *)
Definition is_public_function (n : QG.node) : bool :=
  match n with
  | QG.FunctionDef _ name _ _ _ _ _ _ => negb (QG.is_private name)
  | _ => false
  end.

Definition is_class (n : QG.node) : bool :=
  match n with
  | QG.ClassDef _ _ _ _ => true
  | _ => false
  end.

Definition count_nodes (p : QG.node -> bool) (tree : QG.Module_) : Z :=
  Z.of_nat (length (List.filter p (QG.walk tree))).

(** A file that can be read and parsed. *)
Definition parses (fs : string -> entry)
  (ast_parse : string -> string -> QG.parsed) (f : string) : bool :=
  match fs f with
  | File source =>
      match ast_parse source f with
      | QG.Tree _ => true
      | _ => false
      end
  | _ => false
  end.

(** The two totals of format_report. *)
Definition errors (r : QG.Report) : Z :=
  Z.of_nat (length (List.filter QG.is_error (QG.issues r))).

Definition warnings (r : QG.Report) : Z :=
  Z.of_nat (length (List.filter QG.is_warning (QG.issues r))).

(** The issue of a file that cannot be read. *)
Definition unreadable_issue (f exc : string) : QG.Issue :=
  QG.mkIssue f 0 "parse" ("Cannot read file: " +:+ exc) "error".

(** A file system with a directory of two Python files, of which the
    first cannot be read. *)
Definition locked_fs (path : string) : entry :=
  if String.eqb path "pkg/a.py" then Unreadable "Permission denied"
  else if String.eqb path "pkg/b.py" then File "def f(x): pass"
  else if String.eqb path "pkg" then Dir ["pkg/a.py"; "pkg/b.py"]
  else Missing.

(** *** What a pattern matches

    The matches of a pattern as a relation between the state before and
    the state behind a match, without the order in which the matcher
    tries them. *)

(** [n] turns of a repetition, each of which takes a character. *)
Fixpoint repeats (body : Re.state -> Re.state -> Prop) (n : nat)
  (st st' : Re.state) : Prop :=
  match n with
  | O => st' = st
  | S n' =>
      exists st1,
        body st st1 /\ (Re.pos st < Re.pos st1)%nat
        /\ repeats body n' st1 st'
  end.

Fixpoint accepts (r : Re.regex) (st st' : Re.state) : Prop :=
  match r with
  | Re.Eps => st' = st
  | Re.Chr p => exists c, Re.step st = Some (c, st') /\ p c = true
  | Re.Seq r1 r2 => exists st1, accepts r1 st st1 /\ accepts r2 st1 st'
  | Re.Alt r1 r2 => accepts r1 st st' \/ accepts r2 st st'
  | Re.Star r1 => exists n, repeats (accepts r1) n st st'
  | Re.Group n r1 =>
      exists st1,
        accepts r1 st st1
        /\ st' = Re.set_cap n
                   (take (Re.pos st1 - Re.pos st) (Re.rest st)) st1
  | Re.Backref n =>
      exists v,
        Re.cap_lookup n (Re.caps st) = Some v
        /\ Re.consume v st = Some st'
  | Re.NotAhead r1 => (forall st1, ~ accepts r1 st st1) /\ st' = st
  | Re.NotBehind p =>
      match Re.prev st with
      | Some c => p c = false
      | None => True
      end /\ st' = st
  | Re.Bol multiline =>
      match Re.prev st with
      | None => True
      | Some c => multiline && Ascii.eqb c Text.newline = true
      end /\ st' = st
  | Re.Eol multiline =>
      match Re.rest st with
      | [] => True
      | c :: t =>
          Ascii.eqb c Text.newline
          && (multiline || match t with [] => true | _ => false end)
          = true
      end /\ st' = st
  | Re.WordB =>
      xorb (Re.is_word_opt (Re.prev st))
        (Re.is_word_opt (head (Re.rest st))) = true
      /\ st' = st
  end.


(** *** The names that quality-gate.py accepts *)

(** What is left of a name at [$]: nothing, or one line feed. *)
Definition at_end (l : list ascii) : Prop := l = [] \/ l = [Text.newline].


Definition all_of (p : ascii -> bool) (l : list ascii) : Prop :=
  Forall (fun c => p c = true) l.




(** *** What parse_document hands on *)

(** A heading of a document of [n] lines. *)
Definition heading_ok (n : Z) (h : DV.Heading) : Prop :=
  1 <= DV.h_level h <= 6 /\ 1 <= DV.h_line h <= n.

(** A code block of a document of [n] lines. *)
Definition block_ok (n : Z) (cb : DV.CodeBlock) : Prop :=
  1 <= DV.cb_start cb <= DV.cb_end cb /\ DV.cb_end cb <= n.

(** The state of the parser after [n] lines. *)
Definition parsed_upto (n : Z) (p : DV.parser) : Prop :=
  Forall (heading_ok n) (DV.headings p)
  /\ Sorted Z.lt (map DV.h_line (DV.headings p))
  /\ Forall (block_ok n) (DV.code_blocks p)
  /\ Forall (fun x => 1 <= DV.img_line x <= n) (DV.images p)
  /\ Forall (fun x => 1 <= DV.link_line x <= n) (DV.links p)
  /\ (DV.in_code_block p = true -> 1 <= DV.code_block_start p <= n).

(** The severity that quality-gate.py gives to the issues of a
    category. *)
Definition category_severity (category : string) : option string :=
  if bool_decide (category ∈ ["parse"; "type-hints"; "function-length"])
  then Some "error"
  else if bool_decide (category ∈ ["docstrings"; "imports"; "naming"])
  then Some "warning"
  else None.

(** An issue of the file [f], with the severity of its category. *)
Definition issue_of (f : string) (i : QG.Issue) : Prop :=
  QG.file i = f /\ category_severity (QG.category i) = Some (QG.severity i).

(** The rules of review-checklist.py that give warnings, and those that
    give infos. *)
Definition warning_rules : list string :=
  ["file-length"; "long-function"; "console-log"; "deep-nesting";
   "empty-catch"].

Definition info_rules : list string :=
  ["todo-fixme"; "magic-number"; "long-line"].

Definition rule_severity (rule : string) : option string :=
  if bool_decide (rule ∈ warning_rules) then Some "warning"
  else if bool_decide (rule ∈ info_rules) then Some "info"
  else None.





(** The step of brace_delta: the depth behind one more character. *)
Definition brace_step (depth : Z) (ch : ascii) : Z :=
  if Ascii.eqb ch "{" then depth + 1
  else if Ascii.eqb ch "}" then depth - 1
  else depth.

(** *** The numbers that review-checklist.py reports *)

(** One digit or more. *)
Definition digits (l : list ascii) : Prop :=
  l <> [] /\ all_of Text.is_digit l.

(** A text that MAGIC_NUMBER_PATTERN matches: an optional minus sign,
    then a digit from 2 to 9 with at least one more digit, or a number
    with a decimal point. *)
Definition magic_shape (t : string) : Prop :=
  exists sign body,
    Text.chars t = sign ++ body
    /\ (sign = [] \/ sign = ["-"%char])
    /\ ((exists d ds,
            body = d :: ds /\ Text.in_range 50 57 d = true /\ digits ds)
        \/ (exists a b,
               body = a ++ "."%char :: b /\ digits a /\ digits b)).

(** *** The code points below 256

    The classes of Python and [str.lower] on the code points below 256,
    for 8-bit characters read as these code points. *)

Definition latin1_is_space (c : ascii) : bool :=
  Text.is_space c || Text.in_range 133 133 c || Text.in_range 160 160 c.

Definition latin1_is_word (c : ascii) : bool :=
  Text.is_word c
  || existsb (fun r => Text.in_range (fst r) (snd r) c)
       [ (170, 170); (178, 179); (181, 181); (185, 186); (188, 190);
         (192, 214); (216, 246); (248, 255) ]%nat.

Definition latin1_lower_char (c : ascii) : ascii :=
  if Text.in_range 192 214 c || Text.in_range 216 222 c then
    ascii_of_nat (Text.code c + 32)
  else Text.lower_char c.

Definition latin1_lower (l : list ascii) : list ascii :=
  map latin1_lower_char l.

(** The heading [Café Münü] and its slug, by their code points. *)
Definition cafe_heading : list ascii :=
  Text.chars "Caf" ++ ["233"%char] ++ Text.chars " M"
    ++ ["252"; "n"; "252"]%char.
Definition cafe_slug : list ascii :=
  Text.chars "caf" ++ ["233"%char] ++ Text.chars "-m"
    ++ ["252"; "n"; "252"]%char.

End More.

Import More.

(** * Properties *)

(** ** Texts and lists of characters *)

Section TextFacts.
  Import Text.

Lemma chars_text (l : list ascii) : chars (text l) = l.
Proof. apply list_ascii_of_string_of_list_ascii. Qed.

Lemma text_chars (s : string) : text (chars s) = s.
Proof. apply string_of_list_ascii_of_string. Qed.

Lemma chars_inj s t : chars s = chars t -> s = t.
Proof. intros E. rewrite <- (text_chars s), <- (text_chars t). now f_equal. Qed.

Lemma chars_app (s t : string) : chars (s +:+ t) = chars s ++ chars t.
Proof.
  induction s as [|c s IH]; simpl; [reflexivity|].
  unfold chars in *. simpl. now rewrite IH.
Qed.

Lemma chars_length (s : string) : length (chars s) = String.length s.
Proof.
  induction s as [|c s IH]; simpl; [reflexivity|].
  unfold chars in *. simpl. now rewrite IH.
Qed.

Lemma text_app (l m : list ascii) : text (l ++ m) = text l +:+ text m.
Proof.
  rewrite <- (text_chars (text l +:+ text m)), chars_app.
  now rewrite !chars_text.
Qed.

End TextFacts.

(** ** The issues of quality-gate.py are only ever added

Every check of quality-gate.py leaves the issues that a report has and
puts its own issues behind them; these do not depend on the report. *)

Section QualityGateAppends.
  Import Text QG.

Variable ok : Issue -> Prop.

Lemma appends_id : appends ok (fun r => r).
Proof. exists []. split; [constructor|]. intros r. now rewrite app_nil_r. Qed.

Lemma appends_add file line category message severity :
  ok (mkIssue file line category message severity) ->
  appends ok (fun r => add r file line category message severity).
Proof.
  intros H. exists [mkIssue file line category message severity].
  split; [now repeat constructor | reflexivity].
Qed.

Lemma appends_comp f g :
  appends ok f -> appends ok g -> appends ok (fun r => g (f r)).
Proof.
  intros (l & Hl & Hf) (m & Hm & Hg). exists (l ++ m). split.
  - now apply Forall_app.
  - intros r. now rewrite Hg, Hf, app_assoc.
Qed.

Lemma appends_ext f g :
  (forall r, f r = g r) -> appends ok f -> appends ok g.
Proof.
  intros E (l & Hl & Hf). exists l. split; [assumption|].
  intros r. now rewrite <- E.
Qed.

Lemma appends_if (b : bool) f g :
  appends ok f -> appends ok g ->
  appends ok (fun r => if b then f r else g r).
Proof. now destruct b. Qed.

Lemma appends_bump_functions : appends ok bump_functions.
Proof. exists []. split; [constructor|]. intros r. simpl. now rewrite app_nil_r. Qed.

Lemma appends_bump_classes : appends ok bump_classes.
Proof. exists []. split; [constructor|]. intros r. simpl. now rewrite app_nil_r. Qed.

Lemma appends_bump_files : appends ok bump_files.
Proof. exists []. split; [constructor|]. intros r. simpl. now rewrite app_nil_r. Qed.

Lemma appends_fold {A} (step : Report -> A -> Report) (l : list A) :
  (forall x, appends ok (fun r => step r x)) ->
  appends ok (fun r => fold_left step l r).
Proof.
  intros H. induction l as [|x l IH]; simpl.
  - apply appends_id.
  - apply (appends_comp (fun r => step r x) (fun r => fold_left step l r));
      [apply H | apply IH].
Qed.

End QualityGateAppends.

Create HintDb appends.

#[local] Hint Resolve appends_id appends_add appends_bump_functions
  appends_bump_classes appends_bump_files : appends.

Section QualityGateSeverities.
  Import Text QG.

Let ok := error_or_warning.

Lemma ok_error f l c m : ok (mkIssue f l c m "error").
Proof. now left. Qed.

Lemma ok_warning f l c m : ok (mkIssue f l c m "warning").
Proof. now right. Qed.

Hint Resolve ok_error ok_warning : appends.

Lemma appends_check_arg fp name lineno x :
  appends ok (fun r => check_arg fp name lineno r x).
Proof.
  unfold check_arg.
  destruct (_ || _); [apply appends_id|].
  destruct (is_none _); auto with appends.
Qed.

Lemma appends_type_hints_node fp n :
  appends ok (fun r => type_hints_node fp r n).
Proof.
  destruct n; simpl; try apply appends_id.
  destruct (is_private name); [apply appends_id|].
  assert (H : appends ok
                (fun r => fold_left (check_arg fp name lineno) (args a)
                            (bump_functions r))).
  { apply (appends_comp ok bump_functions
             (fun r => fold_left (check_arg fp name lineno) (args a) r)).
    - apply appends_bump_functions.
    - apply appends_fold. intros x. apply appends_check_arg. }
  destruct (_ && _); [|exact H].
  apply (appends_comp ok _
           (fun r => add r fp lineno "type-hints" _ "error") H).
  auto with appends.
Qed.

Lemma appends_docstrings_node fp n :
  appends ok (fun r => docstrings_node fp r n).
Proof.
  destruct n; simpl; try apply appends_id.
  - destruct (is_private name); [apply appends_id|].
    destruct (no_docstring _); auto with appends.
  - destruct (no_docstring _).
    + apply (appends_comp ok bump_classes
               (fun r => add r fp lineno "docstrings" _ "warning"));
        auto with appends.
    + apply appends_bump_classes.
Qed.

Lemma appends_function_length_node fp n :
  appends ok (fun r => function_length_node fp r n).
Proof.
  destruct n; simpl; try apply appends_id.
  destruct end_lineno; [|apply appends_id].
  destruct (_ >? _); auto with appends.
Qed.

Lemma appends_check_target fp lineno t :
  appends ok (fun r => check_target fp lineno r t).
Proof.
  destruct t; simpl; [|apply appends_id].
  destruct (iskeyword id); [apply appends_id|].
  destruct (matches UPPER_SNAKE id); [apply appends_id|].
  destruct (negb _); auto with appends.
Qed.

Lemma appends_naming_node fp n :
  appends ok (fun r => naming_node fp r n).
Proof.
  destruct n; simpl; try apply appends_id.
  - destruct (negb _); auto with appends.
  - destruct (negb _); auto with appends.
  - apply appends_fold. intros x. apply appends_check_target.
Qed.

Lemma appends_scan_imports fp imports :
  forall prev, appends ok (fun r => scan_imports fp prev imports r).
Proof.
  induction imports as [|[[lineno g] name] t IH]; intros prev; simpl.
  - apply appends_id.
  - apply (appends_comp ok
             (fun r => if group_order g <? prev
                       then add r fp lineno "imports" _ "warning" else r)
             (fun r => scan_imports fp (group_order g) t r)).
    + destruct (_ <? _); auto with appends.
    + apply IH.
Qed.

Lemma appends_run_checks tree fp :
  appends ok (fun r => run_checks tree fp r).
Proof.
  unfold run_checks.
  apply (appends_comp ok _ (fun r => check_naming tree fp r)).
  apply (appends_comp ok _ (fun r => check_function_length tree fp r)).
  apply (appends_comp ok _ (fun r => check_import_organization tree fp r)).
  apply (appends_comp ok _ (fun r => check_docstrings tree fp r)).
  apply (appends_comp ok bump_files (fun r => check_type_hints tree fp r)).
  - apply appends_bump_files.
  - unfold check_type_hints. apply appends_fold.
    intros x. apply appends_type_hints_node.
  - unfold check_docstrings.
    apply (appends_comp ok
             (fun r => if no_docstring (mod_docstring tree)
                       then add r fp 1 "docstrings" _ "warning" else r)
             (fun r => fold_left (docstrings_node fp) (walk tree) r)).
    + destruct (no_docstring _); auto with appends.
    + apply appends_fold. intros x. apply appends_docstrings_node.
  - unfold check_import_organization. apply appends_scan_imports.
  - unfold check_function_length. apply appends_fold.
    intros x. apply appends_function_length_node.
  - unfold check_naming. apply appends_fold.
    intros x. apply appends_naming_node.
Qed.

Variable fs : string -> entry.
Variable ast_parse : string -> string -> parsed.

(** A file either ends the analysis with an exception, whatever the
    report, or has its issues added to the report. *)
Lemma analyze_file_outcome f :
  (crashes fs ast_parse f = true
   /\ exists exc, forall r, analyze_file fs ast_parse f r = Uncaught exc)
  \/ (crashes fs ast_parse f = false
      /\ exists g, appends ok g
                   /\ forall r, analyze_file fs ast_parse f r = Return (g r)).
Proof.
  unfold analyze_file, crashes, read_text.
  destruct (fs f) as [|source|exc|files].
  - right. split; [reflexivity|]. eexists. split; [|reflexivity].
    auto with appends.
  - destruct (ast_parse source f) as [tree|lineno msg|exc].
    + right. split; [reflexivity|].
      exists (fun r => run_checks tree f r).
      split; [apply appends_run_checks|reflexivity].
    + right. split; [reflexivity|]. eexists. split; [|reflexivity].
      auto with appends.
    + left. split; [reflexivity|]. now exists exc.
  - right. split; [reflexivity|]. eexists. split; [|reflexivity].
    auto with appends.
  - right. split; [reflexivity|]. eexists. split; [|reflexivity].
    auto with appends.
Qed.

Lemma analyze_file_issues f r r' :
  analyze_file fs ast_parse f r = Return r' ->
  issues r' = issues r ++ file_issues fs ast_parse f.
Proof.
  unfold file_issues.
  destruct (analyze_file_outcome f) as [(_ & exc & H)|(_ & g & (l & _ & Hl) & H)].
  - rewrite H. discriminate.
  - rewrite !H. intros [= <-]. now rewrite (Hl r), (Hl empty_report).
Qed.

Lemma file_issues_severities f : Forall ok (file_issues fs ast_parse f).
Proof.
  unfold file_issues.
  destruct (analyze_file_outcome f) as [(_ & exc & H)|(_ & g & (l & Fl & Hl) & H)].
  - rewrite H. constructor.
  - rewrite H. now rewrite (Hl empty_report).
Qed.

Lemma analyze_files_issues files : forall r r',
  analyze_files fs ast_parse files r = Return r' ->
  issues r'
  = issues r ++ concat (map (file_issues fs ast_parse) files).
Proof.
  induction files as [|f t IH]; intros r r'; cbn [analyze_files map concat].
  - intros [= <-]. now rewrite app_nil_r.
  - destruct (analyze_file fs ast_parse f r) as [r1| |] eqn:E;
      cbn [bind]; try discriminate.
    intros H. apply IH in H. apply analyze_file_issues in E.
    now rewrite H, E, app_assoc.
Qed.

Lemma analyze_all_issues files r :
  analyze_all fs ast_parse files = Return r ->
  issues r = concat (map (file_issues fs ast_parse) files).
Proof. intros H. now apply analyze_files_issues in H. Qed.

Lemma analyze_all_severities files r :
  analyze_all fs ast_parse files = Return r -> Forall ok (issues r).
Proof.
  intros H. rewrite (analyze_all_issues files r H).
  clear H. induction files as [|f t IH]; simpl; [constructor|].
  apply Forall_app. split; [apply file_issues_severities | apply IH].
Qed.

(** The loop goes through all files exactly when none of them ends the
    analysis with an exception. *)
Lemma analyze_files_returns files : forall r,
  crash_free fs ast_parse files ->
  exists r', analyze_files fs ast_parse files r = Return r'.
Proof.
  induction files as [|f t IH]; intros r F; cbn [analyze_files].
  - now exists r.
  - inversion F as [|? ? Hf Ft]; subst.
    destruct (analyze_file_outcome f) as [(C & _)|(_ & g & _ & H)];
      [congruence|].
    rewrite H. cbn [bind]. now apply IH.
Qed.

Lemma analyze_all_returns files :
  crash_free fs ast_parse files ->
  exists r, analyze_all fs ast_parse files = Return r.
Proof. apply analyze_files_returns. Qed.

Lemma analyze_files_crash_free files : forall r r',
  analyze_files fs ast_parse files r = Return r' ->
  crash_free fs ast_parse files.
Proof.
  induction files as [|f t IH]; intros r r'; cbn [analyze_files];
    [constructor|].
  destruct (analyze_file_outcome f) as [(_ & exc & H)|(C & g & _ & H)];
    rewrite H; cbn [bind]; [discriminate|].
  intros E. constructor; [exact C|now apply IH in E].
Qed.

Lemma analyze_files_never_exits files : forall r code,
  analyze_files fs ast_parse files r <> Exit code.
Proof.
  induction files as [|f t IH]; intros r code; cbn [analyze_files];
    [discriminate|].
  destruct (analyze_file_outcome f) as [(_ & exc & H)|(C & g & _ & H)];
    rewrite H; cbn [bind]; [discriminate|apply IH].
Qed.

End QualityGateSeverities.

(** ** The issues of review-checklist.py *)

Section ReviewChecklistIssues.
Import Text RC.

Lemma insert_by_line_perm x l : Permutation (insert_by_line x l) (x :: l).
Proof.
  induction l as [|y t IH]; simpl; [reflexivity|].
  destruct (line x <=? line y); [reflexivity|].
  rewrite IH. apply perm_swap.
Qed.

Lemma sort_by_line_perm l : Permutation (sort_by_line l) l.
Proof.
  induction l as [|x t IH]; simpl; [reflexivity|].
  rewrite insert_by_line_perm. now constructor.
Qed.

Lemma Forall_flat_map {A B} (P : B -> Prop) (f : A -> list B) (l : list A) :
  (forall x, Forall P (f x)) -> Forall P (flat_map f l).
Proof.
  intros H. induction l as [|x t IH]; simpl; [constructor|].
  apply Forall_app. split; [apply H | apply IH].
Qed.

Lemma Forall_map_const {A B} (P : B -> Prop) (f : A -> B) (l : list A) :
  (forall x, P (f x)) -> Forall P (map f l).
Proof.
  intros H. induction l as [|x t IH]; simpl; constructor; auto.
Qed.

Lemma line_issues_kinds i raw_line :
  Forall (fun x => In (rc_kind x) line_kinds) (line_issues i raw_line).
Proof.
  assert (one : forall x, In (rc_kind x) line_kinds ->
                          Forall (fun x => In (rc_kind x) line_kinds) [x]).
  { intros x Hx. constructor; [exact Hx | constructor]. }
  unfold line_issues.
  repeat (apply Forall_app; split).
  - apply Forall_map_const. intros tag. cbn. auto 10.
  - unfold console_log_issues.
    destruct (Re.is_some _); [apply one; cbn; auto 10 | constructor].
  - unfold deep_nesting_issues.
    destruct (_ >? _); [apply one; cbn; auto 10 | constructor].
  - apply Forall_flat_map. intros m. cbv zeta.
    destruct (Re.is_some (Re.search SAFE_NUMBER_CONTEXTS _)); [constructor|].
    destruct (Re.is_some _); [constructor | apply one; cbn; auto 10].
  - unfold long_line_issues.
    destruct (_ >? _); [apply one; cbn; auto 10 | constructor].
Qed.

Lemma lines_issues_kinds lines :
  forall b i, Forall (fun x => In (rc_kind x) line_kinds)
                (lines_issues b i lines).
Proof.
  induction lines as [|l t IH]; intros b i; simpl; [constructor|].
  destruct (_ && _); [apply IH|].
  destruct b; [apply IH|].
  apply Forall_app. split; [apply line_issues_kinds | apply IH].
Qed.

Lemma file_length_kinds lines :
  Forall (fun x => rc_kind x = ("file-length", "warning"))
    (file_length_issues lines).
Proof.
  unfold file_length_issues. destruct (_ >? _); repeat constructor.
Qed.

Lemma long_function_kinds f :
  Forall (fun x => rc_kind x = ("long-function", "warning"))
    (long_function_issue f).
Proof.
  destruct f as [[name start] end_]. simpl.
  destruct (_ >? _); repeat constructor.
Qed.

Lemma empty_catch_kinds content :
  Forall (fun x => rc_kind x = ("empty-catch", "warning"))
    (empty_catch_issues content).
Proof. apply Forall_map_const. reflexivity. Qed.

(** No issue of review-checklist.py is an error. *)
Lemma check_content_no_error filepath content :
  ~ In "error" (map severity (issues (check_content filepath content))).
Proof.
  intros H. apply in_map_iff in H as (x & Hs & Hx).
  simpl in Hx.
  apply (Permutation_in _ (sort_by_line_perm _)) in Hx.
  assert (K : forall y, In (rc_kind y) line_kinds -> severity y <> "error").
  { intros y Hy. simpl in Hy.
    repeat (destruct Hy as [Hy|Hy];
            [injection Hy as _ Hy; rewrite <- Hy; discriminate|]).
    destruct Hy. }
  assert (E : forall y r, rc_kind y = (r, "warning") -> severity y <> "error").
  { intros y r Hy. injection Hy as _ Hy. rewrite Hy. discriminate. }
  repeat (apply in_app_or in Hx as [Hx|Hx]).
  - pose proof (file_length_kinds (splitlines content)) as F.
    rewrite List.Forall_forall in F. apply (E x _ (F x Hx)); assumption.
  - pose proof (Forall_flat_map _ long_function_issue
                  (find_function_spans (splitlines content))
                  long_function_kinds) as F.
    rewrite List.Forall_forall in F. apply (E x _ (F x Hx)); assumption.
  - pose proof (lines_issues_kinds (splitlines content) false 1) as F.
    rewrite List.Forall_forall in F. apply (K x (F x Hx)); assumption.
  - pose proof (empty_catch_kinds content) as F.
    rewrite List.Forall_forall in F. apply (E x _ (F x Hx)); assumption.
Qed.

End ReviewChecklistIssues.

(** ** C1: verdicts and exit codes *)

Section Verdicts.
Import Text.

Lemma existsb_severity {A} (sev : A -> string) (s : string) (l : list A) :
  existsb (String.eqb s) (map sev l)
  = existsb (fun i => String.eqb (sev i) s) l.
Proof.
  induction l as [|x l IH]; simpl; [reflexivity|].
  now rewrite IH, String.eqb_sym.
Qed.

Lemma existsb_eqb_In (s : string) (l : list string) :
  existsb (String.eqb s) l = true <-> In s l.
Proof.
  rewrite existsb_exists. split.
  - intros (x & Hx & E). apply String.eqb_eq in E. now subst.
  - intros H. exists s. split; [assumption | apply String.eqb_refl].
Qed.

Lemma failed_iff (l : list string) :
  Spec.verdict_of l = Spec.FAILED <-> In "error" l.
Proof.
  rewrite <- existsb_eqb_In. unfold Spec.verdict_of.
  destruct (existsb (String.eqb "error") l).
  - tauto.
  - destruct (existsb _ l); split; discriminate.
Qed.

Lemma with_warnings_iff (l : list string) :
  ~ In "error" l ->
  (Spec.verdict_of l = Spec.PASSED_WITH_WARNINGS <-> In "warning" l).
Proof.
  intros H. rewrite <- existsb_eqb_In in H. rewrite <- existsb_eqb_In.
  unfold Spec.verdict_of.
  destruct (existsb (String.eqb "error") l); [now destruct H|].
  destruct (existsb _ l); split; (discriminate || reflexivity).
Qed.

Lemma count_pos {A} (p : A -> bool) (l : list A) :
  (Z.of_nat (length (List.filter p l)) >? 0) = existsb p l.
Proof.
  induction l as [|x l IH]; simpl; [reflexivity|].
  destruct (p x); simpl; [|exact IH].
  apply Z.gtb_lt. lia.
Qed.

Lemma sum_nonneg (l : list Z) :
  Forall (fun z => 0 <= z) l -> 0 <= DV.sum_Z l.
Proof. induction 1; simpl; lia. Qed.

Lemma sum_pos (l : list Z) :
  Forall (fun z => 0 <= z) l ->
  (DV.sum_Z l >? 0) = existsb (fun z => z >? 0) l.
Proof.
  induction 1 as [|z l Hz Hl IH]; simpl; [reflexivity|].
  pose proof (sum_nonneg l Hl).
  destruct (Z.gtb_spec z 0); simpl.
  - apply Z.gtb_lt. lia.
  - rewrite <- IH. f_equal. lia.
Qed.

Lemma report_status_verdict (r : QG.Report) :
  Forall error_or_warning (QG.issues r) ->
  QG.report_status r
  = status_text (Spec.verdict_of (map QG.severity (QG.issues r))).
Proof.
  unfold QG.report_status, QG.passed, Spec.verdict_of.
  rewrite !existsb_severity. fold QG.is_error. fold QG.is_warning.
  destruct (QG.issues r) as [|i l]; [reflexivity|]. intros H.
  destruct (existsb QG.is_error (i :: l)) eqn:E; [reflexivity|].
  simpl in E. apply orb_false_elim in E as [Ei _].
  inversion H as [|? ? [Hi|Hi] _]; subst.
  - unfold QG.is_error in Ei. rewrite Hi in Ei. discriminate.
  - simpl. unfold QG.is_warning at 1. now rewrite Hi.
Qed.

Lemma passed_false_iff fs ast_parse files r :
  QG.analyze_all fs ast_parse files = Return r ->
  (QG.passed r = false
   <-> exists f, In f files
        /\ Spec.verdict_of (map QG.severity (file_issues fs ast_parse f))
           = Spec.FAILED).
Proof.
  intros Hr. unfold QG.passed.
  rewrite negb_false_iff, (analyze_all_issues fs ast_parse files r Hr).
  rewrite existsb_exists. split.
  - intros (i & Hi & Ei). apply in_concat in Hi as (l & Hl & Hil).
    apply in_map_iff in Hl as (f & <- & Hf). exists f. split; [assumption|].
    apply failed_iff. apply String.eqb_eq in Ei. rewrite <- Ei.
    now apply in_map.
  - intros (f & Hf & V). apply failed_iff in V.
    apply in_map_iff in V as (i & Ei & Hi). exists i. split.
    + apply in_concat. exists (file_issues fs ast_parse f).
      split; [now apply in_map | assumption].
    + unfold QG.is_error. rewrite Ei. reflexivity.
Qed.

(** A file that ends the analysis with an exception ends the loop with
    an exception. *)
Lemma analyze_files_crashes fs ast_parse f files : forall r,
  In f files -> crashes fs ast_parse f = true ->
  exists exc, QG.analyze_files fs ast_parse files r = Uncaught exc.
Proof.
  induction files as [|g t IH]; intros r Hf C; [destruct Hf|].
  cbn [QG.analyze_files].
  destruct (analyze_file_outcome fs ast_parse g)
    as [(_ & exc & H)|(Cg & h & _ & H)]; rewrite H; cbn [bind].
  - now exists exc.
  - destruct Hf as [->|Hf]; [congruence|]. now apply IH.
Qed.

Lemma error_count_pos (r : DV.ValidationReport) :
  (DV.error_count r >? 0) = true
  <-> Spec.verdict_of (map DV.severity (DV.issues r)) = Spec.FAILED.
Proof.
  unfold DV.error_count, DV.count_severity.
  rewrite count_pos, failed_iff, <- existsb_eqb_In, existsb_severity.
  reflexivity.
Qed.

Lemma total_errors_pos (reports : list DV.ValidationReport) :
  (DV.total_errors reports >? 0) = true
  <-> exists r, In r reports
       /\ Spec.verdict_of (map DV.severity (DV.issues r)) = Spec.FAILED.
Proof.
  unfold DV.total_errors. rewrite sum_pos.
  - rewrite existsb_exists. split.
    + intros (z & Hz & E). apply in_map_iff in Hz as (r & <- & Hr).
      exists r. split; [assumption | now apply error_count_pos].
    + intros (r & Hr & V). exists (DV.error_count r).
      split; [now apply in_map | now apply error_count_pos].
  - apply Forall_map_const. intros r.
    unfold DV.error_count, DV.count_severity. lia.
Qed.

End Verdicts.

(** An exception of [ast.parse] that analyze_file does not catch ends the
    run of quality-gate.py: there is no report, and the exit status is that
    of the exception. *)
Lemma uncaught_exception_ends_the_run :
  forall (fs : string -> entry) (ast_parse : string -> string -> QG.parsed)
         (prog target : string) (rest : list string) (f : string),
    In f (QG.collect_python_files fs target) ->
    crashes fs ast_parse f = true ->
    exists exc,
      QG.main fs ast_parse (prog :: target :: rest) = Uncaught exc.
Proof.
  intros fs ast_parse prog target rest f Hf C. unfold QG.main.
  destruct (analyze_files_crashes fs ast_parse f _ QG.empty_report Hf C)
    as [exc H].
  exists exc.
  destruct (QG.collect_python_files fs target) as [|g t] eqn:E;
    [destruct Hf|].
  unfold QG.analyze_all. now rewrite H.
Qed.

Example null_byte_ends_the_run :
  QG.main sample_fs raising_parse ["quality-gate.py"; "src"]
  = Uncaught "ValueError: source code string cannot contain null bytes"
  /\ exit_status (QG.main sample_fs raising_parse ["quality-gate.py"; "src"])
     = 1.
Proof. split; reflexivity. Qed.

(** C1, as amended. For a run of quality-gate.py in which [ast.parse]
    raises no exception that analyze_file does not catch, the run comes to
    its report, the status that is printed is the verdict of the issues
    (FAILED with an error, PASSED with warnings without an error but with
    a warning, PASSED without issues) and the exit status is not zero
    exactly when some analysed file has the verdict FAILED. For
    doc-structure-validator.py without [--fail-on-warnings], a run that
    validates its documents has an exit status that is not zero exactly
    when some validated document has the verdict FAILED; review-checklist.py
    never has the verdict FAILED, and its exit status is not zero exactly
    when the verdict is PASSED_WITH_WARNINGS. *)
Theorem C1_verdicts_and_exit_status :
  forall (fs : string -> entry) (ast_parse : string -> string -> QG.parsed),
    (forall files,
        crash_free fs ast_parse files ->
        exists r,
          QG.analyze_all fs ast_parse files = Return r
          /\ QG.report_status r
             = status_text (Spec.verdict_of (map QG.severity (QG.issues r))))
    /\ (forall prog target rest,
          QG.collect_python_files fs target <> [] ->
          crash_free fs ast_parse (QG.collect_python_files fs target) ->
          (exit_status (QG.main fs ast_parse (prog :: target :: rest)) <> 0
           <-> exists f,
               In f (QG.collect_python_files fs target)
               /\ Spec.verdict_of
                    (map QG.severity (file_issues fs ast_parse f))
                  = Spec.FAILED))
    /\ (forall args files reports,
          DV.fail_on_warnings args = false ->
          DV.targets fs args = Return files ->
          DV.validate_all fs files = Return reports ->
          (exit_status (DV.main fs args) <> 0
           <-> exists r,
               In r reports
               /\ Spec.verdict_of (map DV.severity (DV.issues r))
                  = Spec.FAILED))
    /\ (forall prog filepath rest content,
          fs filepath = File content ->
          let severities :=
            map RC.severity (RC.issues (RC.check_content filepath content)) in
          Spec.verdict_of severities <> Spec.FAILED
          /\ (exit_status (RC.main fs (prog :: filepath :: rest)) <> 0
              <-> Spec.verdict_of severities = Spec.PASSED_WITH_WARNINGS)).
Proof.
  intros fs ast_parse. split; [|split; [|split]].
  - intros files F.
    destruct (analyze_all_returns fs ast_parse files F) as [r Hr].
    exists r. split; [exact Hr|].
    apply report_status_verdict.
    now apply (analyze_all_severities fs ast_parse files).
  - intros prog target rest Hfiles F. unfold QG.main.
    destruct (analyze_all_returns fs ast_parse _ F) as [r Hr].
    rewrite <- (passed_false_iff fs ast_parse _ r Hr).
    destruct (QG.collect_python_files fs target) as [|f t] eqn:E;
      [congruence|].
    rewrite Hr. cbn [bind].
    destruct (QG.passed r); simpl; split; congruence.
  - intros args files reports Hstrict Htargets Hall.
    unfold DV.main. rewrite Htargets. simpl. rewrite Hall. simpl.
    rewrite Hstrict. simpl. rewrite <- total_errors_pos.
    destruct (DV.total_errors reports >? 0); simpl; split; congruence.
  - intros prog filepath rest content Hfile severities.
    assert (N : ~ In "error" severities) by apply check_content_no_error.
    split; [now rewrite failed_iff|].
    rewrite with_warnings_iff by exact N.
    unfold RC.main, RC.check_file. rewrite Hfile. simpl.
    unfold severities.
    rewrite <- existsb_eqb_In, existsb_severity.
    unfold RC.warning_count. rewrite count_pos.
    destruct (existsb _ _); simpl; split; congruence.
Qed.

Lemma C1_verdicts_and_exit_status_witness :
  let args := DV.mkArgs "docs/a.md" false false false in
  let reports := [DV.validate_content "docs/a.md" sample_document] in
  let severities :=
    map RC.severity (RC.issues (RC.check_content "a.js" "console.log(1)")) in
  let files := QG.collect_python_files sample_fs "src" in
  crash_free sample_fs sample_parse files
  /\ (exists r,
         QG.analyze_all sample_fs sample_parse files = Return r
         /\ QG.report_status r
            = status_text (Spec.verdict_of (map QG.severity (QG.issues r))))
  /\ files <> []
  /\ (exit_status (QG.main sample_fs sample_parse ["quality-gate.py"; "src"])
      <> 0
      <-> exists f,
          In f files
          /\ Spec.verdict_of
               (map QG.severity (file_issues sample_fs sample_parse f))
             = Spec.FAILED)
  /\ DV.fail_on_warnings args = false
  /\ DV.targets sample_fs args = Return ["docs/a.md"]
  /\ DV.validate_all sample_fs ["docs/a.md"] = Return reports
  /\ (exit_status (DV.main sample_fs args) <> 0
      <-> exists r,
          In r reports
          /\ Spec.verdict_of (map DV.severity (DV.issues r)) = Spec.FAILED)
  /\ sample_fs "a.js" = File "console.log(1)"
  /\ Spec.verdict_of severities <> Spec.FAILED
  /\ (exit_status (RC.main sample_fs ["review-checklist.py"; "a.js"]) <> 0
      <-> Spec.verdict_of severities = Spec.PASSED_WITH_WARNINGS).
Proof.
  intros args reports severities files.
  destruct (C1_verdicts_and_exit_status sample_fs sample_parse)
    as (Hst & Hqg & Hdv & Hrc).
  assert (Hfree : crash_free sample_fs sample_parse files)
    by (repeat constructor).
  assert (Hfiles : files <> []) by (vm_compute; discriminate).
  assert (Htargets : DV.targets sample_fs args = Return ["docs/a.md"])
    by reflexivity.
  assert (Hall : DV.validate_all sample_fs ["docs/a.md"] = Return reports)
    by reflexivity.
  assert (Hfile : sample_fs "a.js" = File "console.log(1)") by reflexivity.
  split; [exact Hfree|].
  split; [exact (Hst files Hfree)|].
  split; [exact Hfiles|].
  split; [exact (Hqg "quality-gate.py" "src" [] Hfiles Hfree)|].
  split; [reflexivity|].
  split; [exact Htargets|].
  split; [exact Hall|].
  split; [exact (Hdv args ["docs/a.md"] reports eq_refl Htargets Hall)|].
  split; [exact Hfile|].
  exact (Hrc "review-checklist.py" "a.js" [] "console.log(1)" Hfile).
Defined.

(** C1, as the claim states it, fails for review-checklist.py: a file whose
    only issue is a warning has the verdict PASSED_WITH_WARNINGS, not
    FAILED, and the exit status is 1. *)
Lemma C1_review_checklist_exits_on_warnings :
  Spec.verdict_of
    (map RC.severity (RC.issues (RC.check_content "a.js" "console.log(1)")))
  = Spec.PASSED_WITH_WARNINGS
  /\ exit_status (RC.main sample_fs ["review-checklist.py"; "a.js"]) = 1.
Proof. split; vm_compute; reflexivity. Qed.

(** ** C2: the order of the imports *)

Section ImportOrder.
Import QG.

Lemma out_of_order_cons a b t :
  out_of_order (a :: b :: t)
  = (if record_rank b <? record_rank a then [b] else [])
    ++ out_of_order (b :: t).
Proof.
  unfold out_of_order. simpl.
  destruct (record_rank b <? record_rank a); reflexivity.
Qed.

Lemma scan_imports_from fp t :
  forall a r,
    issues (scan_imports fp (record_rank a) t r)
    = issues r ++ map (import_issue fp) (out_of_order (a :: t)).
Proof.
  induction t as [|b t IH]; intros a r.
  - simpl. now rewrite app_nil_r.
  - rewrite out_of_order_cons. destruct b as [[lineno g] name].
    cbn [scan_imports].
    change (group_order g) with (record_rank (lineno, g, name)).
    rewrite (IH (lineno, g, name)).
    destruct (record_rank (lineno, g, name) <? record_rank a); simpl.
    + now rewrite <- app_assoc.
    + reflexivity.
Qed.

Lemma scan_imports_issues fp imports r :
  issues (scan_imports fp (-1) imports r)
  = issues r ++ map (import_issue fp) (out_of_order imports).
Proof.
  destruct imports as [|[[lineno g] name] t].
  - simpl. now rewrite app_nil_r.
  - cbn [scan_imports].
    replace (group_order g <? -1) with false by (now destruct g).
    apply (scan_imports_from fp t (lineno, g, name)).
Qed.

Lemma out_of_order_sorted l : Sorted rank_le l -> out_of_order l = [].
Proof.
  induction 1 as [|a l Hl IH Ha]; [reflexivity|].
  destruct Ha as [|b l Hab]; [reflexivity|].
  rewrite out_of_order_cons, IH.
  unfold rank_le in Hab.
  destruct (Z.ltb_spec (record_rank b) (record_rank a)); [lia|reflexivity].
Qed.

Lemma out_of_order_app l1 a l2 :
  out_of_order (l1 ++ a :: l2)
  = out_of_order (l1 ++ [a]) ++ out_of_order (a :: l2).
Proof.
  induction l1 as [|x l1 IH]; [reflexivity|].
  destruct l1 as [|y l1].
  - simpl app. rewrite (out_of_order_cons x a l2), (out_of_order_cons x a []).
    now rewrite <- app_assoc.
  - change ((x :: y :: l1) ++ a :: l2) with (x :: y :: (l1 ++ a :: l2)).
    change ((x :: y :: l1) ++ [a]) with (x :: y :: (l1 ++ [a])).
    rewrite !out_of_order_cons, <- app_assoc. f_equal. apply IH.
Qed.

End ImportOrder.

(** C2, as amended. check_import_organization adds an issue exactly for
    each import record whose rank is lower than the rank of the record
    right before it, at the line of that record; imports in the order of
    the groups give no issue; and when one import of a higher rank stands
    right before an import of a lower rank in imports that are otherwise
    in order, there is exactly one issue, at the line of the import of the
    lower rank. *)
Theorem C2_import_order_compares_with_previous :
  forall (tree : QG.Module_) (fp : string) (r : QG.Report),
    let imports := QG.import_records tree in
    let result := QG.issues (QG.check_import_organization tree fp r) in
    result = QG.issues r ++ map (import_issue fp) (out_of_order imports)
    /\ (Sorted rank_le imports -> result = QG.issues r)
    /\ (forall pre a b post,
          imports = pre ++ a :: b :: post ->
          Sorted rank_le (pre ++ [a]) ->
          record_rank b < record_rank a ->
          Sorted rank_le (b :: post) ->
          result = QG.issues r ++ [import_issue fp b]).
Proof.
  intros tree fp r imports result.
  assert (E : result
              = QG.issues r ++ map (import_issue fp) (out_of_order imports))
    by apply scan_imports_issues.
  split; [exact E|]. split.
  - intros S. rewrite E, (out_of_order_sorted _ S). apply app_nil_r.
  - intros pre a b post Hi Spre Hlt Spost.
    rewrite E, Hi, out_of_order_app, out_of_order_cons.
    rewrite (out_of_order_sorted _ Spre), (out_of_order_sorted _ Spost).
    destruct (Z.ltb_spec (record_rank b) (record_rank a)); [|lia].
    reflexivity.
Qed.

Lemma C2_import_order_compares_with_previous_witness :
  let a := (2, QG.third_party, "requests") in
  let b := (3, QG.stdlib, "sys") in
  let pre := [(1, QG.stdlib, "os")] in
  let post := [(4, QG.local, "pkg")] in
  Sorted rank_le (QG.import_records ordered_imports)
  /\ QG.issues
       (QG.check_import_organization ordered_imports "m.py" QG.empty_report)
     = []
  /\ QG.import_records swapped_imports = pre ++ a :: b :: post
  /\ Sorted rank_le (pre ++ [a])
  /\ record_rank b < record_rank a
  /\ Sorted rank_le (b :: post)
  /\ QG.issues
       (QG.check_import_organization swapped_imports "m.py" QG.empty_report)
     = [import_issue "m.py" b].
Proof.
  intros a b pre post.
  assert (S1 : Sorted rank_le (QG.import_records ordered_imports)).
  { vm_compute. repeat constructor; unfold rank_le; vm_compute; discriminate. }
  assert (E : QG.import_records swapped_imports = pre ++ a :: b :: post)
    by (vm_compute; reflexivity).
  assert (S2 : Sorted rank_le (pre ++ [a])).
  { repeat constructor; unfold rank_le; vm_compute; discriminate. }
  assert (L : record_rank b < record_rank a) by (vm_compute; reflexivity).
  assert (S3 : Sorted rank_le (b :: post)).
  { repeat constructor; unfold rank_le; vm_compute; discriminate. }
  destruct (C2_import_order_compares_with_previous ordered_imports "m.py"
              QG.empty_report) as (_ & H1 & _).
  destruct (C2_import_order_compares_with_previous swapped_imports "m.py"
              QG.empty_report) as (_ & _ & H2).
  split; [exact S1|]. split; [exact (H1 S1)|].
  split; [exact E|]. split; [exact S2|]. split; [exact L|].
  split; [exact S3|]. exact (H2 pre a b post E S2 L S3).
Defined.

(** C2, as the claim states it, fails: after a local import, a standard
    import and then a third-party import are both below the highest rank
    seen, but only the standard import, which is below the import right
    before it, gets an issue. *)
Lemma C2_highest_rank_seen_is_not_compared :
  map QG.line
    (QG.issues
       (QG.check_import_organization local_first_imports "m.py"
          QG.empty_report))
  = [2]
  /\ Spec.import_flags (-1) (QG.import_records local_first_imports) = [2; 3].
Proof. split; vm_compute; reflexivity. Qed.

Lemma Forall_flat_map_in {A B} (P : B -> Prop) (f : A -> list B)
  (l : list A) :
  (forall x, In x l -> Forall P (f x)) -> Forall P (flat_map f l).
Proof.
  intros H. induction l as [|x t IH]; simpl; [constructor|].
  apply Forall_app. split; [apply H; now left|].
  apply IH. intros y Hy. apply H. now right.
Qed.
(** ** C3: artifacts that do not parse *)

Section Fences.
Import Text DV.

Lemma parse_lines_app a : forall p i b,
  parse_lines p i (a ++ b)
  = parse_lines (parse_lines p i a) (i + Z.of_nat (length a)) b.
Proof.
  induction a as [|l a IH]; intros p i b; simpl.
  - now rewrite Z.add_0_r.
  - rewrite IH. f_equal. lia.
Qed.

Lemma parse_lines_inside post : forall p i,
  in_code_block p = true -> Forall not_fence post ->
  parse_lines p i post = p.
Proof.
  induction post as [|l t IH]; intros p i Hin Hpost; [reflexivity|].
  inversion Hpost as [|? ? Hl Ht]; subst. simpl.
  unfold parse_line. unfold not_fence in Hl. rewrite Hl, Hin.
  now apply IH.
Qed.

(** The blocks that the loop of parse_document collects are closed. *)
Lemma parse_lines_closed lines : forall p i,
  Forall (fun cb => cb_unclosed cb = false) (code_blocks p) ->
  Forall (fun cb => cb_unclosed cb = false)
    (code_blocks (parse_lines p i lines)).
Proof.
  induction lines as [|l t IH]; intros p i H; [exact H|].
  simpl. apply IH. unfold parse_line.
  destruct (is_fence _); [|destruct (in_code_block p); exact H].
  destruct (negb _); simpl; [exact H|].
  apply Forall_app. split; [exact H | now repeat constructor].
Qed.

Lemma closed_blocks_no_error cbs :
  Forall (fun cb => cb_unclosed cb = false) cbs ->
  Forall (fun i => severity i = "warning") (validate_code_blocks cbs).
Proof.
  intros H. apply Forall_flat_map_in. intros cb Hcb.
  rewrite List.Forall_forall in H. unfold code_block_issue.
  rewrite (H cb Hcb).
  destruct (cb_lang cb) as [[|c s]|]; now repeat constructor.
Qed.

End Fences.
(** C3, as amended. In quality-gate.py a syntax error adds exactly one
    error issue of the category [parse], with the line of the error (0
    when it has none) and its message, and nothing else happens for that
    file: no rule runs and no counter changes, while the files after it are
    still analysed (the run comes to its report when no other file ends
    the analysis with an exception that analyze_file does not catch). In
    doc-structure-validator.py a fence that is never closed is no parse
    failure: what was parsed before the fence is kept, the fence becomes
    an unclosed block from its own line to the last line, and
    validate_code_blocks gives exactly one error for it, of the category
    [code-block], at the line of the fence. *)
Theorem C3_parse_failures :
  (forall (fs : string -> entry) (ast_parse : string -> string -> QG.parsed)
          (before after : list string) (f source : string)
          (lineno : option Z) (msg : string) (r : QG.Report),
      fs f = File source ->
      ast_parse source f = QG.SyntaxError lineno msg ->
      let parse_issue :=
        QG.mkIssue f (error_line lineno) "parse" ("Syntax error: " +:+ msg)
          "error" in
      QG.analyze_file fs ast_parse f r
      = Return
          (QG.mkReport (QG.issues r ++ [parse_issue]) (QG.files_checked r)
             (QG.functions_checked r) (QG.classes_checked r))
      /\ (crash_free fs ast_parse (before ++ after) ->
          exists r',
            QG.analyze_all fs ast_parse (before ++ f :: after) = Return r'
            /\ QG.issues r'
               = concat (map (file_issues fs ast_parse) before)
                 ++ [parse_issue]
                 ++ concat (map (file_issues fs ast_parse) after)))
  /\ (forall (pre : list string) (fence : string) (post : list string),
        let p := DV.parse_lines initial_parser 1 pre in
        let lines := pre ++ fence :: post in
        let opening := 1 + Z.of_nat (length pre) in
        let block :=
          DV.mkCodeBlock opening (Z.of_nat (length lines))
            (Some (DV.fence_lang (Text.strip fence))) true in
        DV.in_code_block p = false ->
        DV.is_fence (Text.strip fence) = true ->
        Forall not_fence post ->
        DV.parse_document lines
        = (DV.headings p, DV.code_blocks p ++ [block], DV.images p,
           DV.links p)
        /\ DV.validate_code_blocks (DV.code_blocks p ++ [block])
           = DV.validate_code_blocks (DV.code_blocks p)
             ++ [ DV.mkIssue opening "error" "code-block"
                    "Unclosed code block (missing closing ```)." ]
        /\ Forall (fun i => DV.severity i = "warning")
             (DV.validate_code_blocks (DV.code_blocks p))).
Proof.
  split.
  - intros fs ast_parse before after f source lineno msg r Hfile Hparse
      parse_issue.
    assert (E : forall r0,
               QG.analyze_file fs ast_parse f r0
               = Return
                   (QG.mkReport (QG.issues r0 ++ [parse_issue])
                      (QG.files_checked r0) (QG.functions_checked r0)
                      (QG.classes_checked r0))).
    { intros r0. unfold QG.analyze_file, QG.read_text.
      rewrite Hfile, Hparse. reflexivity. }
    split; [apply E|]. intros F.
    assert (F' : crash_free fs ast_parse (before ++ f :: after)).
    { unfold crash_free in *. apply Forall_app in F as [Fb Fa].
      apply Forall_app. split; [exact Fb|]. constructor; [|exact Fa].
      unfold crashes. now rewrite Hfile, Hparse. }
    destruct (analyze_all_returns fs ast_parse _ F') as [r' Hr].
    exists r'. split; [exact Hr|].
    rewrite (analyze_all_issues fs ast_parse _ r' Hr), map_app, concat_app.
    simpl. unfold file_issues at 2. now rewrite E.
  - intros pre fence post p lines opening block Hout Hfence Hpost.
    assert (P : DV.parse_lines initial_parser 1 lines
                = DV.mkParser (DV.headings p) (DV.code_blocks p)
                    (DV.images p) (DV.links p) true opening
                    (Some (DV.fence_lang (Text.strip fence)))).
    { unfold lines. rewrite parse_lines_app. fold p.
      cbn [DV.parse_lines].
      assert (L : DV.parse_line p (1 + Z.of_nat (length pre)) fence
                  = DV.mkParser (DV.headings p) (DV.code_blocks p)
                      (DV.images p) (DV.links p) true opening
                      (Some (DV.fence_lang (Text.strip fence)))).
      { unfold DV.parse_line. rewrite Hfence, Hout. reflexivity. }
      rewrite L. apply parse_lines_inside; [reflexivity | exact Hpost]. }
    split; [|split].
    + unfold DV.parse_document. fold initial_parser. rewrite P. reflexivity.
    + unfold DV.validate_code_blocks. rewrite flat_map_app. reflexivity.
    + apply closed_blocks_no_error. apply parse_lines_closed. constructor.
Qed.

Lemma C3_parse_failures_witness :
  let parse_issue :=
    QG.mkIssue "src/bad.py" 1 "parse" "Syntax error: invalid syntax" "error" in
  let pre := ["# Title"; "text"] in
  let p := DV.parse_lines initial_parser 1 pre in
  let block := DV.mkCodeBlock 3 4 (Some "python") true in
  sample_fs "src/bad.py" = File "def f(:"
  /\ sample_parse "def f(:" "src/bad.py"
     = QG.SyntaxError (Some 1) "invalid syntax"
  /\ crash_free sample_fs sample_parse (["src/a.py"] ++ ["src/a.py"])
  /\ (exists r',
         QG.analyze_all sample_fs sample_parse
           (["src/a.py"] ++ "src/bad.py" :: ["src/a.py"]) = Return r'
         /\ QG.issues r'
            = concat (map (file_issues sample_fs sample_parse) ["src/a.py"])
              ++ [parse_issue]
              ++ concat
                   (map (file_issues sample_fs sample_parse) ["src/a.py"]))
  /\ DV.in_code_block p = false
  /\ DV.is_fence (Text.strip "```python") = true
  /\ Forall not_fence ["x = 1"]
  /\ DV.parse_document unclosed_document
     = (DV.headings p, DV.code_blocks p ++ [block], DV.images p, DV.links p).
Proof.
  intros parse_issue pre p block.
  destruct C3_parse_failures as [Hqg Hdv].
  assert (Hfile : sample_fs "src/bad.py" = File "def f(:") by reflexivity.
  assert (Hparse : sample_parse "def f(:" "src/bad.py"
                   = QG.SyntaxError (Some 1) "invalid syntax")
    by reflexivity.
  assert (Hout : DV.in_code_block p = false) by (vm_compute; reflexivity).
  assert (Hfence : DV.is_fence (Text.strip "```python") = true)
    by (vm_compute; reflexivity).
  assert (Hpost : Forall not_fence ["x = 1"]).
  { repeat constructor. }
  assert (Hfree : crash_free sample_fs sample_parse
                    (["src/a.py"] ++ ["src/a.py"]))
    by (repeat constructor).
  split; [exact Hfile|]. split; [exact Hparse|]. split; [exact Hfree|].
  split.
  { exact (proj2 (Hqg sample_fs sample_parse ["src/a.py"] ["src/a.py"]
                    "src/bad.py" "def f(:" (Some 1) "invalid syntax"
                    QG.empty_report Hfile Hparse) Hfree). }
  split; [exact Hout|]. split; [exact Hfence|]. split; [exact Hpost|].
  exact (proj1 (Hdv pre "```python" ["x = 1"] Hout Hfence Hpost)).
Defined.

(** C3, as the claim states it, fails. In quality-gate.py the file that
    does not parse gets the parse issue only, while the rules on the empty
    model would add the issue of a module without docstring. In
    doc-structure-validator.py the fence that is not closed gives an issue
    of the category [code-block], none of a rule [parse], and the heading
    before the fence stays in the model. *)
Lemma C3_no_rule_runs_after_syntax_error :
  map QG.category (file_issues sample_fs sample_parse "src/bad.py")
  = ["parse"]
  /\ map QG.category
       (QG.issues
          (Spec.analyze_unparsed "src/bad.py" 1 "Syntax error: invalid syntax"
             QG.empty_report))
     = ["parse"; "docstrings"]
  /\ map DV.category
       (DV.issues (DV.validate_content "a.md" (lines_text unclosed_document)))
     = ["code-block"]
  /\ map DV.h_text (fst (fst (fst (DV.parse_document unclosed_document))))
     = ["Title"].
Proof. repeat split; vm_compute; reflexivity. Qed.

(** ** The walk over the syntax tree *)

Section Walk.
Import QG.

Lemma size_children m :
  size m = S (list_sum (map size (iter_child_nodes m))).
Proof. destruct m; reflexivity. Qed.

Lemma list_sum_app_size (a b : list node) :
  list_sum (map size (a ++ b))
  = (list_sum (map size a) + list_sum (map size b))%nat.
Proof. now rewrite map_app, list_sum_app. Qed.

Lemma below_app_l n a b : below n a -> below n (a ++ b).
Proof.
  intros [ns H|m ns Hm H].
  - apply below_here, in_or_app. now left.
  - apply (below_child n m); [apply in_or_app; now left | exact H].
Qed.

Lemma below_app_r n a b : below n b -> below n (a ++ b).
Proof.
  intros [ns H|m ns Hm H].
  - apply below_here, in_or_app. now right.
  - apply (below_child n m); [apply in_or_app; now right | exact H].
Qed.

Lemma below_nil n : ~ below n [].
Proof. intros H. inversion H as [ns Hn|m ns Hm _]; subst; contradiction. Qed.

Lemma below_cons n m rest :
  below n (m :: rest) ->
  n = m \/ below n rest \/ below n (iter_child_nodes m).
Proof.
  intros H. inversion H as [ns Hn|m' ns Hm Hc]; subst.
  - destruct Hn as [<-|Hn]; [now left|].
    right; left. now apply below_here.
  - destruct Hm as [<-|Hm]; [now (right; right)|].
    right; left. now apply (below_child n m').
Qed.

Lemma walk_queue_complete n : forall fuel todo,
  (list_sum (map size todo) <= fuel)%nat ->
  below n todo -> In n (walk_queue fuel todo).
Proof.
  induction fuel as [|fuel IH]; intros todo Hfuel Hn.
  - destruct todo as [|m rest]; [now apply below_nil in Hn|].
    simpl in Hfuel. rewrite size_children in Hfuel. lia.
  - destruct todo as [|m rest]; [now apply below_nil in Hn|].
    simpl. simpl in Hfuel. rewrite size_children in Hfuel.
    assert (F : (list_sum (map size (rest ++ iter_child_nodes m))
                 <= fuel)%nat)
      by (rewrite list_sum_app_size; lia).
    apply below_cons in Hn as [->|[H|H]].
    + now left.
    + right. apply IH; [exact F|]. now apply below_app_l.
    + right. apply IH; [exact F|]. now apply below_app_r.
Qed.

(** [ast.walk] reaches every node of the module. *)
Lemma walk_complete tree n : below n (mod_body tree) -> In n (walk tree).
Proof. apply walk_queue_complete. lia. Qed.

Lemma fold_node_issues (ok : Issue -> Prop)
  (step : Report -> node -> Report) (l : list node) :
  (forall n, appends ok (fun r => step r n)) ->
  forall r,
    issues (fold_left step l r)
    = issues r ++ concat (map (node_issues step) l).
Proof.
  intros H. induction l as [|n l IH]; intros r; simpl.
  - now rewrite app_nil_r.
  - rewrite IH. destruct (H n) as (k & _ & Hk).
    unfold node_issues. rewrite (Hk r), (Hk empty_report).
    now rewrite app_assoc.
Qed.

End Walk.

(** ** C4 and C10: what the annotation and documentation checks skip *)

Section Exemptions.
Import QG.

Lemma check_args_issues fp name lineno (l : list arg) : forall r,
  fold_left (check_arg fp name lineno) l r
  = mkReport
      (issues r
         ++ map (param_issue fp name lineno) (List.filter needs_hint l))
      (files_checked r) (functions_checked r) (classes_checked r).
Proof.
  induction l as [|x l IH]; intros r; simpl.
  - rewrite app_nil_r. now destruct r.
  - rewrite IH. unfold check_arg, needs_hint.
    destruct (_ || _); simpl; [reflexivity|].
    destruct (is_none _); simpl; [|reflexivity].
    now rewrite <- app_assoc.
Qed.

End Exemptions.
Section ExemptionsOfNodes.
Import QG.

Lemma type_hints_function fp r is_async name a body returns lineno
  end_lineno doc :
  issues
    (type_hints_node fp r
       (FunctionDef is_async name a body returns lineno end_lineno doc))
  = issues r
    ++ (if is_private name then []
        else
          map (param_issue fp name lineno) (List.filter needs_hint (args a))
          ++ (if negb (String.eqb name "__init__") && is_none returns
              then [return_issue fp name lineno] else [])).
Proof.
  simpl. destruct (is_private name); [now rewrite app_nil_r|].
  rewrite check_args_issues.
  destruct (_ && _); simpl.
  - now rewrite <- app_assoc.
  - now rewrite app_nil_r.
Qed.

Lemma private_name name :
  Text.startswith name "_" = true -> name <> "__init__" ->
  is_private name = true.
Proof.
  intros H N. unfold is_private. rewrite H.
  apply String.eqb_neq in N. now rewrite N.
Qed.

End ExemptionsOfNodes.

(** C4, as amended. A function, plain or async, whose name starts with an
    underscore and is not [__init__] gets no issue from the annotation
    check and none from the documentation check. [__init__] is checked by
    both: each plain parameter without annotation other than [self] and
    [cls] gets an issue, and a missing docstring gets one. A class is
    never exempt: whatever its name, a class without docstring gets an
    issue of the documentation check; the annotation check has no rule for
    classes. The issues of the annotation check are those of the nodes
    that [ast.walk] visits, in its order. *)
Theorem C4_private_functions_are_exempt :
  forall (fp : string) (r : QG.Report),
    (forall is_async name a body returns lineno end_lineno doc,
        Text.startswith name "_" = true ->
        name <> "__init__" ->
        let n :=
          QG.FunctionDef is_async name a body returns lineno end_lineno doc in
        QG.type_hints_node fp r n = r /\ QG.docstrings_node fp r n = r)
    /\ (forall is_async a body returns lineno end_lineno doc,
          let n :=
            QG.FunctionDef is_async "__init__" a body returns lineno
              end_lineno doc in
          QG.issues (QG.type_hints_node fp r n)
          = QG.issues r
            ++ map (param_issue fp "__init__" lineno)
                 (List.filter needs_hint (QG.args a))
          /\ QG.issues (QG.docstrings_node fp r n)
             = QG.issues r
               ++ (if QG.no_docstring doc
                   then [function_docstring_issue fp "__init__" lineno]
                   else []))
    /\ (forall name body lineno doc,
          let n := QG.ClassDef name body lineno doc in
          QG.type_hints_node fp r n = r
          /\ QG.issues (QG.docstrings_node fp r n)
             = QG.issues r
               ++ (if QG.no_docstring doc
                   then [class_docstring_issue fp name lineno] else []))
    /\ (forall tree,
          QG.issues (QG.check_type_hints tree fp r)
          = QG.issues r
            ++ concat
                 (map (node_issues (QG.type_hints_node fp)) (QG.walk tree))).
Proof.
  intros fp r. split; [|split; [|split]].
  - intros is_async name a body returns lineno end_lineno doc Hus Hinit n.
    unfold n. simpl. now rewrite (private_name name Hus Hinit).
  - intros is_async a body returns lineno end_lineno doc n. split.
    + unfold n. rewrite type_hints_function. simpl. now rewrite app_nil_r.
    + simpl. destruct (QG.no_docstring doc); simpl;
        [reflexivity | now rewrite app_nil_r].
  - intros name body lineno doc n. split; [reflexivity|].
    simpl. destruct (QG.no_docstring doc); simpl;
      [reflexivity | now rewrite app_nil_r].
  - intros tree. unfold QG.check_type_hints.
    apply (fold_node_issues error_or_warning).
    intros n. apply appends_type_hints_node.
Qed.

Lemma C4_private_functions_are_exempt_witness :
  Text.startswith "_helper" "_" = true
  /\ "_helper" <> "__init__"
  /\ QG.type_hints_node "m.py" QG.empty_report private_function
     = QG.empty_report
  /\ QG.docstrings_node "m.py" QG.empty_report private_function
     = QG.empty_report.
Proof.
  assert (Hus : Text.startswith "_helper" "_" = true) by reflexivity.
  assert (Hinit : "_helper" <> "__init__") by discriminate.
  destruct (C4_private_functions_are_exempt "m.py" QG.empty_report)
    as (H & _).
  split; [exact Hus|]. split; [exact Hinit|].
  exact (H false "_helper"
           (QG.mkArguments [] [QG.mkArg "x" None] None [] None) [] None 7
           (Some 8) None Hus Hinit).
Defined.

(** C4, as the claim states it, fails for classes: a class whose name
    starts with an underscore and that has no docstring gets an issue of
    the documentation check. *)
Lemma C4_private_class_is_checked :
  Text.startswith "_Helper" "_" = true
  /\ QG.issues (QG.docstrings_node "m.py" QG.empty_report private_class)
     = [class_docstring_issue "m.py" "_Helper" 3].
Proof. split; reflexivity. Qed.

(** C10. Of the parameters of a function only the plain positional ones
    are looked at: the positional-only and keyword-only parameters and the
    parameters with one and two stars change nothing in what the
    annotation check does, and the issues of a function that is not exempt
    are those of its plain parameters without annotation other than [self]
    and [cls], and that of a missing return annotation. *)
Theorem C10_only_plain_parameters_are_inspected :
  forall (fp : string) (r : QG.Report) (is_async : bool) (name : string)
         (posonlyargs args : list QG.arg) (vararg : option QG.arg)
         (kwonlyargs : list QG.arg) (kwarg : option QG.arg)
         (body : list QG.node) (returns : option QG.expr) (lineno : Z)
         (end_lineno : option Z) (doc : option string),
    let n :=
      QG.FunctionDef is_async name
        (QG.mkArguments posonlyargs args vararg kwonlyargs kwarg)
        body returns lineno end_lineno doc in
    QG.type_hints_node fp r n
    = QG.type_hints_node fp r
        (QG.FunctionDef is_async name (QG.mkArguments [] args None [] None)
           body returns lineno end_lineno doc)
    /\ QG.issues (QG.type_hints_node fp r n)
       = QG.issues r
         ++ (if QG.is_private name then []
             else
               map (param_issue fp name lineno) (List.filter needs_hint args)
               ++ (if negb (String.eqb name "__init__")
                      && QG.is_none returns
                   then [return_issue fp name lineno] else [])).
Proof.
  intros. split; [reflexivity|]. unfold n. now rewrite type_hints_function.
Qed.

(** A function [def g(p, /, a: int, *rest, key, **more) -> None] has
    parameters without annotation of the four other kinds, and no issue. *)
Example only_other_parameters_unannotated :
  QG.issues
    (QG.type_hints_node "m.py" QG.empty_report
       (QG.FunctionDef false "g"
          (QG.mkArguments [QG.mkArg "p" None]
             [QG.mkArg "a" (Some (QG.Name "int"))]
             (Some (QG.mkArg "rest" None)) [QG.mkArg "key" None]
             (Some (QG.mkArg "more" None)))
          [] (Some QG.OtherExpr) 1 (Some 2) (Some "doc")))
  = [].
Proof. reflexivity. Qed.

(** ** C9: the groups of the imports *)

Section TopLevelNames.
Import Text.

(** The first piece of a split is free of the separator, and the text is
    the piece alone or the piece, the separator and more. *)
Lemma split_chars_first sep l :
  exists p ps,
    split_chars sep l = p :: ps
    /\ ~ In sep p
    /\ (l = p \/ exists rest, l = p ++ sep :: rest).
Proof.
  induction l as [|c t (p & ps & E & N & S)].
  - exists [], []. split; [reflexivity|]. split; [intros []|now left].
  - cbn [split_chars]. destruct (Ascii.eqb_spec c sep) as [->|Hc].
    + exists [], (split_chars sep t). split; [reflexivity|].
      split; [intros []|]. right. now exists t.
    + rewrite E. exists (c :: p), ps. split; [reflexivity|].
      split; [intros [?|?]; [congruence|contradiction]|].
      destruct S as [->|(rest & ->)]; [now left|].
      right. now exists rest.
Qed.

(** A text that starts with a piece free of the separator, alone or with
    the separator behind it, has this piece as the first of its split. *)
Lemma split_chars_piece sep p l :
  ~ In sep p ->
  (l = p \/ exists rest, l = p ++ sep :: rest) ->
  exists ps, split_chars sep l = p :: ps.
Proof.
  revert l. induction p as [|c p IH]; intros l N S.
  - destruct S as [->|(rest & ->)]; [now exists []|].
    cbn [app split_chars]. rewrite Ascii.eqb_refl. now eexists.
  - assert (Hc : c <> sep) by (intros ->; apply N; now left).
    assert (N' : ~ In sep p) by (intros ?; apply N; now right).
    destruct l as [|d t];
      [destruct S as [?|(rest & ?)]; discriminate|].
    assert (Ed : d = c)
      by (destruct S as [E|(rest & E)]; now injection E).
    subst d.
    destruct (IH t N') as (ps & E).
    { destruct S as [E|(rest & E)]; injection E as ->;
        [now left|right; now exists rest]. }
    cbn [split_chars]. destruct (Ascii.eqb_spec c sep); [contradiction|].
    rewrite E. now eexists.
Qed.

(** [name.split(".")[0]] is the top-level name of [name]. *)
Lemma split_first_top_level name : top_level name (split_first "." name).
Proof.
  unfold top_level, split_first, split.
  destruct (split_chars_first "." (chars name)) as (p & ps & E & N & S).
  rewrite E. cbn [map]. rewrite chars_text. split; [exact N|].
  destruct S as [S|(rest & S)].
  - left. now rewrite <- S, text_chars.
  - right. exists (text rest). apply chars_inj.
    rewrite !chars_app, !chars_text. exact S.
Qed.

(** A name has one top-level name only. *)
Lemma top_level_unique name top :
  top_level name top -> top = split_first "." name.
Proof.
  intros (N & S). unfold split_first, split.
  destruct (split_chars_piece "." (chars top) (chars name) N) as (ps & E).
  { destruct S as [->|(rest & ->)]; [now left|].
    right. exists (chars rest). now rewrite !chars_app. }
  rewrite E. cbn [map]. now rewrite text_chars.
Qed.

End TopLevelNames.

Section ImportGroups.
Import QG.

#[local] Opaque STDLIB_TOP_LEVEL.

(** classify gives the group of the allow-list. *)
Lemma classify_allow_list name g :
  classify name = g <-> allow_list_group name g.
Proof.
  unfold classify. split.
  - intros <-. case_bool_decide as E.
    + eapply group_stdlib; [apply split_first_top_level|exact E].
    + eapply group_third_party; [apply split_first_top_level|exact E].
  - intros [top T E|top T E]; apply top_level_unique in T; subst top.
    + now rewrite bool_decide_eq_true_2.
    + now rewrite bool_decide_eq_false_2.
Qed.

Lemma imports_of_records n x : In x (imports_of n) <-> record_of n x.
Proof.
  split.
  - destruct n as [| |names lineno|module level lineno| |];
      cbn [imports_of]; try (intros []).
    + intros H. apply in_map_iff in H as (name & <- & Hn).
      apply record_import; [exact Hn|]. now apply classify_allow_list.
    + destruct module as [module|]; [|intros []].
      intros [<-|[]]. destruct (Z.gtb_spec level 0).
      * apply record_relative. lia.
      * apply record_absolute; [lia|]. now apply classify_allow_list.
  - intros [names lineno name g Hn Hg|module level lineno Hl
           |module level lineno g Hl Hg];
      cbn [imports_of].
    + apply in_map_iff. exists name. split; [|exact Hn].
      apply classify_allow_list in Hg. now rewrite Hg.
    + left. destruct (Z.gtb_spec level 0); [reflexivity|lia].
    + left. destruct (Z.gtb_spec level 0); [lia|].
      apply classify_allow_list in Hg. now rewrite Hg.
Qed.

End ImportGroups.

(** C9, as amended. The import records are those of the import statements
    at the top of the module that name a module.  A plain import gives a
    record for each of its names and a from-import with a module name
    gives one record, for the module.  The group of a plain import and of a
    from-import without leading dots is taken from the allow-list by the
    top-level name, the text before the first dot, which every name has
    and of which it has one only: standard when this name is on the list,
    third-party otherwise.  The group of a relative import with a module
    name is local whatever the name.  A relative import without a module
    name gives no record. *)
Theorem C9_import_groups :
  (forall (tree : QG.Module_) (x : Z * QG.group * string),
      In x (QG.import_records tree)
      <-> exists n, In n (QG.mod_body tree) /\ record_of n x)
  /\ (forall name,
        exists top,
          top_level name top
          /\ (forall top', top_level name top' -> top' = top)
          /\ QG.classify name
             = if bool_decide (top ∈ QG.STDLIB_TOP_LEVEL)
               then QG.stdlib else QG.third_party)
  /\ (forall module level lineno,
        level > 0 ->
        QG.imports_of (QG.ImportFrom (Some module) level lineno)
        = [(lineno, QG.local, module)])
  /\ (forall level lineno,
        QG.imports_of (QG.ImportFrom None level lineno) = []).
Proof.
  split; [|split; [|split]].
  - intros tree x. unfold QG.import_records. rewrite in_flat_map.
    split; intros (n & Hn & H); exists n; (split; [exact Hn|]);
      now apply imports_of_records.
  - intros name. exists (Text.split_first "." name).
    split; [apply split_first_top_level|]. split; [|reflexivity].
    intros top' T'. now apply top_level_unique.
  - intros module level lineno Hl. cbn [QG.imports_of].
    destruct (Z.gtb_spec level 0); [reflexivity|lia].
  - reflexivity.
Qed.

(** C9, as it is stated, fails for a relative import without a module
    name: [from . import x] is a relative import and gets no record and so
    no group, and a standard import behind it is not reported, while
    behind [from .pkg import x], which is local, it is. *)
Lemma C9_relative_import_without_module_has_no_group :
  relative (QG.ImportFrom None 1 1) = true
  /\ QG.imports_of (QG.ImportFrom None 1 1) = []
  /\ QG.import_records dots_alone_module = [(2, QG.stdlib, "os")]
  /\ QG.import_records dotted_name_module
     = [(1, QG.local, "pkg"); (2, QG.stdlib, "os")]
  /\ QG.issues
       (QG.check_import_organization dots_alone_module "m.py"
          QG.empty_report)
     = []
  /\ map QG.line
       (QG.issues
          (QG.check_import_organization dotted_name_module "m.py"
             QG.empty_report))
     = [2].
Proof.
  split; [reflexivity|]. split; [reflexivity|].
  split; [vm_compute; reflexivity|]. split; [vm_compute; reflexivity|].
  split; vm_compute; reflexivity.
Qed.

(** The allow-list on some names, and a relative import of a name that
    is on the list. *)
Example import_groups_of_names :
  QG.classify "os.path" = QG.stdlib
  /\ QG.classify "numpy.linalg" = QG.third_party
  /\ QG.classify "osmium" = QG.third_party
  /\ QG.imports_of (QG.ImportFrom (Some "os") 1 5) = [(5, QG.local, "os")].
Proof.
  split; [vm_compute; reflexivity|].
  split; [vm_compute; reflexivity|].
  split; [vm_compute; reflexivity|].
  reflexivity.
Qed.

(** ** C7: the size thresholds *)

Section Sizes.
Import Text RC.




Lemma count_rule_all rule l :
  Forall (fun i => RC.rule i = rule) l -> count_rule rule l = length l.
Proof.
  unfold count_rule. induction 1 as [|x l Hx _ IH]; simpl; [reflexivity|].
  apply String.eqb_eq in Hx. rewrite Hx. simpl. now rewrite IH.
Qed.






End Sizes.


(** ** C8: the exit codes of usage errors *)

(** C8, as amended. quality-gate.py ends with the exit code 2 exactly on a
    usage error (no argument, or no Python file at the path) and with 0 or
    1 otherwise (1 also when the run ends with an exception that nothing
    catches), so that its usage errors differ from a failed verdict. The
    two other scripts end a usage error with the exit code 1, which is also
    their exit code for a failed run: doc-structure-validator.py when the
    path is missing, is a directory without [--recursive] or holds no
    markdown file, and when some document has an error; and
    review-checklist.py without argument or with a missing file, and when
    a warning was found. *)
Theorem C8_exit_codes_of_usage_errors :
  forall (fs : string -> entry) (ast_parse : string -> string -> QG.parsed),
    (forall argv,
        qg_usage_error fs argv ->
        exit_status (QG.main fs ast_parse argv) = 2)
    /\ (forall argv,
          ~ qg_usage_error fs argv ->
          exists target files,
            nth_error argv 1 = Some target
            /\ QG.collect_python_files fs target = files
            /\ exit_status (QG.main fs ast_parse argv)
               = match QG.analyze_all fs ast_parse files with
                 | Return r => if QG.passed r then 0 else 1
                 | _ => 1
                 end)
    /\ (forall args code,
          DV.targets fs args = Exit code ->
          exit_status (DV.main fs args) = 1)
    /\ (forall args files reports,
          DV.targets fs args = Return files ->
          DV.validate_all fs files = Return reports ->
          DV.total_errors reports > 0 ->
          exit_status (DV.main fs args) = 1)
    /\ (forall argv,
          rc_usage_error fs argv -> exit_status (RC.main fs argv) = 1)
    /\ (forall prog filepath rest content,
          fs filepath = File content ->
          RC.warning_count (RC.check_content filepath content) > 0 ->
          exit_status (RC.main fs (prog :: filepath :: rest)) = 1).
Proof.
  intros fs ast_parse. repeat apply conj.
  - intros [|prog [|target rest]] H; try reflexivity.
    simpl in H. unfold QG.main. now rewrite H.
  - intros [|prog [|target rest]] H; try (now destruct H).
    exists target, (QG.collect_python_files fs target).
    split; [reflexivity|]. split; [reflexivity|].
    unfold QG.main. simpl in H.
    destruct (QG.collect_python_files fs target) as [|f t];
      [now destruct H|].
    destruct (QG.analyze_all fs ast_parse (f :: t)) as [r|code|exc] eqn:E;
      cbn [bind exit_status]; try reflexivity.
    now apply analyze_files_never_exits in E.
  - intros args code H. unfold DV.main. rewrite H. simpl.
    unfold DV.targets in H.
    destruct (fs (DV.path args)); try discriminate; try congruence.
    destruct (negb _); [congruence|].
    destruct (DV.find_markdown_files _ _); [congruence|discriminate].
  - intros args files reports Ht Hv He. unfold DV.main.
    rewrite Ht. simpl. rewrite Hv. simpl.
    destruct (Z.gtb_spec (DV.total_errors reports) 0); [reflexivity|lia].
  - intros [|prog [|filepath rest]] H; try reflexivity.
    simpl in H. unfold RC.main, RC.check_file. now rewrite H.
  - intros prog filepath rest content Hf Hw.
    unfold RC.main, RC.check_file. rewrite Hf. simpl.
    destruct (Z.gtb_spec (RC.warning_count (RC.check_content filepath content))
                0); [reflexivity|lia].
Qed.

Lemma C8_exit_codes_of_usage_errors_witness :
  let missing := DV.mkArgs "nowhere.md" false false false in
  let broken := DV.mkArgs "docs/a.md" false false false in
  let reports := [DV.validate_content "docs/a.md" sample_document] in
  qg_usage_error sample_fs ["quality-gate.py"; "empty"]
  /\ exit_status
       (QG.main sample_fs sample_parse ["quality-gate.py"; "empty"]) = 2
  /\ DV.targets sample_fs missing = Exit 1
  /\ exit_status (DV.main sample_fs missing) = 1
  /\ DV.targets sample_fs broken = Return ["docs/a.md"]
  /\ DV.validate_all sample_fs ["docs/a.md"] = Return reports
  /\ DV.total_errors reports > 0
  /\ exit_status (DV.main sample_fs broken) = 1
  /\ rc_usage_error sample_fs ["review-checklist.py"; "nowhere.js"]
  /\ exit_status (RC.main sample_fs ["review-checklist.py"; "nowhere.js"])
     = 1
  /\ sample_fs "a.js" = File "console.log(1)"
  /\ RC.warning_count (RC.check_content "a.js" "console.log(1)") > 0
  /\ exit_status (RC.main sample_fs ["review-checklist.py"; "a.js"]) = 1.
Proof.
  intros missing broken reports.
  destruct (C8_exit_codes_of_usage_errors sample_fs sample_parse)
    as (Hqg & _ & Hdv & Hdvf & Hrc & Hrcf).
  assert (U : qg_usage_error sample_fs ["quality-gate.py"; "empty"])
    by reflexivity.
  assert (T1 : DV.targets sample_fs missing = Exit 1) by reflexivity.
  assert (T2 : DV.targets sample_fs broken = Return ["docs/a.md"])
    by reflexivity.
  assert (V : DV.validate_all sample_fs ["docs/a.md"] = Return reports)
    by reflexivity.
  assert (E : DV.total_errors reports > 0) by (vm_compute; reflexivity).
  assert (R : rc_usage_error sample_fs ["review-checklist.py"; "nowhere.js"])
    by reflexivity.
  assert (F : sample_fs "a.js" = File "console.log(1)") by reflexivity.
  assert (W : RC.warning_count (RC.check_content "a.js" "console.log(1)") > 0)
    by (vm_compute; reflexivity).
  split; [exact U|]. split; [exact (Hqg _ U)|].
  split; [exact T1|]. split; [exact (Hdv _ _ T1)|].
  split; [exact T2|]. split; [exact V|]. split; [exact E|].
  split; [exact (Hdvf _ _ _ T2 V E)|].
  split; [exact R|]. split; [exact (Hrc _ R)|].
  split; [exact F|]. split; [exact W|].
  exact (Hrcf "review-checklist.py" "a.js" [] "console.log(1)" F W).
Defined.

(** C8, as the claim states it, fails for doc-structure-validator.py and
    for review-checklist.py: a path that does not exist and a document with
    an error, and a missing file and a file with a warning, end with the
    same exit code 1. *)
Lemma C8_usage_error_and_failure_share_exit_code :
  DV.targets sample_fs (DV.mkArgs "nowhere.md" false false false) = Exit 1
  /\ exit_status (DV.main sample_fs (DV.mkArgs "nowhere.md" false false false))
     = 1
  /\ Spec.verdict_of
       (map DV.severity
          (DV.issues (DV.validate_content "docs/a.md" sample_document)))
     = Spec.FAILED
  /\ exit_status (DV.main sample_fs (DV.mkArgs "docs/a.md" false false false))
     = 1
  /\ sample_fs "nowhere.js" = Missing
  /\ exit_status (RC.main sample_fs ["review-checklist.py"; "nowhere.js"])
     = 1
  /\ exit_status (RC.main sample_fs ["review-checklist.py"; "a.js"]) = 1.
Proof. repeat split; vm_compute; reflexivity. Qed.

(** ** C6: links to the slug of a heading *)

Section Slugs.
Import Text Re DV.

Lemma lower_char_lowered c : lowered (lower_char c).
Proof.
  unfold lowered, lower_char. destruct (is_upper c) eqn:U.
  - replace (is_upper (ascii_of_nat (code c + 32))) with false;
      [reflexivity|].
    unfold is_upper, in_range, code in *.
    apply andb_true_iff in U as [U1 U2].
    apply Nat.leb_le in U1, U2.
    rewrite nat_ascii_embedding by lia.
    symmetry. apply andb_false_iff. right. apply Nat.leb_gt. lia.
  - now rewrite U.
Qed.

Lemma lower_chars_lowered l : Forall lowered (lower_chars l).
Proof.
  induction l as [|c l IH]; simpl; constructor;
    [apply lower_char_lowered | exact IH].
Qed.

Lemma lowered_fixed l : Forall lowered l -> lower_chars l = l.
Proof.
  induction 1 as [|c l Hc _ IH]; simpl; [reflexivity|].
  now rewrite Hc, IH.
Qed.

Lemma Forall_take_drop {A} (P : A -> Prop) n (l : list A) :
  Forall P l -> Forall P (take n l) /\ Forall P (drop n l).
Proof.
  intros H. split; [now apply Forall_take | now apply Forall_drop].
Qed.

(** The characters of a replacement are those of the text and of the
    text that replaces the matches. *)
Lemma sub_at_chars (P : ascii -> Prop) r repl :
  Forall P repl ->
  forall fuel p i l, Forall P l -> Forall P (sub_at fuel r repl p i l).
Proof.
  intros Hrepl. induction fuel as [|fuel IH]; intros p i l Hl; [exact Hl|].
  simpl. destruct (search_at r p i l) as [m|]; [|exact Hl].
  apply Forall_app. split; [now apply Forall_take|].
  apply Forall_app. split; [exact Hrepl|].
  pose proof (Forall_drop P (m_start m - i + m_len m) l Hl) as Hd.
  destruct (m_len m).
  - destruct (drop _ l) as [|c t]; [constructor|].
    inversion Hd; subst. constructor; [assumption|]. now apply IH.
  - now apply IH.
Qed.

Lemma sub_chars (P : ascii -> Prop) r repl s :
  Forall P (chars repl) -> Forall P (chars s) ->
  Forall P (chars (sub r repl s)).
Proof.
  intros Hr Hs. unfold sub. rewrite chars_text. now apply sub_at_chars.
Qed.

Lemma lower_fixed s : Forall lowered (chars s) -> lower s = s.
Proof.
  intros H. unfold lower. rewrite (lowered_fixed _ H). apply text_chars.
Qed.

Lemma lower_lowered s : Forall lowered (chars (lower s)).
Proof. unfold lower. rewrite chars_text. apply lower_chars_lowered. Qed.

(** A slug is in lower case. *)
Lemma slugify_lowered T : lower (slugify_heading T) = slugify_heading T.
Proof.
  apply lower_fixed. unfold slugify_heading.
  apply sub_chars; [now repeat constructor|].
  apply sub_chars; [constructor|].
  apply lower_lowered.
Qed.

Lemma startswith_hash s : startswith ("#" +:+ s) "#" = true.
Proof. reflexivity. Qed.

Lemma slice_hash s : slice_from 1 ("#" +:+ s) = s.
Proof. unfold slice_from. simpl. apply text_chars. Qed.

Lemma slug_in_heading_slugs hs lines h :
  In h hs -> slugify_heading (h_text h) ∈ heading_slugs hs lines.
Proof.
  intros H. unfold heading_slugs. apply elem_of_union_l.
  apply elem_of_list_to_set. apply list_elem_of_In.
  now apply (in_map (fun h => slugify_heading (h_text h))).
Qed.

End Slugs.

(** ** Matches of the regular expressions *)

Section Matches.
Import Text Re.

Lemma search_at_none first r :
  starts_with first r ->
  forall l p i, Forall (fun c => first c = false) l ->
                search_at r p i l = None.
Proof.
  intros [Hnil Hcons]. induction l as [|c t IH]; intros p i Hl; simpl.
  - unfold match_here. now rewrite Hnil.
  - inversion Hl as [|? ? Hc Ht]; subst.
    unfold match_here. rewrite (Hcons _ _ _ _ _ _ Hc). simpl.
    now apply IH.
Qed.

Lemma prev_after_cons p c pre :
  prev_after (Some c) pre = prev_after p (c :: pre).
Proof.
  unfold prev_after. simpl. destruct (rev pre); reflexivity.
Qed.

Lemma search_at_skip first r :
  starts_with first r ->
  forall pre l p i,
    Forall (fun c => first c = false) pre ->
    search_at r p i (pre ++ l)
    = search_at r (prev_after p pre) (i + length pre) l.
Proof.
  intros [Hnil Hcons]. induction pre as [|c t IH]; intros l p i Hpre.
  - simpl. now rewrite Nat.add_0_r.
  - inversion Hpre as [|? ? Hc Ht]; subst.
    cbn [app search_at]. unfold match_here at 1.
    rewrite (Hcons _ _ _ _ _ _ Hc). cbn [fmap option_fmap option_map].
    rewrite IH by exact Ht. rewrite (prev_after_cons p).
    f_equal. simpl. lia.
Qed.

(** A replacement changes nothing in a text without a character at which
    the expression can match. *)
Lemma sub_at_none first r repl :
  starts_with first r ->
  forall fuel l p i, Forall (fun c => first c = false) l ->
                     sub_at fuel r repl p i l = l.
Proof.
  intros H fuel l p i Hl. destruct fuel; [reflexivity|].
  simpl. now rewrite (search_at_none first r H).
Qed.

End Matches.

(** ** C5: literals and comments in a line of JavaScript *)

Section Literals.
Import Text Re RC.

Lemma eqb_neq_false (a b : ascii) : a <> b -> Ascii.eqb a b = false.
Proof. intros H. now apply Ascii.eqb_neq. Qed.

Section Quoted.
Variables (q : ascii) (cs : list (nat * list ascii)).
Hypothesis Hq : q <> backslash.
Hypothesis Hcap : cap_lookup 1 cs = Some [q].

Lemma backref_at_quote k p i post :
  run (Backref 1) k (State p i (q :: post) cs)
  = k (State (Some q) (S i) post cs).
Proof.
  cbn -[Ascii.eqb]. rewrite Hcap. cbn -[Ascii.eqb].
  now rewrite Ascii.eqb_refl.
Qed.

Lemma quoted_char_at_quote k p i post :
  run quoted_char k (State p i (q :: post) cs) = None.
Proof.
  unfold quoted_char. cbn -[Ascii.eqb]. rewrite Hcap. cbn -[Ascii.eqb].
  rewrite Ascii.eqb_refl. cbn -[Ascii.eqb].
  now rewrite (eqb_neq_false backslash q) by congruence.
Qed.

Lemma quoted_char_at_plain k p i c t :
  plain_in q c ->
  run quoted_char k (State p i (c :: t) cs) = k (State (Some c) (S i) t cs).
Proof.
  intros (Hcq & Hcb & Hcn). unfold quoted_char.
  cbn -[Ascii.eqb]. rewrite Hcap. cbn -[Ascii.eqb].
  rewrite (eqb_neq_false q c) by congruence.
  rewrite (eqb_neq_false backslash c) by congruence.
  rewrite (eqb_neq_false c newline) by congruence.
  cbn -[Ascii.eqb]. destruct (k _); reflexivity.
Qed.

(** The repetition in QUOTED runs over the body of a literal and ends
    behind its closing quote. *)
Lemma quoted_body post : forall body n p i,
  Forall (plain_in q) body ->
  (length body <= n)%nat ->
  iterate (run quoted_char) (run (Backref 1) Some) n
    (State p i (body ++ q :: post) cs)
  = Some (State (Some q) (i + length body + 1) post cs).
Proof.
  induction body as [|c body IH]; intros n p i Hbody Hn.
  - cbn [app length].
    replace (i + 0 + 1)%nat with (S i) by lia.
    destruct n as [|n]; cbn [iterate]; [apply backref_at_quote|].
    rewrite quoted_char_at_quote. apply backref_at_quote.
  - inversion Hbody as [|? ? Hc Hrest]; subst.
    destruct n as [|n]; [simpl in Hn; lia|].
    cbn [app iterate]. rewrite (quoted_char_at_plain _ _ _ _ _ Hc).
    cbn [pos]. rewrite (proj2 (Nat.ltb_lt i (S i))) by lia.
    rewrite IH; [|exact Hrest|simpl in Hn; lia].
    do 2 f_equal. simpl. lia.
Qed.

End Quoted.

Lemma sub_at_one first r repl :
  starts_with first r ->
  forall fuel pre m post p i e,
    Forall (fun c => first c = false) pre ->
    m <> [] ->
    run r Some (State (prev_after p pre) (i + length pre) (m ++ post) [])
    = Some e ->
    pos e = (i + length pre + length m)%nat ->
    sub_at (S fuel) r repl p i (pre ++ m ++ post)
    = pre ++ repl
      ++ sub_at fuel r repl (prev e) (i + (length pre + length m)) post.
Proof.
  intros Hr fuel pre m post p i e Hpre Hm Hrun Hpos.
  cbn [sub_at]. rewrite (search_at_skip first r Hr) by exact Hpre.
  assert (S : search_at r (prev_after p pre) (i + length pre) (m ++ post)
              = Some (Found (State (prev_after p pre) (i + length pre)
                               (m ++ post) []) e)).
  { destruct m as [|c m]; [congruence|]. cbn [app search_at].
    unfold match_here. cbn [app] in Hrun. now rewrite Hrun. }
  rewrite S. unfold m_start, m_len. cbn [m_from m_to pos].
  rewrite Hpos.
  replace (i + length pre - i)%nat with (length pre) by lia.
  replace (i + length pre + length m - (i + length pre))%nat
    with (length m) by lia.
  rewrite take_app_length.
  replace (drop (length pre + length m) (pre ++ m ++ post)) with post.
  - destruct m as [|c m]; [congruence|]. reflexivity.
  - rewrite app_assoc.
    replace (length pre + length m)%nat with (length (pre ++ m))
      by apply length_app.
    now rewrite drop_app_length.
Qed.

Lemma QUOTED_starts : starts_with is_string_quote QUOTED.
Proof.
  split.
  - intros k p i cs. reflexivity.
  - intros k p i c t cs H. cbn -[Ascii.eqb].
    fold (is_string_quote c). now rewrite H.
Qed.

Lemma TEMPLATE_starts : starts_with (Ascii.eqb backtick) TEMPLATE.
Proof.
  split.
  - intros k p i cs. reflexivity.
  - intros k p i c t cs H. cbn -[Ascii.eqb]. now rewrite H.
Qed.

Lemma LINE_COMMENT_starts : starts_with (Ascii.eqb "/") LINE_COMMENT.
Proof.
  split.
  - intros k p i cs. reflexivity.
  - intros k p i c t cs H. cbn -[Ascii.eqb]. now rewrite H.
Qed.

Lemma run_group_chr n f r k p i c t cs :
  run (Seq (Group n (Chr f)) r) k (State p i (c :: t) cs)
  = if f c
    then run r k
           (State (Some c) (S i) t ((n, take (S i - i) (c :: t)) :: cs))
    else None.
Proof. reflexivity. Qed.

Lemma run_star_seq a b k st :
  run (Seq (Star a) b) k st
  = iterate (run a) (run b k) (length (rest st)) st.
Proof. reflexivity. Qed.

(** QUOTED matches a literal from its opening to its closing quote. *)
Lemma quoted_match q body post p i :
  is_string_quote q = true ->
  Forall (plain_in q) body ->
  run QUOTED Some (State p i ((q :: body ++ [q]) ++ post) [])
  = Some (State (Some q) (i + length body + 2) post [(1%nat, [q])]).
Proof.
  intros Hq Hbody.
  assert (Hb : q <> backslash).
  { intros ->. discriminate. }
  change QUOTED
    with (Seq (Group 1 (Chr is_string_quote))
            (Seq (Star quoted_char) (Backref 1))).
  cbn [app]. rewrite <- app_assoc. cbn [app].
  rewrite run_group_chr, Hq.
  replace (S i - i)%nat with 1%nat by lia. cbn [take].
  rewrite run_star_seq. cbn [rest].
  rewrite (quoted_body q [(1%nat, [q])] Hb eq_refl post body);
    [|exact Hbody|rewrite length_app; lia].
  do 2 f_equal. lia.
Qed.

End Literals.
Section Masking.
Import Text Re RC.

Lemma chars_String c s : chars (String c s) = c :: chars s.
Proof. reflexivity. Qed.

Lemma any_quote_string c :
  is_any_quote c = false -> is_string_quote c = false.
Proof.
  unfold is_any_quote, is_string_quote.
  intros H. apply orb_false_elim in H as [H _]. exact H.
Qed.

Lemma any_quote_backtick c :
  is_any_quote c = false -> Ascii.eqb backtick c = false.
Proof.
  unfold is_any_quote. intros H. apply orb_false_elim in H as [_ H].
  now rewrite Ascii.eqb_sym.
Qed.

Lemma sub_none first r repl s :
  starts_with first r ->
  Forall (fun c => first c = false) (chars s) ->
  sub r repl s = s.
Proof.
  intros Hr Hs. unfold sub.
  rewrite (sub_at_none first r _ Hr) by exact Hs. apply text_chars.
Qed.

(** The first replacement of strip_comments_and_strings, on a line with
    one literal in single or double quotes. *)
Lemma sub_quoted_literal q pre body post :
  is_string_quote q = true ->
  Forall (fun c => is_any_quote c = false) (chars pre) ->
  Forall (plain_in q) (chars body) ->
  Forall (fun c => is_any_quote c = false) (chars post) ->
  sub QUOTED empty_literal (pre +:+ String q body +:+ String q post)
  = pre +:+ empty_literal +:+ post.
Proof.
  intros Hq Hpre Hbody Hpost. unfold sub.
  assert (E : chars (pre +:+ String q body +:+ String q post)
              = chars pre ++ (q :: chars body ++ [q]) ++ chars post).
  { rewrite chars_app.
    change (String q body +:+ String q post)
      with (String q (body +:+ String q post)).
    rewrite chars_String, chars_app, chars_String.
    cbn [app]. now rewrite <- app_assoc. }
  rewrite E.
  rewrite (sub_at_one is_string_quote QUOTED _ QUOTED_starts _ _ _ _ _ _
             (State (Some q) (0 + length (chars pre) + length (chars body) + 2)
                (chars post) [(1%nat, [q])])).
  - cbn [prev].
    rewrite (sub_at_none is_string_quote QUOTED _ QUOTED_starts).
    + rewrite !text_app, !text_chars. reflexivity.
    + revert Hpost. apply List.Forall_impl. apply any_quote_string.
  - revert Hpre. apply List.Forall_impl. apply any_quote_string.
  - discriminate.
  - now apply quoted_match.
  - cbn [pos length]. rewrite length_app. simpl. lia.
Qed.

Lemma masked_no_backtick pre post :
  Forall (fun c => is_any_quote c = false) (chars pre) ->
  Forall (fun c => is_any_quote c = false) (chars post) ->
  Forall (fun c => Ascii.eqb backtick c = false)
    (chars (pre +:+ empty_literal +:+ post)).
Proof.
  intros Hpre Hpost. rewrite !chars_app.
  apply Forall_app. split; [|apply Forall_app; split].
  - revert Hpre. apply List.Forall_impl. apply any_quote_backtick.
  - unfold empty_literal. rewrite chars_text. now repeat constructor.
  - revert Hpost. apply List.Forall_impl. apply any_quote_backtick.
Qed.

End Masking.

(** On a line that has one literal in single or double quotes, without
    backslash, and no other quote of the three kinds, the result of
    strip_comments_and_strings is that of the line with the empty literal:
    what the literal contains, two slashes or a debug call, changes
    nothing, and the text behind the literal is analysed. Without a slash
    outside the literal, the result is the line with the empty literal. *)
Lemma one_literal_is_masked :
  forall (i : Z) (pre body post : string) (q : ascii),
    is_string_quote q = true ->
    Forall (fun c => is_any_quote c = false) (Text.chars pre) ->
    Forall (plain_in q) (Text.chars body) ->
    Forall (fun c => is_any_quote c = false) (Text.chars post) ->
    let line := pre +:+ String q body +:+ String q post in
    let masked := pre +:+ RC.empty_literal +:+ post in
    RC.strip_comments_and_strings line = Re.sub RC.LINE_COMMENT "" masked
    /\ RC.console_log_issues i (RC.strip_comments_and_strings line)
       = RC.console_log_issues i (Re.sub RC.LINE_COMMENT "" masked)
    /\ (Forall (fun c => Ascii.eqb "/" c = false) (Text.chars masked) ->
        RC.strip_comments_and_strings line = masked).
Proof.
  intros i pre body post q Hq Hpre Hbody Hpost line masked.
  assert (E : RC.strip_comments_and_strings line
              = Re.sub RC.LINE_COMMENT "" masked).
  { unfold RC.strip_comments_and_strings, line.
    rewrite sub_quoted_literal by assumption.
    rewrite (sub_none (Ascii.eqb Text.backtick) RC.TEMPLATE _ _
               TEMPLATE_starts (masked_no_backtick pre post Hpre Hpost)).
    reflexivity. }
  split; [exact E|]. split; [now rewrite E|].
  intros Hslash. rewrite E.
  apply (sub_none (Ascii.eqb "/") RC.LINE_COMMENT _ _ LINE_COMMENT_starts
           Hslash).
Qed.

Lemma one_literal_is_masked_example :
  let pre := "const s = " in
  let body := "// not a real comment" in
  let post := "; console.log(s);" in
  let line := pre +:+ String Text.dquote body +:+ String Text.dquote post in
  let masked := pre +:+ RC.empty_literal +:+ post in
  is_string_quote Text.dquote = true
  /\ Forall (fun c => is_any_quote c = false) (Text.chars pre)
  /\ Forall (plain_in Text.dquote) (Text.chars body)
  /\ Forall (fun c => is_any_quote c = false) (Text.chars post)
  /\ Forall (fun c => Ascii.eqb "/" c = false) (Text.chars masked)
  /\ RC.strip_comments_and_strings line = masked
  /\ RC.console_log_issues 1 (RC.strip_comments_and_strings line)
     = RC.console_log_issues 1 (Re.sub RC.LINE_COMMENT "" masked).
Proof.
  intros pre body post line masked.
  assert (Hq : is_string_quote Text.dquote = true) by reflexivity.
  assert (Hpre : Forall (fun c => is_any_quote c = false) (Text.chars pre)).
  { repeat constructor. }
  assert (Hbody : Forall (plain_in Text.dquote) (Text.chars body)).
  { repeat (constructor; [repeat split; discriminate|]). constructor. }
  assert (Hpost : Forall (fun c => is_any_quote c = false) (Text.chars post)).
  { repeat constructor. }
  assert (Hslash : Forall (fun c => Ascii.eqb "/" c = false)
                     (Text.chars masked)).
  { repeat constructor. }
  destruct (one_literal_is_masked 1 pre body post Text.dquote Hq Hpre Hbody
              Hpost) as (_ & Hissues & Hmasked).
  split; [exact Hq|]. split; [exact Hpre|]. split; [exact Hbody|].
  split; [exact Hpost|]. split; [exact Hslash|].
  split; [exact (Hmasked Hslash)|]. exact Hissues.
Qed.

(** C5. strip_comments_and_strings does not remove the string literals of
    every line, as its docstring and the claim have it: in the line of a
    template literal with an apostrophe and a string literal with a debug
    call, the apostrophe is paired with the opening quote of the string
    literal, so that the text between them is taken for a literal and the
    text of the string literal is left; the code outside the literals has
    no debug call, but the debug-call rule fires. *)
Theorem C5_apostrophe_in_template_unmasks_literal :
  let line := "`it's` + 'console.log('" in
  RC.strip_comments_and_strings line
  = "`it" +:+ RC.empty_literal +:+ "console.log('"
  /\ Spec.js_code line = RC.empty_literal +:+ " + " +:+ RC.empty_literal
  /\ Re.search RC.CONSOLE_LOG_PATTERN (Spec.js_code line) = None
  /\ map RC.rule (RC.issues (RC.check_content "a.js" line)) = ["console-log"].
Proof. repeat split; vm_compute; reflexivity. Qed.

(** ** The matcher only moves forward in the subject *)

Section Advances.
Import Text Re.

Lemma advances_refl st : advances st st.
Proof. exists []. split; [reflexivity | simpl; lia]. Qed.

Lemma advances_trans a b c : advances a b -> advances b c -> advances a c.
Proof.
  intros (t1 & R1 & P1) (t2 & R2 & P2). exists (t1 ++ t2). split.
  - now rewrite R1, R2, app_assoc.
  - rewrite length_app. lia.
Qed.

Lemma advances_step st c st' : step st = Some (c, st') -> advances st st'.
Proof.
  unfold step. destruct (rest st) as [|d t] eqn:E; [discriminate|].
  intros [= <- <-]. exists [d]. simpl. split; [exact E | lia].
Qed.

Lemma advances_consume v : forall st st',
  consume v st = Some st' -> advances st st'.
Proof.
  induction v as [|a v IH]; intros st st'; simpl.
  - intros [= <-]. apply advances_refl.
  - destruct (step st) as [[c st1]|] eqn:E; [|discriminate].
    destruct (Ascii.eqb a c); [|discriminate].
    intros H. apply (advances_trans _ st1); [|now apply IH].
    now apply (advances_step _ c).
Qed.

Lemma advances_set_cap n v st st' :
  advances st st' -> advances st (set_cap n v st').
Proof. intros (t & R & P). exists t. now split. Qed.

(** A match that succeeds hands a later position to its continuation. *)
Lemma run_advances r : forall k st e,
  run r k st = Some e ->
  exists st', advances st st' /\ k st' = Some e.
Proof.
  induction r as [|p|r1 IH1 r2 IH2|r1 IH1 r2 IH2|r IH|n r IH|n|r IH|p|ml|ml|];
    intros k st e; cbn [run].
  - intros H. exists st. split; [apply advances_refl | exact H].
  - destruct (step st) as [[c st1]|] eqn:E; [|discriminate].
    destruct (p c); [|discriminate]. intros H. exists st1.
    split; [now apply (advances_step _ c) | exact H].
  - intros H. apply IH1 in H as (st1 & A1 & H).
    apply IH2 in H as (st2 & A2 & H). exists st2.
    split; [now apply (advances_trans _ st1) | exact H].
  - destruct (run r1 k st) as [e1|] eqn:E.
    + intros [= <-]. now apply IH1.
    + apply IH2.
  - generalize (length (rest st)). intros n. revert st.
    induction n as [|n IHn]; intros st; cbn [iterate].
    + intros H. exists st. split; [apply advances_refl | exact H].
    + destruct (run r _ st) as [e1|] eqn:E.
      * intros [= <-]. apply IH in E as (st1 & A1 & E).
        destruct (pos st <? pos st1)%nat; [|discriminate].
        apply IHn in E as (st2 & A2 & E). exists st2.
        split; [now apply (advances_trans _ st1) | exact E].
      * intros H. exists st. split; [apply advances_refl | exact H].
  - intros H. apply IH in H as (st1 & A1 & H).
    eexists. split; [|exact H]. now apply advances_set_cap.
  - destruct (cap_lookup n (caps st)) as [v|]; [|discriminate].
    destruct (consume v st) as [st1|] eqn:E; [|discriminate].
    intros H. exists st1. split; [now apply (advances_consume v) | exact H].
  - destruct (run r Some st); [discriminate|].
    intros H. exists st. split; [apply advances_refl | exact H].
  - intros H. exists st. split; [apply advances_refl|].
    destruct (prev st) as [c|]; [|exact H].
    destruct (p c); [discriminate | exact H].
  - intros H. exists st. split; [apply advances_refl|].
    destruct (prev st) as [c|]; [|exact H].
    destruct (_ && _); [exact H | discriminate].
  - intros H. exists st. split; [apply advances_refl|].
    destruct (rest st) as [|c t]; [exact H|].
    destruct (_ && _); [exact H | discriminate].
  - intros H. exists st. split; [apply advances_refl|].
    destruct (xorb _ _); [exact H | discriminate].
Qed.

(** A match begins where it was tried and ends at a later position. *)
Lemma match_here_advances r p i l m :
  match_here r p i l = Some m ->
  m_from m = State p i l [] /\ advances (m_from m) (m_to m).
Proof.
  unfold match_here. destruct (run r Some _) as [e|] eqn:E; [|discriminate].
  intros [= <-]. split; [reflexivity|]. simpl.
  apply run_advances in E as (st' & A & [= <-]). exact A.
Qed.

(** The text of a match is in the subject, behind what the search
    skipped. *)
Lemma search_at_extent r : forall l p i m,
  search_at r p i l = Some m ->
  exists skipped,
    l = skipped ++ chars (m_text m) ++ rest (m_to m)
    /\ m_start m = (i + length skipped)%nat
    /\ m_len m = length (chars (m_text m)).
Proof.
  induction l as [|c t IH]; intros p i m; cbn [search_at].
  - destruct (match_here r p i []) as [m0|] eqn:E; [|discriminate].
    intros [= <-]. apply match_here_advances in E as (F & taken & R & P).
    exists []. unfold m_text, m_len, m_start. rewrite P, F in *. simpl in *.
    replace (i + length taken - i)%nat with (length taken) by lia.
    rewrite R, take_app_length, chars_text. repeat split; lia.
  - destruct (match_here r p i (c :: t)) as [m0|] eqn:E.
    + intros [= <-]. apply match_here_advances in E as (F & taken & R & P).
      exists []. unfold m_text, m_len, m_start. rewrite P, F in *.
      simpl in *.
      replace (i + length taken - i)%nat with (length taken) by lia.
      rewrite R, take_app_length, chars_text. repeat split; lia.
    + intros H. apply IH in H as (skipped & L & S & N).
      exists (c :: skipped). simpl. rewrite <- L. repeat split; lia.
Qed.

End Advances.

Section Fuel.
Import Text Re.

Lemma search_at_used r l p i m :
  search_at r p i l = Some m ->
  (m_start m - i + m_len m <= length l)%nat.
Proof.
  intros H. apply search_at_extent in H as (skipped & L & S & N).
  rewrite L, !length_app, S, N. lia.
Qed.

(** The fuel of a replacement is enough: more fuel gives the same text. *)
Lemma sub_at_fuel r repl : forall fuel l p i extra,
  (length l < fuel)%nat ->
  sub_at (fuel + extra) r repl p i l = sub_at fuel r repl p i l.
Proof.
  induction fuel as [|fuel IH]; intros l p i extra Hl; [lia|].
  cbn [Nat.add sub_at].
  destruct (search_at r p i l) as [m|] eqn:E; [|reflexivity].
  pose proof (search_at_used r l p i m E) as U.
  pose proof (length_drop l (m_start m - i + m_len m)) as D.
  do 2 f_equal.
  destruct (m_len m) as [|k].
  - destruct (drop _ l) as [|c t]; [reflexivity|].
    f_equal. apply IH. simpl in D. lia.
  - apply IH. lia.
Qed.

(** The fuel of an iteration over the matches is enough. *)
Lemma finditer_at_fuel r : forall fuel l p i extra,
  (length l < fuel)%nat ->
  finditer_at (fuel + extra) r p i l = finditer_at fuel r p i l.
Proof.
  induction fuel as [|fuel IH]; intros l p i extra Hl; [lia|].
  cbn [Nat.add finditer_at].
  destruct (search_at r p i l) as [m|] eqn:E; [|reflexivity].
  pose proof (search_at_used r l p i m E) as U.
  pose proof (length_drop l (m_start m - i + m_len m)) as D.
  f_equal.
  destruct (m_len m) as [|k].
  - destruct (drop _ l) as [|c t]; [reflexivity|].
    apply IH. simpl in D. lia.
  - apply IH. lia.
Qed.

End Fuel.

(** ** Replacements, one character after the other *)

Section Replacements.
Import Text Re.

Lemma sub_at_hit r repl fuel p i l m :
  match_here r p i l = Some m ->
  sub_at (S fuel) r repl p i l
  = repl
    ++ match m_len m, drop (m_len m) l with
       | O, [] => []
       | O, c :: t => c :: sub_at fuel r repl (Some c) (S (i + m_len m)) t
       | _, l' => sub_at fuel r repl (prev (m_to m)) (i + m_len m) l'
       end.
Proof.
  intros H. cbn [sub_at].
  assert (S : search_at r p i l = Some m).
  { destruct l; cbn [search_at]; now rewrite H. }
  rewrite S. apply match_here_advances in H as [F _].
  unfold m_start. rewrite F. cbn [pos].
  replace (i - i)%nat with 0%nat by lia. rewrite take_0.
  reflexivity.
Qed.

Lemma sub_at_miss r repl fuel p i c t :
  match_here r p i (c :: t) = None ->
  (length t < fuel)%nat ->
  sub_at (S fuel) r repl p i (c :: t)
  = c :: sub_at fuel r repl (Some c) (S i) t.
Proof.
  intros H Hfuel. destruct fuel as [|fuel]; [lia|].
  cbn [sub_at search_at]. rewrite H.
  destruct (search_at r (Some c) (S i) t) as [m|] eqn:E; [|reflexivity].
  pose proof (search_at_used r t _ _ m E) as U.
  apply search_at_extent in E as (skipped & L & S & N).
  replace (m_start m - i)%nat with (Datatypes.S (m_start m - Datatypes.S i))
    by lia.
  cbn [take app Nat.add drop]. f_equal. f_equal. f_equal.
  pose proof (length_drop t (m_start m - Datatypes.S i + m_len m)) as D.
  replace (i + Datatypes.S (m_start m - Datatypes.S i + m_len m))%nat
    with (Datatypes.S i + (m_start m - Datatypes.S i + m_len m))%nat by lia.
  destruct (m_len m) as [|k].
  - destruct (drop _ t) as [|d t']; [reflexivity|]. f_equal.
    simpl in D.
    rewrite <- (sub_at_fuel r repl fuel t' _ _ 1) by lia.
    now rewrite Nat.add_1_r.
  - rewrite <- (sub_at_fuel r repl fuel _ _ _ 1) by lia.
    now rewrite Nat.add_1_r.
Qed.

(** The replacement of the characters of a class. *)
Lemma sub_at_class (f : ascii -> bool) repl : forall fuel l p i,
  (length l < fuel)%nat ->
  sub_at fuel (Chr f) repl p i l
  = flat_map (fun c => if f c then repl else [c]) l.
Proof.
  induction fuel as [|fuel IH]; intros l p i Hl; [lia|].
  destruct l as [|c t]; [reflexivity|]. simpl in Hl.
  cbn [flat_map]. destruct (f c) eqn:Hc.
  - rewrite (sub_at_hit _ _ _ _ _ _
               (Found (State p i (c :: t) []) (State (Some c) (S i) t []))).
    + unfold m_len. cbn [m_to m_from pos].
      replace (S i - i)%nat with 1%nat by lia. cbn [drop prev].
      f_equal. apply IH. lia.
    + unfold match_here. cbn [run step rest pos caps]. now rewrite Hc.
  - rewrite sub_at_miss; [|  |lia].
    + cbn [app]. f_equal. apply IH. lia.
    + unfold match_here. cbn [run step rest pos caps]. now rewrite Hc.
Qed.

End Replacements.
Section SlugWords.
Import Text Re DV Spec.

Lemma leading_spaces l :
  exists run, l = run ++ lstrip_chars l /\ Forall (fun c => is_space c = true) run.
Proof.
  induction l as [|c t (run & E & F)]; [now exists []|].
  cbn [lstrip_chars]. destruct (is_space c) eqn:Hc.
  - exists (c :: run). split; [cbn [app]; now f_equal|]. now constructor.
  - now exists [].
Qed.

Lemma lstrip_head l c t : lstrip_chars l = c :: t -> is_space c = false.
Proof.
  induction l as [|d l IH]; cbn [lstrip_chars]; [discriminate|].
  destruct (is_space d) eqn:Hd; [exact IH|]. now intros [= <- _].
Qed.

(** The repetition in SPACES takes a run of spaces to its end. *)
Lemma spaces_run rest' cs :
  (forall c t, rest' = c :: t -> is_space c = false) ->
  forall sp n p i,
    Forall (fun c => is_space c = true) sp ->
    (length sp <= n)%nat ->
    iterate (Re.run space) Some n (State p i (sp ++ rest') cs)
    = Some (State (prev_after p sp) (i + length sp) rest' cs).
Proof.
  intros Hrest.
  assert (Stop : forall p i,
             Re.run space (fun st' => None) (State p i rest' cs) = None
             /\ forall k, Re.run space k (State p i rest' cs) = None).
  { intros p i. unfold space.
    destruct rest' as [|c t]; cbn [Re.run step rest]; [now split|].
    rewrite (Hrest c t eq_refl). now split. }
  induction sp as [|c sp IH]; intros n p i Hrun Hn.
  - cbn [app length]. rewrite Nat.add_0_r. unfold prev_after. cbn [rev].
    destruct n as [|n]; cbn [iterate]; [reflexivity|].
    now rewrite (proj2 (Stop p i)).
  - inversion Hrun as [|? ? Hc Hrun']; subst.
    destruct n as [|n]; [simpl in Hn; lia|].
    cbn [app iterate]. unfold space at 1. cbn [Re.run step rest pos caps].
    rewrite Hc. cbn [pos]. rewrite (proj2 (Nat.ltb_lt i (S i))) by lia.
    rewrite IH; [|exact Hrun'|simpl in Hn; lia].
    rewrite (prev_after_cons p). do 2 f_equal. simpl. lia.
Qed.

Lemma hyphenate_in_run l : hyphenate true l = hyphenate false (lstrip_chars l).
Proof.
  induction l as [|c t IH]; [reflexivity|].
  cbn [hyphenate lstrip_chars]. destruct (is_space c) eqn:Hc; [exact IH|].
  cbn [hyphenate]. now rewrite Hc.
Qed.

Lemma run_chr_star f r k p i c t cs :
  Re.run (Seq (Chr f) (Star r)) k (State p i (c :: t) cs)
  = if f c
    then iterate (Re.run r) k (length t) (State (Some c) (S i) t cs)
    else None.
Proof. reflexivity. Qed.

(** SPACES matches a run of spaces to its end. *)
Lemma spaces_match p i c t :
  is_space c = true ->
  exists e,
    match_here SPACES p i (c :: t)
    = Some (Found (State p i (c :: t) []) e)
    /\ rest e = lstrip_chars t
    /\ drop (pos e - i) (c :: t) = lstrip_chars t
    /\ (0 < pos e - i)%nat.
Proof.
  intros Hc. destruct (leading_spaces t) as (sp & E & F).
  remember (lstrip_chars t) as rest' eqn:R. subst t.
  assert (H : forall c t, rest' = c :: t -> is_space c = false).
  { intros d t Hd. apply (lstrip_head (sp ++ rest') d t). congruence. }
  exists (State (prev_after (Some c) sp) (S i + length sp) rest' []).
  split; [|split; [reflexivity|split]].
  - unfold match_here.
    change SPACES with (Seq (Chr is_space) (Star space)).
    rewrite run_chr_star, Hc.
    rewrite (spaces_run rest' [] H sp); [reflexivity | exact F |].
    rewrite length_app. lia.
  - cbn [pos]. replace (S i + length sp - i)%nat with (S (length sp))
      by lia.
    cbn [drop]. apply drop_app_length.
  - cbn [pos]. lia.
Qed.

Lemma sub_at_spaces : forall fuel l p i,
  (length l < fuel)%nat ->
  sub_at fuel SPACES ["-"%char] p i l = hyphenate false l.
Proof.
  induction fuel as [|fuel IH]; intros l p i Hl; [lia|].
  destruct l as [|c t]; [reflexivity|]. simpl in Hl.
  cbn [hyphenate]. destruct (is_space c) eqn:Hc.
  - destruct (spaces_match p i c t Hc) as (e & M & R & D & P).
    rewrite (sub_at_hit _ _ _ _ _ _ _ M).
    unfold m_len. cbn [m_to m_from pos]. rewrite D.
    destruct (pos e - i)%nat as [|k] eqn:K; [lia|].
    cbn [app]. f_equal. rewrite hyphenate_in_run. apply IH.
    pose proof (leading_spaces t) as (sp & E & _).
    assert (length (lstrip_chars t) <= length t)%nat
      by (rewrite E at 2; rewrite length_app; lia).
    lia.
  - rewrite sub_at_miss; [|  |lia].
    + f_equal. apply IH. lia.
    + unfold match_here, SPACES, plus, space.
      cbn [Re.run step rest pos caps]. now rewrite Hc.
Qed.

Lemma flat_map_filter_drop (l : list ascii) :
  flat_map (fun c => if negb (slug_keeps c) then [] else [c]) l
  = List.filter slug_keeps l.
Proof.
  induction l as [|c t IH]; [reflexivity|].
  cbn [flat_map List.filter]. rewrite IH. now destruct (slug_keeps c).
Qed.

(** slugify_heading computes the slug of the specification. *)
Lemma slugify_heading_slug T : slugify_heading T = Spec.slug T.
Proof.
  unfold slugify_heading, Spec.slug, sub.
  rewrite sub_at_spaces by (rewrite chars_length; lia).
  f_equal. f_equal. rewrite chars_text.
  change SLUG_DROP with (Chr (fun c => negb (slug_keeps c))).
  rewrite sub_at_class by (rewrite chars_length; lia).
  rewrite flat_map_filter_drop. f_equal.
  unfold lower, strip. now rewrite !chars_text.
Qed.

End SlugWords.

(** On texts of 8-bit characters: a link whose target is the slug of the
    text of a heading gives no issue. *)
Lemma dv_link_to_slug_no_issue :
  forall (hs : list DV.Heading) (lines : list string) (h : DV.Heading)
         (l : DV.Link),
    In h hs ->
    DV.href l = "#" +:+ DV.slugify_heading (DV.h_text h) ->
    DV.link_issue (DV.heading_slugs hs lines) l = [].
Proof.
  intros hs lines h l Hh Hl.
  unfold DV.link_issue. rewrite Hl, startswith_hash, slice_hash.
  rewrite slugify_lowered.
  rewrite bool_decide_eq_true_2; [reflexivity|].
  now apply slug_in_heading_slugs.
Qed.

(** *** Slugs over any alphabet *)

Section CodePointSlugs.
Import CodePoints.

Context {char : Type} `{Countable char}.
Variable of_ascii : ascii -> char.
Variable is_space is_word : char -> bool.
Variable lower : list char -> list char.
Variable anchors : list char -> list (list char).
Hypothesis laws : lower_laws char of_ascii lower.

Lemma sub_class_chars (P : char -> Prop) p repl s :
  Forall P repl -> Forall P s -> Forall P (sub_class char p repl s).
Proof.
  intros Hr Hs. unfold sub_class.
  induction Hs as [|c t Hc _ IH]; cbn [flat_map]; [constructor|].
  apply Forall_app. split; [|exact IH].
  destruct (p c); [exact Hr | now constructor].
Qed.

Lemma sub_runs_chars (P : char -> Prop) p repl s :
  Forall P repl -> Forall P s ->
  forall in_run, Forall P (sub_runs char p repl in_run s).
Proof.
  intros Hr Hs.
  induction Hs as [|c t Hc _ IH]; intros in_run; cbn [sub_runs];
    [constructor|].
  destruct (p c); [destruct in_run|].
  - apply IH.
  - apply Forall_app. split; [exact Hr|apply IH].
  - constructor; [exact Hc|apply IH].
Qed.

(** The slug of a text is its own lower case. *)
Lemma slug_lower_case T :
  lower (slugify_heading char of_ascii is_space is_word lower T)
  = slugify_heading char of_ascii is_space is_word lower T.
Proof.
  apply (lower_keeps_lower_case _ _ _ laws). unfold slugify_heading.
  apply sub_runs_chars.
  - constructor; [apply (lower_case_hyphen _ _ _ laws)|constructor].
  - apply sub_class_chars; [constructor|].
    apply List.Forall_forall. intros c Hc.
    exact (lower_gives_lower_case _ _ _ laws _ _ Hc).
Qed.

Lemma slug_among_heading_slugs hs lines h :
  In h hs ->
  slugify_heading char of_ascii is_space is_word lower (h_text h)
  ∈ heading_slugs char of_ascii is_space is_word lower anchors hs lines.
Proof.
  intros Hh. unfold heading_slugs. apply elem_of_union_l.
  apply elem_of_list_to_set. apply list_elem_of_In.
  now apply
    (in_map
       (fun h =>
          slugify_heading char of_ascii is_space is_word lower (h_text h))).
Qed.

Lemma link_to_slug_no_issue hs lines h l :
  In h hs ->
  href l
  = hash char of_ascii
    :: slugify_heading char of_ascii is_space is_word lower (h_text h) ->
  link_issue char of_ascii lower
    (heading_slugs char of_ascii is_space is_word lower anchors hs lines) l
  = [].
Proof.
  intros Hh Hl. unfold link_issue. rewrite Hl.
  cbn [startswith drop]. rewrite bool_decide_eq_true_2 by reflexivity.
  cbn [andb]. rewrite drop_0, slug_lower_case.
  rewrite bool_decide_eq_true_2; [reflexivity|].
  now apply slug_among_heading_slugs.
Qed.

End CodePointSlugs.

(** *** The 8-bit texts as an alphabet *)

Section AsciiSlugs.
Import Text Re.

Lemma ascii_lower_laws :
  CodePoints.lower_laws ascii (fun c => c) lower_chars.
Proof.
  split.
  - intros s c Hc. unfold CodePoints.lower_case. cbn [lower_chars map].
    f_equal. unfold lower_chars in Hc. apply in_map_iff in Hc as (d & <- & _).
    apply lower_char_lowered.
  - intros s Hs. apply lowered_fixed.
    eapply List.Forall_impl; [|exact Hs].
    intros c Hc. unfold CodePoints.lower_case in Hc.
    cbn [lower_chars map] in Hc. now injection Hc.
  - reflexivity.
Qed.

Lemma ascii_lstrip l : CodePoints.lstrip ascii is_space l = lstrip_chars l.
Proof.
  induction l as [|c t IH]; [reflexivity|].
  cbn [CodePoints.lstrip lstrip_chars]. now rewrite IH.
Qed.

Lemma ascii_strip l : CodePoints.strip ascii is_space l = strip_chars l.
Proof.
  unfold CodePoints.strip, strip_chars. now rewrite !ascii_lstrip.
Qed.

Lemma ascii_slug_drops c :
  CodePoints.slug_drops ascii (fun c => c) is_space is_word c
  = negb (Spec.slug_keeps c).
Proof.
  unfold CodePoints.slug_drops, Spec.slug_keeps, CodePoints.hyphen.
  do 2 f_equal. case_bool_decide as E.
  - subst c. reflexivity.
  - symmetry. now apply Ascii.eqb_neq.
Qed.

Lemma ascii_sub_runs in_run l :
  CodePoints.sub_runs ascii is_space ["-"%char] in_run l
  = Spec.hyphenate in_run l.
Proof.
  revert in_run. induction l as [|c t IH]; intros in_run; [reflexivity|].
  cbn [CodePoints.sub_runs Spec.hyphenate].
  destruct (is_space c); [destruct in_run|]; cbn [app]; now rewrite IH.
Qed.

(** On a text of 8-bit characters, the slug over the code points is the
    slug that the patterns of [DV.slugify_heading] give. *)
Lemma ascii_slugify_heading T :
  CodePoints.slugify_heading ascii (fun c => c) is_space is_word lower_chars
    (chars T)
  = chars (DV.slugify_heading T).
Proof.
  rewrite slugify_heading_slug. unfold Spec.slug, CodePoints.slugify_heading.
  rewrite chars_text, ascii_strip.
  change (CodePoints.hyphen ascii (fun c => c)) with "-"%char.
  rewrite ascii_sub_runs. f_equal.
  unfold CodePoints.sub_class.
  rewrite <- flat_map_filter_drop. apply flat_map_ext.
  intros c. now rewrite ascii_slug_drops.
Qed.

Lemma ascii_join lines :
  CodePoints.join ascii [newline] (map chars lines)
  = chars (join (text [newline]) lines).
Proof.
  induction lines as [|x t IH]; [reflexivity|].
  destruct t as [|y t]; [reflexivity|].
  change (CodePoints.join ascii [newline] (map chars (x :: y :: t)))
    with (chars x ++ [newline]
            ++ CodePoints.join ascii [newline] (map chars (y :: t))).
  rewrite IH. cbn [join]. now rewrite !chars_app.
Qed.

Lemma elem_of_chars_set (t : string) (l : list string) :
  chars t ∈ (list_to_set (map chars l) : gset (list ascii)) <-> In t l.
Proof.
  rewrite elem_of_list_to_set, list_elem_of_In, in_map_iff. split.
  - intros (u & E & Hu). apply chars_inj in E. now subst u.
  - intros Ht. now exists t.
Qed.

Lemma ascii_heading_slugs hs lines t :
  chars t
  ∈ CodePoints.heading_slugs ascii (fun c => c) is_space is_word
      lower_chars ascii_anchors (map heading_chars hs) (map chars lines)
  <-> t ∈ DV.heading_slugs hs lines.
Proof.
  unfold CodePoints.heading_slugs, DV.heading_slugs.
  rewrite !elem_of_union, ascii_join.
  rewrite (elem_of_list_to_set (C := gset string)).
  rewrite (elem_of_list_to_set (C := gset string)).
  rewrite !list_elem_of_In.
  rewrite <- !elem_of_chars_set.
  unfold ascii_anchors. rewrite text_chars, !map_map.
  cbn [heading_chars CodePoints.h_text].
  erewrite (map_ext (fun h => CodePoints.slugify_heading _ _ _ _ _ _));
    [|intros h; apply ascii_slugify_heading].
  erewrite (map_ext (fun m => lower_chars _));
    [|intros m; unfold lower; now rewrite chars_text].
  reflexivity.
Qed.

(** On texts of 8-bit characters, the issues of the links over the code
    points are those of [DV.validate_internal_links]. *)
Lemma ascii_validate_internal_links hs ls lines :
  CodePoints.validate_internal_links ascii (fun c => c) is_space is_word
    lower_chars ascii_anchors (map heading_chars hs) (map link_chars ls)
    (map chars lines)
  = map issue_chars (DV.validate_internal_links hs ls lines).
Proof.
  unfold CodePoints.validate_internal_links, DV.validate_internal_links.
  induction ls as [|l ls IH]; [reflexivity|].
  cbn [map flat_map]. rewrite map_app, IH. f_equal.
  unfold CodePoints.link_issue, DV.link_issue, startswith.
  cbn [link_chars CodePoints.href CodePoints.link_line].
  change (chars "#") with ["#"%char].
  change (CodePoints.hash ascii (fun c => c)) with "#"%char.
  destruct (chars (DV.href l)) as [|b t] eqn:E; [reflexivity|].
  cbn [CodePoints.startswith prefix_chars].
  assert (B : bool_decide ("#"%char = b) = Ascii.eqb "#" b).
  { case_bool_decide as Eb; [subst b; reflexivity|].
    symmetry. now apply Ascii.eqb_neq. }
  rewrite B. destruct (Ascii.eqb "#" b); [|reflexivity]. cbn [andb].
  assert (L : lower_chars (drop 1 (b :: t))
              = chars (lower (slice_from 1 (DV.href l)))).
  { unfold lower, slice_from. now rewrite !chars_text, E. }
  rewrite L.
  destruct (bool_decide (lower (slice_from 1 (DV.href l))
                           ∈ DV.heading_slugs hs lines)) eqn:M.
  - apply bool_decide_eq_true_1 in M.
    rewrite bool_decide_eq_true_2; [reflexivity|].
    now apply ascii_heading_slugs.
  - apply bool_decide_eq_false_1 in M.
    rewrite bool_decide_eq_false_2;
      [|intros M'; apply M; now apply ascii_heading_slugs].
    cbn [map]. unfold issue_chars. cbn [DV.line DV.severity DV.category
                                         DV.message].
    do 2 f_equal. unfold CodePoints.of_string.
    rewrite !map_id, !chars_app. reflexivity.
Qed.

End AsciiSlugs.

(** *** The code points below 256 as an alphabet *)

Lemma latin1_lower_char_twice c :
  latin1_lower_char (latin1_lower_char c) = latin1_lower_char c.
Proof. destruct c as [[] [] [] [] [] [] [] []]; reflexivity. Qed.

Lemma latin1_lower_laws :
  CodePoints.lower_laws ascii (fun c => c) latin1_lower.
Proof.
  split.
  - intros s c Hc. unfold CodePoints.lower_case, latin1_lower in *.
    cbn [map]. f_equal. apply in_map_iff in Hc as (d & <- & _).
    apply latin1_lower_char_twice.
  - intros s Hs. unfold latin1_lower.
    induction Hs as [|c t Hc _ IH]; [reflexivity|].
    cbn [map]. rewrite IH. f_equal.
    unfold CodePoints.lower_case, latin1_lower in Hc. cbn [map] in Hc.
    now injection Hc.
  - reflexivity.
Qed.

(** C6. For every heading text T and every document, over the code points
    of any alphabet: a link whose target is the slug of the text of a
    heading of the document is not flagged by validate_internal_links, and
    the issues of the links are those of the other links.  The slug keeps,
    in their order, the characters of the stripped text in lower case that
    are word characters, spaces or hyphens, with one hyphen for each run
    of spaces.  The classes of Python and str.lower are parameters, and of
    str.lower the statement uses that the characters that it gives are
    their own lower case, that a text of such characters is its own lower
    case, and that the hyphen is one of them. *)
Theorem C6_link_to_heading_slug_is_not_broken :
  forall (char : Type) `{Countable char} (of_ascii : ascii -> char)
         (is_space is_word : char -> bool)
         (lower : list char -> list char)
         (anchors : list char -> list (list char)),
    CodePoints.lower_laws char of_ascii lower ->
    forall (hs : list (CodePoints.Heading char))
           (lines : list (list char))
           (h : CodePoints.Heading char) (l : CodePoints.Link char),
      let slug :=
        CodePoints.slugify_heading char of_ascii is_space is_word lower
          (CodePoints.h_text h) in
      let issues :=
        CodePoints.validate_internal_links char of_ascii is_space is_word
          lower anchors hs in
      In h hs ->
      CodePoints.href l = CodePoints.hash char of_ascii :: slug ->
      slug
      = CodePoints.sub_runs char is_space [CodePoints.hyphen char of_ascii]
          false
          (List.filter
             (fun c =>
                is_word c || is_space c
                || bool_decide (c = CodePoints.hyphen char of_ascii))
             (lower (CodePoints.strip char is_space (CodePoints.h_text h))))
      /\ CodePoints.link_issue char of_ascii lower
           (CodePoints.heading_slugs char of_ascii is_space is_word lower
              anchors hs lines) l
         = []
      /\ forall before after,
          issues (before ++ l :: after) lines
          = issues (before ++ after) lines.
Proof.
  intros char EqD Cnt of_ascii is_space is_word lower anchors laws
         hs lines h l slug issues Hh Hl. subst slug issues.
  pose proof (link_to_slug_no_issue of_ascii is_space is_word lower anchors
                laws hs lines h l Hh Hl) as E.
  split; [|split; [exact E|]].
  - unfold CodePoints.slugify_heading. f_equal.
    unfold CodePoints.sub_class, CodePoints.slug_drops.
    induction (lower _) as [|c t IH]; [reflexivity|].
    cbn [flat_map List.filter]. rewrite IH.
    now destruct (is_word c || is_space c || bool_decide (c = _)).
  - intros before after. unfold CodePoints.validate_internal_links.
    rewrite !flat_map_app. cbn [flat_map]. now rewrite E.
Qed.

Lemma C6_link_to_heading_slug_is_not_broken_witness :
  let h := CodePoints.mkHeading 1 cafe_heading 1 in
  let l := CodePoints.mkLink (Text.chars "the menu")
             ("#"%char :: cafe_slug) 3 in
  let issues :=
    CodePoints.validate_internal_links ascii (fun c => c) latin1_is_space
      latin1_is_word latin1_lower ascii_anchors [h] in
  CodePoints.lower_laws ascii (fun c => c) latin1_lower
  /\ In h [h]
  /\ CodePoints.href l
     = "#"%char
       :: CodePoints.slugify_heading ascii (fun c => c) latin1_is_space
            latin1_is_word latin1_lower cafe_heading
  /\ CodePoints.slugify_heading ascii (fun c => c) latin1_is_space
       latin1_is_word latin1_lower cafe_heading
     = cafe_slug
  /\ CodePoints.link_issue ascii (fun c => c) latin1_lower
       (CodePoints.heading_slugs ascii (fun c => c) latin1_is_space
          latin1_is_word latin1_lower ascii_anchors [h] [])
       l
     = []
  /\ issues ([] ++ l :: []) [] = issues ([] ++ []) [].
Proof.
  intros h l issues.
  assert (Hh : In h [h]) by (now left).
  assert (Hl : CodePoints.href l
               = CodePoints.hash ascii (fun c => c)
                 :: CodePoints.slugify_heading ascii (fun c => c)
                      latin1_is_space latin1_is_word latin1_lower
                      (CodePoints.h_text h))
    by (vm_compute; reflexivity).
  destruct (C6_link_to_heading_slug_is_not_broken ascii (fun c => c)
              latin1_is_space latin1_is_word latin1_lower ascii_anchors
              latin1_lower_laws [h] [] h l Hh Hl) as (_ & H1 & H2).
  split; [exact latin1_lower_laws|]. split; [exact Hh|].
  split; [exact Hl|]. split; [vm_compute; reflexivity|].
  split; [exact H1|]. exact (H2 [] []).
Defined.

(** * Further properties *)

(** ** review-checklist.py: the order of the issues *)

Section SortedIssues.
Import RC.

Lemma insert_by_line_sorted x l :
  Sorted line_le l -> Sorted line_le (insert_by_line x l).
Proof.
  induction 1 as [|y t St IH Hd]; simpl.
  - repeat constructor.
  - destruct (Z.leb_spec (line x) (line y)).
    + constructor; [now constructor|]. now constructor.
    + constructor; [exact IH|].
      destruct t as [|z t]; simpl.
      * constructor. unfold line_le. lia.
      * destruct (Z.leb_spec (line x) (line z)).
        -- constructor. unfold line_le. lia.
        -- inversion Hd; subst. now constructor.
Qed.

Lemma sort_by_line_sorted l : Sorted line_le (sort_by_line l).
Proof.
  induction l as [|x t IH]; simpl; [constructor|].
  now apply insert_by_line_sorted.
Qed.

Lemma insert_by_line_on_line n x l :
  on_line n (insert_by_line x l) = on_line n (x :: l).
Proof.
  induction l as [|y t IH]; [reflexivity|]. simpl.
  destruct (Z.leb_spec (line x) (line y)); [reflexivity|].
  unfold on_line in *. simpl in *. rewrite IH.
  destruct (Z.eqb_spec (line y) n), (Z.eqb_spec (line x) n);
    try reflexivity. lia.
Qed.

Lemma sort_by_line_on_line n l : on_line n (sort_by_line l) = on_line n l.
Proof.
  induction l as [|x t IH]; [reflexivity|]. simpl.
  rewrite insert_by_line_on_line. unfold on_line in *. simpl.
  now rewrite IH.
Qed.

End SortedIssues.

(** X1. The issues that check_file reports are in the order of their
    lines, they are the issues that the rules found, each as often as it
    was found, and the issues of one line keep the order in which the rules
    found them. *)
Theorem X1_issues_sorted_by_line_stably :
  forall (filepath content : string),
    let result := RC.issues (RC.check_content filepath content) in
    Sorted line_le result
    /\ Permutation result (unsorted_issues content)
    /\ forall n, on_line n result = on_line n (unsorted_issues content).
Proof.
  intros filepath content result. split; [|split].
  - apply sort_by_line_sorted.
  - apply sort_by_line_perm.
  - intros n. apply sort_by_line_on_line.
Qed.

(** ** review-checklist.py: block comments and function spans *)

Section BlockComments.
Import RC.

Lemma lines_issues_inside inner : forall i rest,
  Forall no_comment_end inner ->
  lines_issues true i (inner ++ rest)
  = lines_issues true (i + Z.of_nat (length inner)) rest.
Proof.
  induction inner as [|l t IH]; intros i rest H.
  - simpl. now rewrite Z.add_0_r.
  - inversion H as [|? ? Hl Ht]; subst. unfold no_comment_end in Hl.
    cbn [app lines_issues]. rewrite Hl. cbn [negb].
    rewrite IH by exact Ht.
    destruct (Text.contains "/*" l); cbn [andb]; f_equal;
      rewrite length_cons; lia.
Qed.

End BlockComments.

(** X2. The rules on single lines report nothing in a block comment: from
    a line that opens a block comment without closing it, up to and
    including the next line with the end of a comment, no line gets an
    issue, and the lines behind are analysed with their own numbers. When
    no line closes the comment, no line from its opening on gets an
    issue. *)
Theorem X2_block_comments_are_skipped :
  forall (b : bool) (i : Z) (opening closing : string)
         (inner rest : list string),
    opens_comment opening ->
    Forall no_comment_end inner ->
    (Text.contains "*/" closing = true ->
     RC.lines_issues b i (opening :: inner ++ closing :: rest)
     = RC.lines_issues false (i + Z.of_nat (length inner) + 2) rest)
    /\ RC.lines_issues b i (opening :: inner) = [].
Proof.
  intros b i opening closing inner rest [Ho Hc] Hinner. split.
  - intros Hclose. cbn [RC.lines_issues]. rewrite Ho, Hc. cbn [negb andb].
    rewrite lines_issues_inside by exact Hinner.
    cbn [RC.lines_issues]. rewrite Hclose. cbn [negb andb].
    destruct (Text.contains "/*" closing); cbn [andb]; f_equal; lia.
  - cbn [RC.lines_issues]. rewrite Ho, Hc. cbn [negb andb].
    rewrite <- (app_nil_r inner), lines_issues_inside by exact Hinner.
    reflexivity.
Qed.

Lemma X2_block_comments_are_skipped_witness :
  let opening := "/* console.log(1)" in
  let inner := ["  TODO: later"] in
  let closing := "  end */ console.log(2)" in
  let rest := ["console.log(3)"] in
  opens_comment opening
  /\ Forall no_comment_end inner
  /\ Text.contains "*/" closing = true
  /\ RC.lines_issues false 1 (opening :: inner ++ closing :: rest)
     = RC.lines_issues false (1 + Z.of_nat (length inner) + 2) rest
  /\ RC.lines_issues false 1 (opening :: inner) = [].
Proof.
  intros opening inner closing rest.
  assert (Ho : opens_comment opening) by (split; reflexivity).
  assert (Hi : Forall no_comment_end inner) by (repeat constructor).
  assert (Hc : Text.contains "*/" closing = true) by reflexivity.
  destruct (X2_block_comments_are_skipped false 1 opening closing inner rest
              Ho Hi) as [H1 H2].
  split; [exact Ho|]. split; [exact Hi|]. split; [exact Hc|].
  split; [exact (H1 Hc) | exact H2].
Defined.

Section Spans.
Import RC.

Lemma depth_of_cons l ls :
  depth_of (l :: ls) = brace_delta l + depth_of ls.
Proof. reflexivity. Qed.

Lemma span_end_spec i ls : forall j depth k,
  span_end i j depth ls = Some k ->
  (i < k)%nat /\ (j <= k < j + length ls)%nat
  /\ depth + depth_of (take (S (k - j)) ls) <= 0
  /\ forall k', (i < k')%nat -> (j <= k' < k)%nat ->
       0 < depth + depth_of (take (S (k' - j)) ls).
Proof.
  induction ls as [|l t IH]; intros j depth k; cbn [span_end];
    [discriminate|].
  destruct (_ && _) eqn:E.
  - intros [= <-]. apply andb_true_iff in E as [E1 E2].
    apply Nat.ltb_lt in E2. apply Z.leb_le in E1.
    rewrite Nat.sub_diag. cbn [take]. rewrite take_0.
    cbn [depth_of foldr length].
    repeat split; try lia.
  - intros H. apply IH in H as (H1 & H2 & H3 & H4).
    repeat split; try (simpl; lia).
    + replace (S (k - j)) with (S (S (k - S j))) by lia.
      cbn [take]. rewrite depth_of_cons. lia.
    + intros k' Hi Hk. destruct (Nat.eq_dec k' j) as [->|Hne].
      * rewrite Nat.sub_diag. cbn [take]. rewrite take_0.
        cbn [depth_of foldr].
        apply andb_false_iff in E as [E|E].
        -- apply Z.leb_gt in E. lia.
        -- apply Nat.ltb_ge in E. lia.
      * specialize (H4 k' Hi ltac:(lia)).
        replace (S (k' - j)) with (S (S (k' - S j))) by lia.
        cbn [take]. rewrite depth_of_cons. lia.
Qed.

Lemma spans_from_spec ls : forall pre f,
  In f (spans_from (length pre) ls) ->
  let lines := pre ++ ls in
  let start := snd (fst f) in
  let end_ := snd f in
  (Z.of_nat (length pre) + 1 <= start < end_
   /\ end_ <= Z.of_nat (length lines))
  /\ depth_of (lines_between start end_ lines) <= 0
  /\ forall k, start < k < end_ ->
       0 < depth_of (lines_between start k lines).
Proof.
  induction ls as [|l t IH]; intros pre f; cbn [spans_from];
    [intros []|].
  intros H. apply in_app_or in H as [H|H].
  - destruct (Re.search FUNCTION_PATTERN l) as [m|]; [|destruct H].
    destruct (Text.contains "{" l); [|destruct H].
    destruct (span_end (length pre) (length pre) 0 (l :: t)) as [k|] eqn:E;
      [|destruct H].
    destruct H as [<-|[]]. apply span_end_spec in E as (H1 & H2 & H3 & H4).
    cbn [fst snd]. rewrite length_app. unfold lines_between.
    split; [simpl in *; lia|]. split.
    + replace (Z.to_nat (Z.of_nat (length pre) + 1 - 1)) with (length pre)
        by lia.
      rewrite drop_app_length.
      replace (Z.to_nat _) with (S (k - length pre)) by lia. lia.
    + intros k' Hk.
      replace (Z.to_nat (Z.of_nat (length pre) + 1 - 1)) with (length pre)
        by lia.
      rewrite drop_app_length.
      specialize (H4 (Z.to_nat (k' - 1)) ltac:(lia) ltac:(lia)).
      replace (Z.to_nat (k' - _ + 1))
        with (S (Z.to_nat (k' - 1) - length pre)) by lia. lia.
  - specialize (IH (pre ++ [l]) f). rewrite length_app in IH. simpl in IH.
    rewrite Nat.add_1_r in IH. specialize (IH H).
    rewrite <- app_assoc in IH. simpl in IH.
    destruct IH as (I1 & I2 & I3). repeat split; try lia; assumption.
Qed.

End Spans.

(** X3. A span that find_function_spans records lies in the file and has
    at least two lines: its first line is at least 1, its last line lies
    behind its first line and is at most the number of the lines. The
    braces of its lines, counted as they stand, close at its last line
    (the depth from the first line to the last is zero or below) and at no
    line between the first and the last. *)
Theorem X3_function_spans_close_their_braces :
  forall (lines : list string) (name : string) (start end_ : Z),
    In (name, start, end_) (RC.find_function_spans lines) ->
    (1 <= start < end_ /\ end_ <= Z.of_nat (length lines))
    /\ depth_of (lines_between start end_ lines) <= 0
    /\ forall k, start < k < end_ ->
         0 < depth_of (lines_between start k lines).
Proof.
  intros lines name start end_ H.
  apply (spans_from_spec lines [] (name, start, end_)) in H.
  cbn [app fst snd length] in H. exact H.
Qed.

Lemma X3_function_spans_close_their_braces_witness :
  let lines := ["function f() {"; "  if (x) {"; "  }"; "}"; "g();"] in
  In ("f", 1, 4) (RC.find_function_spans lines)
  /\ (1 <= 1 < 4 /\ 4 <= Z.of_nat (length lines))
  /\ depth_of (lines_between 1 4 lines) <= 0
  /\ 0 < depth_of (lines_between 1 3 lines).
Proof.
  intros lines.
  assert (H : In ("f", 1, 4) (RC.find_function_spans lines))
    by (vm_compute; left; reflexivity).
  destruct (X3_function_spans_close_their_braces lines "f" 1 4 H)
    as (H1 & H2 & H3).
  split; [exact H|]. split; [exact H1|]. split; [exact H2|].
  apply H3. lia.
Defined.

(** ** review-checklist.py: the summary of a report *)

Section Summary.

Lemma summary_from issues : forall counts rule,
  (forall r n, counts !! r = Some n -> 0 < n) ->
  let result := fold_left count_step issues counts in
  count_in rule result = count_in rule counts
                         + Z.of_nat (count_rule rule issues)
  /\ (forall r n, result !! r = Some n -> 0 < n)
  /\ total result = total counts + Z.of_nat (length issues).
Proof.
  induction issues as [|x t IH]; intros counts rule Hpos; cbn [fold_left].
  - cbn zeta. unfold count_rule. simpl. repeat split; try lia. exact Hpos.
  - assert (Hpos' : forall r n, count_step counts x !! r = Some n -> 0 < n).
    { intros r n. unfold count_step.
      destruct (decide (RC.rule x = r)) as [<-|Hne].
      - rewrite lookup_insert_eq. intros [= <-].
        destruct (counts !! RC.rule x) as [m|] eqn:E; simpl; [|lia].
        apply Hpos in E. lia.
      - rewrite lookup_insert_ne by exact Hne. apply Hpos. }
    destruct (IH (count_step counts x) rule Hpos') as (I1 & I2 & I3).
    cbn zeta. split; [|split; [exact I2|]].
    + rewrite I1. unfold count_in, count_step, count_rule.
      cbn [List.filter].
      destruct (String.eqb_spec (RC.rule x) rule) as [->|Hne].
      * rewrite lookup_insert_eq. simpl. lia.
      * rewrite lookup_insert_ne by exact Hne. lia.
    + rewrite I3. cbn [length].
      assert (T : total (count_step counts x) = total counts + 1).
      { unfold total, count_step.
        destruct (counts !! RC.rule x) as [m|] eqn:E.
        - change (default 0 (Some m)) with m. rewrite <- insert_delete_eq.
          rewrite map_fold_insert_L;
            [|intros; lia|apply lookup_delete_eq].
          rewrite (map_fold_delete_L _ _ (RC.rule x) m counts);
            [lia|intros; lia|exact E].
        - change (default 0 None) with 0.
          rewrite map_fold_insert_L; [lia|intros; lia|exact E]. }
      lia.
Qed.

End Summary.

(** X4. The summary of a report counts the issues by rule: a rule is a key
    of the dictionary exactly when the report has an issue of that rule,
    its value is the number of these issues, and the values add up to the
    number of all issues. *)
Theorem X4_summary_counts_issues_by_rule :
  forall (issues : list RC.Issue),
    (forall rule,
        summary issues !! rule
        = if Nat.eqb (count_rule rule issues) 0 then None
          else Some (Z.of_nat (count_rule rule issues)))
    /\ total (summary issues) = Z.of_nat (length issues).
Proof.
  intros issues.
  assert (E : forall r n, (∅ : gmap string Z) !! r = Some n -> 0 < n).
  { intros r n. rewrite lookup_empty. discriminate. }
  split.
  - intros rule.
    destruct (summary_from issues ∅ rule E) as (H1 & H2 & _).
    fold (summary issues) in H1, H2. unfold count_in in H1.
    rewrite lookup_empty in H1. cbn [from_option id] in H1.
    destruct (summary issues !! rule) as [n|] eqn:L;
      cbn [from_option id] in H1.
    + apply H2 in L. destruct (Nat.eqb_spec (count_rule rule issues) 0).
      * lia.
      * f_equal. lia.
    + destruct (Nat.eqb_spec (count_rule rule issues) 0); [reflexivity|lia].
  - destruct (summary_from issues ∅ "" E) as (_ & _ & H3).
    fold (summary issues) in H3. rewrite H3. unfold total.
    now rewrite map_fold_empty.
Qed.

(** ** doc-structure-validator.py: severities, score and strict mode *)

Section DocSeverities.
Import DV.

Lemma hierarchy_issues_errors hs : forall prev,
  Forall (fun i => severity i = "error") (hierarchy_issues prev hs).
Proof.
  induction hs as [|h t IH]; intros prev; cbn [hierarchy_issues];
    [constructor|].
  apply Forall_app. split; [|apply IH].
  destruct (_ && _); repeat constructor.
Qed.

Lemma known_of_error l :
  Forall (fun i => severity i = "error") l -> Forall known_severity l.
Proof. apply List.Forall_impl. intros i H. now left. Qed.

Lemma known_of_warning l :
  Forall (fun i => severity i = "warning") l -> Forall known_severity l.
Proof. apply List.Forall_impl. intros i H. right. now left. Qed.

Lemma markers_from_info lines : forall b i,
  Forall (fun x => severity x = "info") (markers_from b i lines).
Proof.
  induction lines as [|l t IH]; intros b i; cbn [markers_from];
    [constructor|].
  destruct (is_fence (Text.strip l)); [apply IH|].
  destruct b; [apply IH|].
  apply Forall_app. split; [|apply IH].
  apply Forall_map_const. reflexivity.
Qed.

Lemma validate_content_known file_path content :
  Forall known_severity (issues (validate_content file_path content)).
Proof.
  unfold validate_content.
  destruct (parse_document _) as [[[hs cbs] imgs] ls].
  unfold validate_empty_sections. cbn [issues].
  repeat (apply Forall_app; split).
  - unfold validate_heading_hierarchy. destruct hs as [|h t].
    + constructor; [right; now left | constructor].
    + apply known_of_error, hierarchy_issues_errors.
  - apply known_of_warning. unfold empty_section_issues.
    apply Forall_flat_map. intros s.
    destruct (_ =? _); repeat constructor.
  - apply known_of_error. unfold validate_internal_links.
    apply Forall_flat_map. intros l. unfold link_issue.
    destruct (Text.startswith _ _); [|constructor].
    destruct (bool_decide _); repeat constructor.
  - unfold validate_code_blocks. apply Forall_flat_map. intros cb.
    unfold code_block_issue. destruct (cb_unclosed cb).
    + constructor; [now left | constructor].
    + destruct (cb_lang cb) as [[|? ?]|];
        try (constructor; [right; now left | constructor]); constructor.
  - apply known_of_warning. unfold validate_images.
    apply Forall_flat_map. intros img.
    destruct (String.eqb _ _); repeat constructor.
  - eapply List.Forall_impl; [|apply markers_from_info].
    intros i H. right. now right.
Qed.

Lemma validate_document_known fs file_path r :
  validate_document fs file_path = Return r ->
  Forall known_severity (issues r).
Proof.
  unfold validate_document. destruct (fs file_path); try discriminate.
  - intros [= <-]. constructor; [now left | constructor].
  - intros [= <-]. apply validate_content_known.
Qed.

Lemma counts_add_up l :
  Forall known_severity l ->
  count_severity "error" l + count_severity "warning" l
    + count_severity "info" l
  = Z.of_nat (length l).
Proof.
  unfold count_severity.
  induction 1 as [|x t Hx _ IH]; [reflexivity|].
  cbn [List.filter length].
  destruct Hx as [E|[E|E]]; rewrite E; cbn [String.eqb Ascii.eqb Bool.eqb];
    cbn [length]; lia.
Qed.

Lemma count_severity_nonneg s l : 0 <= count_severity s l.
Proof. unfold count_severity. lia. Qed.

End DocSeverities.

(** X5. A report of validate_document has only issues of the severities
    error, warning and info, so that the three counts of the report add up
    to the number of its issues; its quality score lies between 0 and 100,
    it is 100 exactly when the report has no issue, and it is 0 exactly
    when ten times the errors, three times the warnings and the infos add
    up to 100 or more. *)
Theorem X5_quality_score :
  forall (fs : string -> entry) (file_path : string)
         (r : DV.ValidationReport),
    DV.validate_document fs file_path = Return r ->
    Forall known_severity (DV.issues r)
    /\ DV.error_count r + DV.warning_count r + DV.info_count r
       = Z.of_nat (length (DV.issues r))
    /\ 0 <= score r <= 100
    /\ (score r = 100 <-> DV.issues r = [])
    /\ (score r = 0
        <-> 100 <= 10 * DV.error_count r + 3 * DV.warning_count r
                     + DV.info_count r).
Proof.
  intros fs file_path r H.
  pose proof (validate_document_known fs file_path r H) as K.
  pose proof (counts_add_up _ K) as S.
  pose proof (count_severity_nonneg "error" (DV.issues r)) as He.
  pose proof (count_severity_nonneg "warning" (DV.issues r)) as Hw.
  pose proof (count_severity_nonneg "info" (DV.issues r)) as Hi.
  unfold score, DV.error_count, DV.warning_count, DV.info_count.
  split; [exact K|]. split; [exact S|]. split; [lia|]. split; [|lia].
  split.
  - intros E. destruct (DV.issues r) as [|x t]; [reflexivity|].
    cbn [length] in S. lia.
  - intros E. rewrite E in *. unfold DV.count_severity. simpl. lia.
Qed.

Lemma X5_quality_score_witness :
  let r := DV.validate_content "docs/a.md" sample_document in
  DV.validate_document sample_fs "docs/a.md" = Return r
  /\ Forall known_severity (DV.issues r)
  /\ DV.error_count r + DV.warning_count r + DV.info_count r
     = Z.of_nat (length (DV.issues r))
  /\ 0 <= score r <= 100
  /\ (score r = 100 <-> DV.issues r = [])
  /\ (score r = 0
      <-> 100 <= 10 * DV.error_count r + 3 * DV.warning_count r
                   + DV.info_count r).
Proof.
  intros r.
  assert (H : DV.validate_document sample_fs "docs/a.md" = Return r)
    by reflexivity.
  split; [exact H|].
  exact (X5_quality_score sample_fs "docs/a.md" r H).
Defined.

Section StrictMode.

Lemma count_severity_pos s l :
  (DV.count_severity s l >? 0) = true
  <-> exists i, In i l /\ DV.severity i = s.
Proof.
  unfold DV.count_severity. rewrite count_pos, existsb_exists.
  split; intros (i & Hi & E); exists i; (split; [exact Hi|]);
    now apply String.eqb_eq.
Qed.

Lemma total_pos (count : DV.ValidationReport -> Z) s reports :
  (forall r, count r = DV.count_severity s (DV.issues r)) ->
  (DV.sum_Z (map count reports) >? 0) = true
  <-> exists r i, In r reports /\ In i (DV.issues r) /\ DV.severity i = s.
Proof.
  intros Hc. rewrite sum_pos.
  - rewrite existsb_exists. split.
    + intros (z & Hz & E). apply in_map_iff in Hz as (r & <- & Hr).
      rewrite Hc in E. apply count_severity_pos in E as (i & Hi & E).
      now exists r, i.
    + intros (r & i & Hr & Hi & E). exists (count r).
      split; [now apply in_map|]. rewrite Hc.
      apply count_severity_pos. now exists i.
  - apply Forall_map_const. intros r. rewrite Hc.
    unfold DV.count_severity. lia.
Qed.

End StrictMode.

(** X6. With [--fail-on-warnings], a run of doc-structure-validator.py
    that validates its files ends with the exit status 1 exactly when some
    report has an issue of the severity error or warning, and with the
    exit status 0 otherwise: issues of the severity info never fail a
    run. *)
Theorem X6_strict_mode_fails_on_warnings :
  forall (fs : string -> entry) (args : DV.Args) (files : list string)
         (reports : list DV.ValidationReport),
    DV.fail_on_warnings args = true ->
    DV.targets fs args = Return files ->
    DV.validate_all fs files = Return reports ->
    (exit_status (DV.main fs args) = 1
     <-> exists r i,
         In r reports /\ In i (DV.issues r) /\ error_or_warning_issue i)
    /\ (exit_status (DV.main fs args) = 0
        \/ exit_status (DV.main fs args) = 1).
Proof.
  intros fs args files reports Hs Ht Hv.
  unfold DV.main. rewrite Ht. cbn [bind]. rewrite Hv. cbn [bind].
  rewrite Hs. cbn [andb].
  pose proof (total_pos DV.error_count "error" reports
                (fun r => eq_refl)) as He.
  pose proof (total_pos DV.warning_count "warning" reports
                (fun r => eq_refl)) as Hw.
  fold (DV.total_errors reports) in He.
  fold (DV.total_warnings reports) in Hw.
  unfold error_or_warning_issue.
  destruct (DV.total_errors reports >? 0).
  - split; [|now right]. split; [intros _|reflexivity].
    destruct (proj1 He eq_refl) as (r & i & Hr & Hi & E).
    exists r, i. auto.
  - destruct (DV.total_warnings reports >? 0).
    + split; [|now right]. split; [intros _|reflexivity].
      destruct (proj1 Hw eq_refl) as (r & i & Hr & Hi & E).
      exists r, i. auto.
    + split; [|now left]. cbn [exit_status]. split; [discriminate|].
      intros (r & i & Hr & Hi & [E|E]).
      * assert (false = true) by (apply He; now exists r, i).
        discriminate.
      * assert (false = true) by (apply Hw; now exists r, i).
        discriminate.
Qed.

Lemma X6_strict_mode_fails_on_warnings_witness :
  let args := DV.mkArgs "w.md" false false true in
  let reports := [DV.validate_content "w.md" "# Title"] in
  DV.fail_on_warnings args = true
  /\ DV.targets warning_fs args = Return ["w.md"]
  /\ DV.validate_all warning_fs ["w.md"] = Return reports
  /\ (exit_status (DV.main warning_fs args) = 1
      <-> exists r i,
          In r reports /\ In i (DV.issues r) /\ error_or_warning_issue i)
  /\ (exit_status (DV.main warning_fs args) = 0
      \/ exit_status (DV.main warning_fs args) = 1)
  /\ exit_status (DV.main warning_fs args) = 1
  /\ exit_status (DV.main warning_fs (DV.mkArgs "w.md" false false false))
     = 0.
Proof.
  intros args reports.
  assert (Ht : DV.targets warning_fs args = Return ["w.md"]) by reflexivity.
  assert (Hv : DV.validate_all warning_fs ["w.md"] = Return reports)
    by reflexivity.
  destruct (X6_strict_mode_fails_on_warnings warning_fs args ["w.md"]
              reports eq_refl Ht Hv) as [H1 H2].
  split; [reflexivity|]. split; [exact Ht|]. split; [exact Hv|].
  split; [exact H1|]. split; [exact H2|].
  split; vm_compute; reflexivity.
Defined.

(** ** doc-structure-validator.py: fenced code *)

Section FencedCode.
Import DV.

Lemma markers_from_inside inner : forall i rest,
  Forall not_fence inner ->
  markers_from true i (inner ++ rest)
  = markers_from true (i + Z.of_nat (length inner)) rest.
Proof.
  induction inner as [|l t IH]; intros i rest H.
  - simpl. now rewrite Z.add_0_r.
  - inversion H as [|? ? Hl Ht]; subst. unfold not_fence in Hl.
    cbn [app markers_from]. rewrite Hl, IH by exact Ht.
    f_equal. rewrite length_cons. lia.
Qed.

Lemma word_lines_inside inner : forall rest,
  Forall not_fence inner ->
  word_lines true (inner ++ rest) = word_lines true rest.
Proof.
  induction inner as [|l t IH]; intros rest H; [reflexivity|].
  inversion H as [|? ? Hl Ht]; subst. unfold not_fence in Hl.
  cbn [app word_lines]. rewrite Hl. now apply IH.
Qed.

Lemma content_lines_inside inner : forall rest,
  Forall not_fence inner ->
  content_lines true (inner ++ rest) = content_lines true rest.
Proof.
  induction inner as [|l t IH]; intros rest H; [reflexivity|].
  inversion H as [|? ? Hl Ht]; subst. unfold not_fence in Hl.
  cbn [app content_lines]. rewrite Hl. cbn [negb andb]. now apply IH.
Qed.

End FencedCode.

(** X7. parse_document takes nothing from fenced code: when a fence is
    opened outside a code block, and the lines up to the next fence line
    are given, the headings, images and links that were found stay as
    they are, whatever these lines hold, the block is recorded once, as
    closed, with the line of its opening fence, the line of its closing
    fence and the language of its opening fence, and the lines behind
    the closing fence are parsed outside a code block. *)
Theorem X7_fenced_code_is_not_parsed :
  forall (p : DV.parser) (i : Z) (opening closing : string)
         (inner rest : list string),
    DV.in_code_block p = false ->
    fence opening -> Forall not_fence inner -> fence closing ->
    let j := i + Z.of_nat (length inner) + 1 in
    DV.parse_lines p i (opening :: inner ++ closing :: rest)
    = DV.parse_lines (after_fence p i j opening) (j + 1) rest.
Proof.
  intros p i opening closing inner rest Hp Ho Hi Hc j.
  unfold fence in Ho, Hc. cbn [DV.parse_lines]. unfold DV.parse_line at 1.
  rewrite Ho, Hp. cbn [negb].
  rewrite parse_lines_app.
  rewrite (parse_lines_inside inner) by (reflexivity || exact Hi).
  cbn [DV.parse_lines]. unfold DV.parse_line at 1.
  rewrite Hc. cbn [DV.in_code_block negb DV.headings DV.code_blocks
                     DV.images DV.links DV.code_block_start
                     DV.code_block_lang].
  unfold after_fence, j.
  replace (i + 1 + Z.of_nat (length inner))
    with (i + Z.of_nat (length inner) + 1) by lia.
  reflexivity.
Qed.

Lemma X7_fenced_code_is_not_parsed_witness :
  let opening := "```python" in
  let inner := ["# no heading"; "![no](image.png) [no](#link)"] in
  let closing := "```" in
  let rest := ["# Heading"] in
  DV.in_code_block initial_parser = false
  /\ fence opening /\ Forall not_fence inner /\ fence closing
  /\ DV.parse_lines initial_parser 1 (opening :: inner ++ closing :: rest)
     = DV.parse_lines (after_fence initial_parser 1 4 opening) 5 rest
  /\ DV.parse_document (opening :: inner ++ closing :: rest)
     = ([DV.mkHeading 1 "Heading" 5],
        [DV.mkCodeBlock 1 4 (Some "python") false], [], []).
Proof.
  intros opening inner closing rest.
  assert (Ho : fence opening) by reflexivity.
  assert (Hi : Forall not_fence inner) by (repeat constructor).
  assert (Hc : fence closing) by reflexivity.
  split; [reflexivity|]. split; [exact Ho|]. split; [exact Hi|].
  split; [exact Hc|]. split.
  - exact (X7_fenced_code_is_not_parsed initial_parser 1 opening closing
             inner rest eq_refl Ho Hi Hc).
  - vm_compute. reflexivity.
Defined.

(** X8. The scans for markers, for the words of the document and for the
    content of a section take nothing from fenced code either: a fence
    that is opened outside a code block, the lines up to the next fence
    line and that line add no marker, no line to the count of the words
    and no content to a section, and the lines behind them are scanned
    outside a code block with their own numbers. A section that holds
    nothing but a fenced block has no content. *)
Theorem X8_fenced_code_is_not_scanned :
  forall (i : Z) (opening closing : string) (inner rest : list string),
    fence opening -> Forall not_fence inner -> fence closing ->
    let lines := opening :: inner ++ closing :: rest in
    DV.markers_from false i lines
    = DV.markers_from false (i + Z.of_nat (length inner) + 2) rest
    /\ DV.word_lines false lines = DV.word_lines false rest
    /\ DV.content_lines false lines = DV.content_lines false rest.
Proof.
  intros i opening closing inner rest Ho Hi Hc lines.
  unfold fence in Ho, Hc. subst lines. split; [|split].
  - cbn [DV.markers_from]. rewrite Ho. cbn [negb].
    rewrite markers_from_inside by exact Hi.
    cbn [DV.markers_from]. rewrite Hc. cbn [negb]. f_equal. lia.
  - cbn [DV.word_lines]. rewrite Ho. cbn [negb].
    rewrite word_lines_inside by exact Hi.
    cbn [DV.word_lines]. now rewrite Hc.
  - cbn [DV.content_lines]. rewrite Ho. cbn [negb].
    rewrite content_lines_inside by exact Hi.
    cbn [DV.content_lines]. now rewrite Hc.
Qed.

Lemma X8_fenced_code_is_not_scanned_witness :
  let opening := "```text" in
  let inner := ["TODO: not a marker"; "words in code"] in
  let closing := "```" in
  let rest := ["FIXME later"] in
  let lines := opening :: inner ++ closing :: rest in
  fence opening /\ Forall not_fence inner /\ fence closing
  /\ DV.markers_from false 1 lines
     = DV.markers_from false (1 + Z.of_nat (length inner) + 2) rest
  /\ DV.word_lines false lines = DV.word_lines false rest
  /\ DV.content_lines false lines = DV.content_lines false rest
  /\ map DV.line (DV.validate_markers lines) = [5].
Proof.
  intros opening inner closing rest lines.
  assert (Ho : fence opening) by reflexivity.
  assert (Hi : Forall not_fence inner) by (repeat constructor).
  assert (Hc : fence closing) by reflexivity.
  destruct (X8_fenced_code_is_not_scanned 1 opening closing inner rest
              Ho Hi Hc) as (H1 & H2 & H3).
  split; [exact Ho|]. split; [exact Hi|]. split; [exact Hc|].
  split; [exact H1|]. split; [exact H2|]. split; [exact H3|].
  vm_compute. reflexivity.
Defined.

(** ** doc-structure-validator.py: the hierarchy of the headings *)

Section Hierarchy.
Import DV.

Lemma hierarchy_issues_lines hs : forall prev n,
  In n (map line (hierarchy_issues prev hs))
  <-> (exists b, head hs = Some b /\ 0 < prev /\ prev + 1 < h_level b
                 /\ h_line b = n)
      \/ (exists k a b, hs !! k = Some a /\ hs !! S k = Some b
                        /\ skips_level a b /\ h_line b = n).
Proof.
  induction hs as [|h t IH]; intros prev n.
  - simpl. split; [intros []|].
    intros [(b & H & _)|(k & a & b & H & _)]; discriminate.
  - cbn [hierarchy_issues]. rewrite map_app, in_app_iff, IH. split.
    + intros [H|[H|H]].
      * left. exists h. 
        destruct (prev >? 0) eqn:E1; [|destruct H].
        destruct (h_level h >? prev + 1) eqn:E2; [|destruct H].
        destruct H as [<-|[]]. cbn. repeat split; lia.
      * right. destruct H as (b & Hb & H1 & H2 & H3).
        exists 0%nat, h, b. destruct t as [|b' t']; [discriminate|].
        injection Hb as ->. repeat split; assumption.
      * right. destruct H as (k & a & b & Ha & Hb & H).
        exists (S k), a, b. auto.
    + intros [(b & Hb & H1 & H2 & H3)|(k & a & b & Ha & Hb & Hs & Hn)].
      * left. injection Hb as ->.
        destruct (Z.gtb_spec prev 0); [|lia].
        destruct (Z.gtb_spec (h_level b) (prev + 1)); [|lia].
        left. exact H3.
      * right. destruct k as [|k].
        -- left. injection Ha as ->. exists b.
           destruct t as [|b' t']; [discriminate|]. injection Hb as ->.
           destruct Hs. auto.
        -- right. exists k, a, b. auto.
Qed.

End Hierarchy.

(** X9. validate_heading_hierarchy reports a heading exactly when it lies
    more than one level below the heading directly before it: the lines
    of its issues are the lines of these headings, and its issues are
    errors of the category heading-hierarchy. The first heading is taken
    as it is, whatever its level, and a heading that goes up by any
    number of levels is never reported. *)
Theorem X9_heading_hierarchy :
  forall (hs : list DV.Heading),
    hs <> [] ->
    (forall n,
        In n (map DV.line (DV.validate_heading_hierarchy hs))
        <-> exists k a b,
            hs !! k = Some a /\ hs !! S k = Some b
            /\ skips_level a b /\ DV.h_line b = n)
    /\ Forall (fun i => DV.severity i = "error"
                        /\ DV.category i = "heading-hierarchy")
         (DV.validate_heading_hierarchy hs).
Proof.
  intros hs Hne. destruct hs as [|h t]; [now destruct Hne|].
  unfold DV.validate_heading_hierarchy. split.
  - intros n. rewrite hierarchy_issues_lines. split.
    + intros [(b & _ & H & _)|H]; [lia|exact H].
    + intros H. now right.
  - generalize 0 (h :: t). intros prev hs. revert prev.
    induction hs as [|x l IH]; intros prev; cbn [DV.hierarchy_issues];
      [constructor|].
    apply Forall_app. split; [|apply IH].
    destruct (_ && _); repeat constructor.
Qed.

Lemma X9_heading_hierarchy_witness :
  let hs := [ DV.mkHeading 3 "Start" 1; DV.mkHeading 1 "Title" 3;
              DV.mkHeading 3 "Deep" 5; DV.mkHeading 2 "Up" 7 ] in
  hs <> []
  /\ (In 5 (map DV.line (DV.validate_heading_hierarchy hs))
      <-> exists k a b,
          hs !! k = Some a /\ hs !! S k = Some b
          /\ skips_level a b /\ DV.h_line b = 5)
  /\ Forall (fun i => DV.severity i = "error"
                      /\ DV.category i = "heading-hierarchy")
       (DV.validate_heading_hierarchy hs)
  /\ map DV.line (DV.validate_heading_hierarchy hs) = [5].
Proof.
  intros hs.
  assert (Hne : hs <> []) by discriminate.
  destruct (X9_heading_hierarchy hs Hne) as [H1 H2].
  split; [exact Hne|]. split; [exact (H1 5)|]. split; [exact H2|].
  reflexivity.
Defined.

(** ** quality-gate.py: the counters of the report *)

Section Counters.
Import QG.
Variable fs : string -> entry.
Variable ast_parse : string -> string -> parsed.

Lemma fold_keeps {A} (proj : Report -> Z) (step : Report -> A -> Report)
  (l : list A) :
  (forall r x, proj (step r x) = proj r) ->
  forall r, proj (fold_left step l r) = proj r.
Proof.
  intros H. induction l as [|x t IH]; intros r; [reflexivity|].
  cbn [fold_left]. now rewrite IH, H.
Qed.

Lemma fold_counts {A} (proj : Report -> Z) (step : Report -> A -> Report)
  (w : A -> bool) (l : list A) :
  (forall r x, proj (step r x) = proj r + (if w x then 1 else 0)) ->
  forall r,
    proj (fold_left step l r) = proj r + Z.of_nat (length (List.filter w l)).
Proof.
  intros H. induction l as [|x t IH]; intros r; cbn [fold_left List.filter].
  - simpl. lia.
  - rewrite IH, H. destruct (w x); cbn [length]; lia.
Qed.

Lemma check_arg_keeps (proj : Report -> Z) fp name lineno :
  (forall r f l c m s, proj (add r f l c m s) = proj r) ->
  forall r x, proj (check_arg fp name lineno r x) = proj r.
Proof.
  intros H r x. unfold check_arg.
  destruct (_ || _); [reflexivity|]. destruct (is_none _); [apply H|].
  reflexivity.
Qed.

Lemma type_hints_node_functions fp r n :
  functions_checked (type_hints_node fp r n)
  = functions_checked r + (if is_public_function n then 1 else 0).
Proof.
  destruct n; cbn [type_hints_node is_public_function]; try lia.
  destruct (is_private name); cbn [negb]; [lia|].
  assert (E : forall l r0,
             functions_checked (fold_left (check_arg fp name lineno) l r0)
             = functions_checked r0).
  { intros l. apply fold_keeps. apply check_arg_keeps. reflexivity. }
  destruct (_ && _); [cbn [add functions_checked]|]; now rewrite E.
Qed.

Lemma type_hints_node_keeps (proj : Report -> Z) fp :
  (forall r f l c m s, proj (add r f l c m s) = proj r) ->
  (forall r, proj (bump_functions r) = proj r) ->
  forall r n, proj (type_hints_node fp r n) = proj r.
Proof.
  intros Ha Hb r n. destruct n; cbn [type_hints_node]; try reflexivity.
  destruct (is_private name); [reflexivity|].
  assert (E : forall l r0,
             proj (fold_left (check_arg fp name lineno) l r0) = proj r0).
  { intros l. apply fold_keeps. now apply check_arg_keeps. }
  destruct (_ && _); [rewrite Ha|]; now rewrite E, Hb.
Qed.

Lemma docstrings_node_classes fp r n :
  classes_checked (docstrings_node fp r n)
  = classes_checked r + (if is_class n then 1 else 0).
Proof.
  destruct n; cbn [docstrings_node is_class]; try lia.
  - destruct (is_private name); [lia|].
    destruct (no_docstring _); cbn; lia.
  - destruct (no_docstring _); reflexivity.
Qed.

Lemma docstrings_node_keeps (proj : Report -> Z) fp :
  (forall r f l c m s, proj (add r f l c m s) = proj r) ->
  (forall r, proj (bump_classes r) = proj r) ->
  forall r n, proj (docstrings_node fp r n) = proj r.
Proof.
  intros Ha Hb r n. destruct n; cbn [docstrings_node]; try reflexivity.
  - destruct (is_private name); [reflexivity|].
    destruct (no_docstring _); [apply Ha|reflexivity].
  - destruct (no_docstring _); [rewrite Ha|]; apply Hb.
Qed.

Lemma scan_imports_keeps (proj : Report -> Z) fp imports :
  (forall r f l c m s, proj (add r f l c m s) = proj r) ->
  forall prev r, proj (scan_imports fp prev imports r) = proj r.
Proof.
  intros Ha. induction imports as [|[[lineno g] name] t IH]; intros prev r;
    cbn [scan_imports]; [reflexivity|].
  rewrite IH. destruct (_ <? _); [apply Ha|reflexivity].
Qed.

Lemma function_length_node_keeps (proj : Report -> Z) fp :
  (forall r f l c m s, proj (add r f l c m s) = proj r) ->
  forall r n, proj (function_length_node fp r n) = proj r.
Proof.
  intros Ha r n. destruct n; cbn [function_length_node]; try reflexivity.
  destruct end_lineno; [|reflexivity].
  destruct (_ >? _); [apply Ha|reflexivity].
Qed.

Lemma check_target_keeps (proj : Report -> Z) fp lineno :
  (forall r f l c m s, proj (add r f l c m s) = proj r) ->
  forall r x, proj (check_target fp lineno r x) = proj r.
Proof.
  intros Ha r x. destruct x; cbn [check_target]; [|reflexivity].
  destruct (iskeyword _); [reflexivity|].
  destruct (matches UPPER_SNAKE _); [reflexivity|].
  destruct (negb _); [apply Ha|reflexivity].
Qed.

Lemma naming_node_keeps (proj : Report -> Z) fp :
  (forall r f l c m s, proj (add r f l c m s) = proj r) ->
  forall r n, proj (naming_node fp r n) = proj r.
Proof.
  intros Ha r n. destruct n; cbn [naming_node]; try reflexivity.
  - destruct (negb _); [apply Ha|reflexivity].
  - destruct (negb _); [apply Ha|reflexivity].
  - apply fold_keeps. now apply check_target_keeps.
Qed.

Lemma run_checks_counters tree fp r :
  files_checked (run_checks tree fp r) = files_checked r + 1
  /\ functions_checked (run_checks tree fp r)
     = functions_checked r + count_nodes is_public_function tree
  /\ classes_checked (run_checks tree fp r)
     = classes_checked r + count_nodes is_class tree.
Proof.
  unfold run_checks, check_naming, check_function_length,
    check_import_organization, check_docstrings, check_type_hints,
    count_nodes.
  split; [|split].
  - rewrite (fold_keeps files_checked)
      by (apply naming_node_keeps; reflexivity).
    rewrite (fold_keeps files_checked)
      by (apply function_length_node_keeps; reflexivity).
    rewrite (scan_imports_keeps files_checked) by reflexivity.
    rewrite (fold_keeps files_checked)
      by (apply docstrings_node_keeps; reflexivity).
    destruct (no_docstring _); [cbn [add files_checked]|];
      rewrite (fold_keeps files_checked)
        by (apply type_hints_node_keeps; reflexivity);
      reflexivity.
  - rewrite (fold_keeps functions_checked)
      by (apply naming_node_keeps; reflexivity).
    rewrite (fold_keeps functions_checked)
      by (apply function_length_node_keeps; reflexivity).
    rewrite (scan_imports_keeps functions_checked) by reflexivity.
    rewrite (fold_keeps functions_checked)
      by (apply docstrings_node_keeps; reflexivity).
    destruct (no_docstring _); [cbn [add functions_checked]|];
      rewrite (fold_counts functions_checked _ is_public_function)
        by (apply type_hints_node_functions);
      reflexivity.
  - rewrite (fold_keeps classes_checked)
      by (apply naming_node_keeps; reflexivity).
    rewrite (fold_keeps classes_checked)
      by (apply function_length_node_keeps; reflexivity).
    rewrite (scan_imports_keeps classes_checked) by reflexivity.
    rewrite (fold_counts classes_checked _ is_class)
      by (apply docstrings_node_classes).
    destruct (no_docstring _); [cbn [add classes_checked]|];
      rewrite (fold_keeps classes_checked)
        by (apply type_hints_node_keeps; reflexivity);
      reflexivity.
Qed.

Lemma analyze_file_files f r r' :
  analyze_file fs ast_parse f r = Return r' ->
  files_checked r'
  = files_checked r + (if parses fs ast_parse f then 1 else 0).
Proof.
  unfold analyze_file, parses, read_text.
  destruct (fs f) as [|source|exc|files];
    try (intros [= <-]; cbn [add files_checked]; lia).
  destruct (ast_parse source f) as [tree|lineno msg|exc];
    [| |discriminate]; intros [= <-].
  - apply run_checks_counters.
  - cbn [add files_checked]. lia.
Qed.

Lemma analyze_files_files files : forall r r',
  analyze_files fs ast_parse files r = Return r' ->
  files_checked r'
  = files_checked r
    + Z.of_nat (length (List.filter (parses fs ast_parse) files)).
Proof.
  induction files as [|f t IH]; intros r r';
    cbn [analyze_files List.filter].
  - intros [= <-]. cbn [length]. lia.
  - destruct (analyze_file fs ast_parse f r) as [r1| |] eqn:E;
      cbn [bind]; try discriminate.
    intros H. apply IH in H. apply analyze_file_files in E.
    rewrite H, E. destruct (parses fs ast_parse f); cbn [length]; lia.
Qed.

End Counters.

(** X10. The counters of the report of quality-gate.py. A file that is
    read and parsed adds one to the files, the number of its functions
    that are not private to the functions, and the number of its classes,
    private or not, to the classes, wherever these nodes lie in the
    file; over a run that no exception ends, the files that are counted
    are those that were read and parsed. *)
Theorem X10_counters_of_the_report :
  forall (fs : string -> entry) (ast_parse : string -> string -> QG.parsed),
    (forall f source tree r,
        fs f = File source ->
        ast_parse source f = QG.Tree tree ->
        exists r',
          QG.analyze_file fs ast_parse f r = Return r'
          /\ QG.files_checked r' = QG.files_checked r + 1
          /\ QG.functions_checked r'
             = QG.functions_checked r + count_nodes is_public_function tree
          /\ QG.classes_checked r'
             = QG.classes_checked r + count_nodes is_class tree)
    /\ (forall files,
          crash_free fs ast_parse files ->
          exists r,
            QG.analyze_all fs ast_parse files = Return r
            /\ QG.files_checked r
               = Z.of_nat
                   (length (List.filter (parses fs ast_parse) files))).
Proof.
  intros fs ast_parse. split.
  - intros f source tree r Hf Hp.
    exists (QG.run_checks tree f r). split.
    + unfold QG.analyze_file, QG.read_text. now rewrite Hf, Hp.
    + apply run_checks_counters.
  - intros files F.
    destruct (analyze_all_returns fs ast_parse files F) as [r Hr].
    exists r. split; [exact Hr|].
    apply analyze_files_files in Hr. rewrite Hr. reflexivity.
Qed.

Lemma X10_counters_of_the_report_witness :
  let tree := QG.mkModule [private_class; private_function; sample_function]
                None in
  let parse := fun _ _ : string => QG.Tree tree in
  let files := ["src/bad.py"; "src/a.py"] in
  sample_fs "src/a.py" = File "def f(x): pass"
  /\ parse "def f(x): pass" "src/a.py" = QG.Tree tree
  /\ (exists r',
         QG.analyze_file sample_fs parse "src/a.py" QG.empty_report
         = Return r'
         /\ QG.files_checked r' = QG.files_checked QG.empty_report + 1
         /\ QG.functions_checked r'
            = QG.functions_checked QG.empty_report
              + count_nodes is_public_function tree
         /\ QG.classes_checked r'
            = QG.classes_checked QG.empty_report + count_nodes is_class tree)
  /\ count_nodes is_public_function tree = 1
  /\ count_nodes is_class tree = 1
  /\ crash_free sample_fs sample_parse files
  /\ (exists r,
         QG.analyze_all sample_fs sample_parse files = Return r
         /\ QG.files_checked r
            = Z.of_nat
                (length (List.filter (parses sample_fs sample_parse) files)))
  /\ Z.of_nat (length (List.filter (parses sample_fs sample_parse) files))
     = 1.
Proof.
  intros tree parse files.
  destruct (X10_counters_of_the_report sample_fs parse) as [H _].
  destruct (X10_counters_of_the_report sample_fs sample_parse) as [_ H'].
  assert (F : crash_free sample_fs sample_parse files)
    by (repeat constructor).
  split; [reflexivity|]. split; [reflexivity|].
  split; [exact (H "src/a.py" "def f(x): pass" tree QG.empty_report
                   eq_refl eq_refl)|].
  split; [reflexivity|]. split; [reflexivity|]. split; [exact F|].
  split; [exact (H' files F)|]. reflexivity.
Defined.

(** ** quality-gate.py: totals, and files that cannot be read *)

Section Totals.

Lemma totals_add_up (l : list QG.Issue) :
  Forall error_or_warning l ->
  (length (List.filter QG.is_error l)
   + length (List.filter QG.is_warning l) = length l)%nat.
Proof.
  induction 1 as [|x t Hx _ IH]; [reflexivity|].
  cbn [List.filter]. unfold QG.is_error at 1, QG.is_warning at 1.
  destruct Hx as [E|E]; rewrite E; cbn [String.eqb Ascii.eqb Bool.eqb];
    cbn [length]; lia.
Qed.

Lemma passed_errors (r : QG.Report) :
  QG.passed r = true <-> errors r = 0.
Proof.
  unfold QG.passed, errors.
  pose proof (count_pos QG.is_error (QG.issues r)) as H.
  destruct (existsb QG.is_error (QG.issues r)); cbn [negb].
  - split; [discriminate|]. intros E. rewrite E in H. discriminate.
  - split; [intros _|reflexivity].
    destruct (Z.gtb_spec (Z.of_nat (length (List.filter QG.is_error
                                              (QG.issues r)))) 0);
      [discriminate|lia].
Qed.

End Totals.

(** X11. The totals of the report of quality-gate.py, in a run that no
    exception ends: every issue of the run is an error or a warning, so
    that the errors and the warnings of the last lines of the report add
    up to the number of the issues; the run passes exactly when the total
    of the errors is zero, and the report ends in ALL CHECKS PASSED exactly
    when both totals are zero. *)
Theorem X11_totals_of_the_report :
  forall (fs : string -> entry) (ast_parse : string -> string -> QG.parsed)
         (files : list string),
    crash_free fs ast_parse files ->
    exists r,
      QG.analyze_all fs ast_parse files = Return r
      /\ errors r + warnings r = Z.of_nat (length (QG.issues r))
      /\ (QG.passed r = true <-> errors r = 0)
      /\ (QG.report_status r = "ALL CHECKS PASSED"
          <-> errors r = 0 /\ warnings r = 0).
Proof.
  intros fs ast_parse files F.
  destruct (analyze_all_returns fs ast_parse files F) as [r Hr].
  exists r. split; [exact Hr|].
  pose proof (totals_add_up _
                (analyze_all_severities fs ast_parse files r Hr)) as T.
  split; [unfold errors, warnings; lia|].
  split; [apply passed_errors|].
  unfold QG.report_status. unfold errors, warnings in *.
  destruct (QG.issues r) as [|x t] eqn:E.
  - split; [intros _; split; reflexivity|reflexivity].
  - cbn [length] in T. split.
    + destruct (negb _); discriminate.
    + intros [H1 H2]. lia.
Qed.

Lemma X11_totals_of_the_report_witness :
  let files := ["src/bad.py"; "src/a.py"] in
  crash_free sample_fs sample_parse files
  /\ exists r,
       QG.analyze_all sample_fs sample_parse files = Return r
       /\ errors r + warnings r = Z.of_nat (length (QG.issues r))
       /\ (QG.passed r = true <-> errors r = 0)
       /\ (QG.report_status r = "ALL CHECKS PASSED"
           <-> errors r = 0 /\ warnings r = 0).
Proof.
  intros files.
  assert (F : crash_free sample_fs sample_parse files)
    by (repeat constructor).
  split; [exact F|].
  exact (X11_totals_of_the_report sample_fs sample_parse files F).
Defined.

Section Unreadable.
Variable fs : string -> entry.
Variable ast_parse : string -> string -> QG.parsed.

Lemma unreadable_file_issues f :
  (forall source, fs f <> File source) ->
  exists exc, file_issues fs ast_parse f = [unreadable_issue f exc].
Proof.
  intros H. unfold file_issues, QG.analyze_file, QG.read_text.
  destruct (fs f) as [|source|exc|files] eqn:E.
  - now eexists.
  - now destruct (H source).
  - now eexists.
  - now eexists.
Qed.

End Unreadable.

(** X12. A file that quality-gate.py has collected and cannot read does
    not end the run: the file gets one error of the category parse at
    line 0 with the message of the exception, the files before and behind
    it are analysed as without it (the run comes to its report when none
    of them ends the analysis with an exception), and the run ends with
    the exit status 1. *)
Theorem X12_unreadable_file_fails_the_run :
  forall (fs : string -> entry) (ast_parse : string -> string -> QG.parsed)
         (prog target : string) (rest before after : list string)
         (f : string),
    QG.collect_python_files fs target = before ++ f :: after ->
    (forall source, fs f <> File source) ->
    (crash_free fs ast_parse (before ++ after) ->
     exists exc r,
       QG.analyze_all fs ast_parse (before ++ f :: after) = Return r
       /\ QG.issues r
          = concat (map (file_issues fs ast_parse) before)
            ++ [unreadable_issue f exc]
            ++ concat (map (file_issues fs ast_parse) after))
    /\ exit_status (QG.main fs ast_parse (prog :: target :: rest)) = 1.
Proof.
  intros fs ast_parse prog target rest before after f Hc Hf.
  destruct (unreadable_file_issues fs ast_parse f Hf) as [exc E].
  assert (I : forall r,
             QG.analyze_all fs ast_parse (before ++ f :: after) = Return r ->
             QG.issues r
             = concat (map (file_issues fs ast_parse) before)
               ++ [unreadable_issue f exc]
               ++ concat (map (file_issues fs ast_parse) after)).
  { intros r Hr.
    rewrite (analyze_all_issues fs ast_parse _ r Hr), map_app, concat_app.
    cbn [map concat]. now rewrite E. }
  split.
  - intros F.
    assert (F' : crash_free fs ast_parse (before ++ f :: after)).
    { unfold crash_free in *. apply Forall_app in F as [Fb Fa].
      apply Forall_app. split; [exact Fb|]. constructor; [|exact Fa].
      unfold crashes. destruct (fs f) as [|source|e|fl]; try reflexivity.
      now destruct (Hf source). }
    destruct (analyze_all_returns fs ast_parse _ F') as [r Hr].
    exists exc, r. split; [exact Hr|now apply I].
  - unfold QG.main. rewrite Hc.
    destruct (QG.analyze_all fs ast_parse (before ++ f :: after))
      as [r|code|e] eqn:A.
    + assert (P : QG.passed r = false).
      { unfold QG.passed. rewrite (I r eq_refl), !existsb_app.
        cbn [existsb]. unfold QG.is_error at 2.
        cbn [unreadable_issue QG.severity].
        rewrite String.eqb_refl. cbn [orb]. now rewrite orb_true_r. }
      destruct before as [|b before']; cbn [app] in *; rewrite A;
        cbn [bind]; now rewrite P.
    + now apply analyze_files_never_exits in A.
    + destruct before as [|b before']; cbn [app] in *; now rewrite A.
Qed.

Lemma X12_unreadable_file_fails_the_run_witness :
  QG.collect_python_files locked_fs "pkg" = [] ++ "pkg/a.py" :: ["pkg/b.py"]
  /\ (forall source, locked_fs "pkg/a.py" <> File source)
  /\ crash_free locked_fs sample_parse ([] ++ ["pkg/b.py"])
  /\ (exists exc r,
         QG.analyze_all locked_fs sample_parse
           ([] ++ "pkg/a.py" :: ["pkg/b.py"]) = Return r
         /\ QG.issues r
            = concat (map (file_issues locked_fs sample_parse) [])
              ++ [unreadable_issue "pkg/a.py" exc]
              ++ concat
                   (map (file_issues locked_fs sample_parse) ["pkg/b.py"]))
  /\ exit_status
       (QG.main locked_fs sample_parse ["quality-gate.py"; "pkg"]) = 1.
Proof.
  assert (Hc : QG.collect_python_files locked_fs "pkg"
               = [] ++ "pkg/a.py" :: ["pkg/b.py"]) by reflexivity.
  assert (Hf : forall source, locked_fs "pkg/a.py" <> File source)
    by (intros source; discriminate).
  assert (F : crash_free locked_fs sample_parse ([] ++ ["pkg/b.py"]))
    by (repeat constructor).
  destruct (X12_unreadable_file_fails_the_run locked_fs sample_parse
              "quality-gate.py" "pkg" [] [] ["pkg/b.py"] "pkg/a.py" Hc Hf)
    as [H1 H2].
  split; [exact Hc|]. split; [exact Hf|]. split; [exact F|].
  split; [exact (H1 F)|exact H2].
Defined.

(** ** The matcher finds a match exactly when the pattern has one *)

Section Adequacy.
Import Re.

Lemma consume_advances v : forall st st',
  consume v st = Some st' -> advances st st'.
Proof.
  induction v as [|a v IH]; intros st st'; cbn [consume].
  - intros [= <-]. exists []. split; [reflexivity|simpl; lia].
  - unfold step. destruct (rest st) as [|c t] eqn:E; [discriminate|].
    destruct (Ascii.eqb a c); [|discriminate].
    intros H. apply IH in H as (taken & H1 & H2).
    cbn [rest pos] in H1, H2.
    exists (c :: taken). rewrite E. split; [now rewrite H1|].
    rewrite H2. cbn [length]. lia.
Qed.

Lemma repeats_advances body :
  (forall st st', body st st' -> advances st st') ->
  forall n st st', repeats body n st st' -> advances st st'.
Proof.
  intros Hb. induction n as [|n IH]; intros st st'; cbn [repeats].
  - intros ->. apply advances_refl.
  - intros (st1 & H1 & _ & H2).
    eapply advances_trans; [apply Hb, H1|apply IH, H2].
Qed.

Lemma accepts_advances r : forall st st',
  accepts r st st' -> advances st st'.
Proof.
  induction r as [|p|r1 IH1 r2 IH2|r1 IH1 r2 IH2|r1 IH1|n r1 IH1|n|r1 IH1
                 |p|m|m|]; intros st st'; cbn [accepts].
  - intros ->. apply advances_refl.
  - intros (c & H & _). unfold step in H.
    destruct (rest st) as [|c' t] eqn:E; [discriminate|].
    injection H as <- <-. exists [c']. cbn. split; [now rewrite E|lia].
  - intros (st1 & H1 & H2).
    eapply advances_trans; [apply IH1, H1|apply IH2, H2].
  - intros [H|H]; [now apply IH1|now apply IH2].
  - intros (n & H). now apply (repeats_advances _ IH1 n).
  - intros (st1 & H & ->). apply IH1 in H as (taken & H1 & H2).
    exists taken. cbn. auto.
  - intros (v & _ & H). now apply consume_advances in H.
  - intros (_ & ->). apply advances_refl.
  - intros (_ & ->). apply advances_refl.
  - intros (_ & ->). apply advances_refl.
  - intros (_ & ->). apply advances_refl.
  - intros (_ & ->). apply advances_refl.
Qed.

Lemma advances_length st st' :
  advances st st' -> (pos st < pos st')%nat ->
  (S (length (rest st')) <= length (rest st))%nat.
Proof.
  intros (taken & H1 & H2) H. rewrite H1, length_app.
  destruct taken; cbn [length] in *; lia.
Qed.

(** The repetition, for a body that is matched soundly and completely. *)
Lemma iterate_sound body (lang : state -> state -> Prop) k :
  (forall k' st e, body k' st = Some e ->
                   exists st', lang st st' /\ k' st' = Some e) ->
  forall n st e,
    iterate body k n st = Some e ->
    exists st', (exists m, repeats lang m st st') /\ k st' = Some e.
Proof.
  intros Hb. induction n as [|n IH]; intros st e; cbn [iterate].
  - intros H. exists st. split; [now exists 0%nat|exact H].
  - destruct (body _ st) as [e'|] eqn:E.
    + intros [= ->]. apply Hb in E as (st1 & L & H).
      destruct (Nat.ltb_spec (pos st) (pos st1)); [|discriminate].
      apply IH in H as (st' & (m & R) & K).
      exists st'. split; [|exact K]. exists (S m). cbn [repeats].
      now exists st1.
    + intros H. exists st. split; [now exists 0%nat|exact H].
Qed.

Lemma iterate_complete body (lang : state -> state -> Prop) k :
  (forall st st', lang st st' -> advances st st') ->
  (forall k' st st', lang st st' -> k' st' <> None -> body k' st <> None) ->
  forall n m st st',
    (length (rest st) <= n)%nat ->
    repeats lang m st st' -> k st' <> None ->
    iterate body k n st <> None.
Proof.
  intros Ha Hb. induction n as [|n IH]; intros m st st' Hn R K;
    cbn [iterate].
  - destruct m as [|m]; cbn [repeats] in R; [now subst|].
    destruct R as (st1 & L & P & _).
    pose proof (advances_length _ _ (Ha _ _ L) P). lia.
  - destruct m as [|m]; cbn [repeats] in R.
    + subst st'. now destruct (body _ st).
    + destruct R as (st1 & L & P & R).
      pose proof (advances_length _ _ (Ha _ _ L) P) as Hl.
      assert (C : body
                    (fun st2 => if (pos st <? pos st2)%nat
                                then iterate body k n st2 else None) st
                  <> None).
      { apply (Hb _ st st1 L).
        destruct (Nat.ltb_spec (pos st) (pos st1)); [|lia].
        apply (IH m st1 st'); [lia|exact R|exact K]. }
      now destruct (body _ st).
Qed.

Lemma run_adequate r :
  (forall k st e,
      run r k st = Some e -> exists st', accepts r st st' /\ k st' = Some e)
  /\ (forall k st st',
         accepts r st st' -> k st' <> None -> run r k st <> None).
Proof.
  induction r as [|p|r1 [S1 C1] r2 [S2 C2]|r1 [S1 C1] r2 [S2 C2]|r1 [S1 C1]
                 |n r1 [S1 C1]|n|r1 [S1 C1]|p|m|m|]; split;
    intros k st; cbn [run accepts].
  - intros e H. now exists st.
  - now intros st' ->.
  - intros e. destruct (step st) as [[c st1]|] eqn:E; [|discriminate].
    destruct (p c) eqn:P; [|discriminate]. intros H.
    exists st1. split; [now exists c|exact H].
  - intros st' (c & -> & ->). auto.
  - intros e H. apply S1 in H as (st1 & A1 & H).
    apply S2 in H as (st2 & A2 & H). exists st2. split; [now exists st1|].
    exact H.
  - intros st' (st1 & A1 & A2) K. apply (C1 _ st st1 A1).
    now apply (C2 _ st1 st').
  - intros e. destruct (run r1 k st) as [e1|] eqn:E.
    + intros [= ->]. apply S1 in E as (st' & A & K). exists st'. auto.
    + intros H. apply S2 in H as (st' & A & K). exists st'. auto.
  - intros st' [A|A] K.
    + pose proof (C1 k st st' A K). now destruct (run r1 k st).
    + destruct (run r1 k st); [discriminate|]. now apply (C2 k st st').
  - intros e H. now apply (iterate_sound (run r1) (accepts r1) k S1) in H.
  - intros st' (m & R) K.
    apply (iterate_complete (run r1) (accepts r1) k
             (accepts_advances r1) C1 _ m st st'); [lia|exact R|exact K].
  - intros e H. apply S1 in H as (st1 & A & K).
    eexists. split; [exists st1; split; [exact A|reflexivity]|exact K].
  - intros st' (st1 & A & ->) K. now apply (C1 _ st st1 A).
  - intros e. destruct (cap_lookup n (caps st)) as [v|]; [|discriminate].
    destruct (consume v st) as [st1|] eqn:E; [|discriminate].
    intros H. exists st1. split; [now exists v|exact H].
  - intros st' (v & -> & ->). auto.
  - intros e. destruct (run r1 Some st) as [e1|] eqn:E; [discriminate|].
    intros H. exists st. split; [|exact H]. split; [|reflexivity].
    intros st1 A. now apply (C1 Some st st1 A).
  - intros st' (N & ->) K. destruct (run r1 Some st) as [e1|] eqn:E;
      [|exact K].
    apply S1 in E as (st1 & A & _). now destruct (N st1).
  - intros e. destruct (prev st) as [c|].
    + destruct (p c) eqn:P; [discriminate|]. intros H. now exists st.
    + intros H. now exists st.
  - intros st' (H & ->) K. destruct (prev st) as [c|]; [|exact K].
    now rewrite H.
  - intros e. destruct (prev st) as [c|].
    + destruct (_ && _) eqn:P; [|discriminate]. intros H. now exists st.
    + intros H. now exists st.
  - intros st' (H & ->) K. destruct (prev st) as [c|]; [|exact K].
    now rewrite H.
  - intros e. destruct (rest st) as [|c t].
    + intros H. now exists st.
    + destruct (_ && _) eqn:P; [|discriminate]. intros H. now exists st.
  - intros st' (H & ->) K. destruct (rest st) as [|c t]; [exact K|].
    now rewrite H.
  - intros e. destruct (xorb _ _) eqn:P; [|discriminate].
    intros H. now exists st.
  - intros st' (H & ->) K. now rewrite H.
Qed.


End Adequacy.

(** ** quality-gate.py: the names that pass *)

Section Names.
Import Re.

Lemma chr_to p st st' :
  accepts (Chr p) st st' -> exists c, p c = true /\ rest st = c :: rest st'.
Proof.
  intros (c & H & P). unfold step in H.
  destruct (rest st) as [|c' t]; [discriminate|].
  injection H as <- <-. now exists c'.
Qed.


Lemma star_chr_to p n : forall st st',
  repeats (accepts (Chr p)) n st st' ->
  exists body, all_of p body /\ rest st = body ++ rest st'.
Proof.
  induction n as [|n IH]; intros st st'; cbn [repeats].
  - intros ->. exists []. split; [constructor|reflexivity].
  - intros (st1 & A & _ & R). apply chr_to in A as (c & P & E).
    apply IH in R as (body & F & E'). exists (c :: body).
    split; [now constructor|]. now rewrite E, E'.
Qed.


Lemma lit_char q c : Ascii.eqb q c = true <-> q = c.
Proof. apply Ascii.eqb_eq. Qed.

Lemma upto_lit_to q n : forall st st',
  accepts (upto n (lit q)) st st' ->
  exists u, ((length u <= n)%nat /\ Forall (eq q) u)
            /\ rest st = u ++ rest st'.
Proof.
  induction n as [|n IH]; intros st st'; cbn [upto opt accepts].
  - intros ->. exists []. repeat split; [simpl; lia|constructor].
  - intros [(st1 & A & U)| ->].
    + apply chr_to in A as (c & P & E). apply lit_char in P as <-.
      apply IH in U as (u & [L F] & E'). exists (q :: u).
      repeat split; [simpl; lia|now constructor|now rewrite E, E'].
    + exists []. repeat split; [simpl; lia|constructor].
Qed.




Lemma at_end_class p nl :
  p Text.newline = false -> at_end nl -> forall c t, nl = c :: t -> p c = false.
Proof. intros P [->| ->] c t; [discriminate|]. now intros [= <- _]. Qed.






End Names.


(** ** doc-structure-validator.py: what parse_document hands on *)

Section ParsedDocument.
Import Re.

Lemma chr_caps p st st' : accepts (Chr p) st st' -> caps st' = caps st.
Proof.
  intros (c & H & _). unfold step in H.
  destruct (rest st); [discriminate|]. now injection H as <- <-.
Qed.

Lemma star_chr_caps p n : forall st st',
  repeats (accepts (Chr p)) n st st' -> caps st' = caps st.
Proof.
  induction n as [|n IH]; intros st st'; cbn [repeats]; [now intros ->|].
  intros (st1 & A & _ & R). apply chr_caps in A. apply IH in R. congruence.
Qed.

Lemma plus_chr_caps p st st' :
  accepts (plus (Chr p)) st st' -> caps st' = caps st.
Proof.
  unfold plus. cbn [accepts]. intros (s1 & (c & H & P) & n & R).
  apply star_chr_caps in R.
  assert (A : accepts (Chr p) st s1) by now exists c.
  apply chr_caps in A. congruence.
Qed.

Lemma taken_length st st' u :
  advances st st' -> rest st = u ++ rest st' ->
  take (pos st' - pos st) (rest st) = u.
Proof.
  intros (taken & H1 & H2) E. rewrite E in H1.
  apply app_inv_tail in H1. subst taken. rewrite H2, E.
  replace (pos st + length u - pos st)%nat with (length u) by lia.
  apply take_app_length.
Qed.

Lemma heading_level stripped m :
  match_ DV.HEADING_PATTERN stripped = Some m ->
  1 <= Text.len (DV.group_text 1 m) <= 6.
Proof.
  unfold match_, match_here.
  destruct (run _ Some _) as [e|] eqn:E; [|discriminate].
  intros [= <-]. apply (proj1 (run_adequate _)) in E as (e' & A & [= ->]).
  unfold DV.HEADING_PATTERN in A.
  change (rep 1 6 (lit "#")) with (Seq (lit "#") (upto 5 (lit "#"))) in A.
  cbn [seqs] in A.
  destruct A as (s1 & [_ ->] & s2 & (s2' & R & ->) & s3 & S & s4
                 & (s4' & D & ->) & [_ ->]).
  apply plus_chr_caps in S, D.
  unfold DV.group_text, m_group. cbn [m_to set_cap caps cap_lookup].
  rewrite D, S. cbn [set_cap caps cap_lookup Nat.eqb].
  pose proof (accepts_advances _ _ _ R) as Adv.
  destruct R as (s & C & U).
  apply chr_to in C as (c & Pc & E1).
  apply upto_lit_to in U as (u & [L _] & E2).
  rewrite (taken_length _ _ (c :: u) Adv) by now rewrite E1, E2.
  cbn [fmap option_fmap option_map default from_option id].
  unfold Text.len. rewrite <- chars_length, chars_text. cbn [length]. lia.
Qed.

Lemma heading_of_ok i stripped h :
  In h (DV.heading_of i stripped) ->
  1 <= DV.h_level h <= 6 /\ DV.h_line h = i.
Proof.
  unfold DV.heading_of.
  destruct (match_ _ stripped) as [m|] eqn:E; [|intros []].
  intros [<-|[]]. cbn [DV.h_level DV.h_line]. split; [|reflexivity].
  now apply heading_level in E.
Qed.

Lemma heading_of_cases i stripped :
  DV.heading_of i stripped = []
  \/ exists h, DV.heading_of i stripped = [h].
Proof.
  unfold DV.heading_of. destruct (match_ _ stripped); [right|left];
    eauto.
Qed.

Lemma sorted_snoc (l : list Z) (y : Z) :
  Sorted Z.lt l -> Forall (fun x => x < y) l -> Sorted Z.lt (l ++ [y]).
Proof.
  induction 1 as [|x t St IH Hd]; intros F; cbn [app].
  - repeat constructor.
  - inversion F as [|? ? Hx Ft]; subst. constructor; [now apply IH|].
    destruct t as [|z t]; cbn [app]; constructor; [exact Hx|].
    now inversion Hd.
Qed.

Lemma parsed_upto_step k p line :
  0 <= k -> parsed_upto k p ->
  parsed_upto (k + 1) (DV.parse_line p (k + 1) line).
Proof.
  intros Hk (H & S & B & I & L & C).
  assert (H' : Forall (heading_ok (k + 1)) (DV.headings p)).
  { eapply List.Forall_impl; [|exact H]. unfold heading_ok. intros; lia. }
  assert (B' : Forall (block_ok (k + 1)) (DV.code_blocks p)).
  { eapply List.Forall_impl; [|exact B]. unfold block_ok. intros; lia. }
  assert (I' : Forall (fun x => 1 <= DV.img_line x <= k + 1) (DV.images p)).
  { eapply List.Forall_impl; [|exact I]. cbn beta. intros; lia. }
  assert (L' : Forall (fun x => 1 <= DV.link_line x <= k + 1) (DV.links p)).
  { eapply List.Forall_impl; [|exact L]. cbn beta. intros; lia. }
  unfold DV.parse_line. destruct (DV.is_fence _).
  - destruct (DV.in_code_block p) eqn:E; cbn [negb].
    + repeat split; cbn; try assumption; try discriminate.
      apply Forall_app. split; [exact B'|].
      constructor; [|constructor]. unfold block_ok. cbn.
      specialize (C eq_refl). lia.
    + repeat split; cbn; try assumption; lia.
  - destruct (DV.in_code_block p) eqn:E.
    + repeat split; try assumption; specialize (C eq_refl); lia.
    + repeat split; cbn [DV.headings DV.code_blocks DV.images DV.links
                           DV.in_code_block DV.code_block_start];
        try (cbn in *; congruence).
      * apply Forall_app. split; [exact H'|].
        apply List.Forall_forall. intros h Hh.
        apply heading_of_ok in Hh as [Hl Hn]. unfold heading_ok. lia.
      * destruct (heading_of_cases (k + 1) (Text.strip line))
          as [->|[h Eh]]; [now rewrite app_nil_r|].
        rewrite Eh, map_app. cbn [map]. apply sorted_snoc; [exact S|].
        assert (Hh : In h (DV.heading_of (k + 1) (Text.strip line)))
          by (rewrite Eh; now left).
        apply heading_of_ok in Hh as [_ ->].
        apply List.Forall_forall. intros x Hx.
        apply in_map_iff in Hx as (h' & <- & Hx).
        rewrite List.Forall_forall in H. apply H in Hx as [_ Hx]. lia.
      * apply Forall_app. split; [exact I'|].
        unfold DV.images_of. apply Forall_map_const. cbn. lia.
      * apply Forall_app. split; [exact L'|].
        unfold DV.links_of. apply Forall_map_const. cbn. lia.
Qed.

Lemma parsed_upto_lines lines : forall k p,
  0 <= k -> parsed_upto k p ->
  parsed_upto (k + Z.of_nat (length lines))
    (DV.parse_lines p (k + 1) lines).
Proof.
  induction lines as [|l t IH]; intros k p Hk Inv; cbn [DV.parse_lines].
  - cbn [length]. now rewrite Z.add_0_r.
  - replace (k + Z.of_nat (length (l :: t)))
      with (k + 1 + Z.of_nat (length t)) by (cbn [length]; lia).
    apply IH; [lia|]. now apply parsed_upto_step.
Qed.

End ParsedDocument.

(** X14. What parse_document hands on to the validators: every heading
    has a level from 1 to 6, the headings stand in the order of their
    lines, no two of them in one line; every code block begins at its
    opening fence and ends at or behind it; and the lines of all headings,
    code blocks, images and links are lines of the document. *)
Theorem X14_parsed_items_lie_in_the_document :
  forall (lines : list string),
    let n := Z.of_nat (length lines) in
    let '(hs, cbs, imgs, ls) := DV.parse_document lines in
    Forall (heading_ok n) hs
    /\ Sorted Z.lt (map DV.h_line hs)
    /\ Forall (block_ok n) cbs
    /\ Forall (fun x => 1 <= DV.img_line x <= n) imgs
    /\ Forall (fun x => 1 <= DV.link_line x <= n) ls.
Proof.
  intros lines n. unfold DV.parse_document.
  assert (Inv0 : parsed_upto 0 (DV.mkParser [] [] [] [] false (-1) None)).
  { repeat split; try (cbn in *; congruence); constructor. }
  pose proof (parsed_upto_lines lines 0 _ (Z.le_refl 0) Inv0) as Inv.
  rewrite Z.add_0_l in Inv. change (0 + 1) with 1 in Inv. fold n in Inv.
  destruct Inv as (H & S & B & I & L & C).
  split; [exact H|]. split; [exact S|]. split; [|split; assumption].
  destruct (DV.in_code_block _) eqn:E; [|exact B].
  apply Forall_app. split; [exact B|]. constructor; [|constructor].
  unfold block_ok. cbn [DV.cb_start DV.cb_end]. specialize (C eq_refl).
  subst n. lia.
Qed.

(** ** review-checklist.py: the lines of the issues *)

Section IssueLines.
Import Re RC.

Lemma line_issues_line i raw_line :
  Forall (fun x => line x = i) (line_issues i raw_line).
Proof.
  unfold line_issues. repeat (apply Forall_app; split).
  - unfold todo_issues. now apply Forall_map_const.
  - unfold console_log_issues.
    destruct (is_some _); repeat constructor.
  - unfold deep_nesting_issues. destruct (_ >? _); repeat constructor.
  - unfold magic_number_issues. apply Forall_flat_map. intros m.
    destruct (is_some _); [constructor|].
    destruct (is_some _); repeat constructor.
  - unfold long_line_issues. destruct (_ >? _); repeat constructor.
Qed.

Lemma lines_issues_lines lines : forall b i,
  Forall (fun x => i <= line x < i + Z.of_nat (length lines))
    (lines_issues b i lines).
Proof.
  induction lines as [|l t IH]; intros b i; cbn [lines_issues];
    [constructor|].
  assert (W : forall b',
             Forall (fun x => i <= line x < i + Z.of_nat (length (l :: t)))
               (lines_issues b' (i + 1) t)).
  { intros b'. eapply List.Forall_impl; [|apply IH].
    cbn beta. intros x. cbn [length]. lia. }
  destruct (_ && _); [apply W|]. destruct b; [apply W|].
  apply Forall_app. split; [|apply W].
  eapply List.Forall_impl; [|apply line_issues_line].
  cbn beta. intros x ->. cbn [length]. lia.
Qed.

Lemma search_at_match r : forall l p i m,
  search_at r p i l = Some m ->
  exists skipped tl p',
    l = skipped ++ tl /\ m_start m = (i + length skipped)%nat
    /\ match_here r p' (m_start m) tl = Some m.
Proof.
  induction l as [|c t IH]; intros p i m; cbn [search_at].
  - destruct (match_here r p i []) as [m0|] eqn:E; [|discriminate].
    intros [= <-]. exists [], [], p.
    pose proof (match_here_advances _ _ _ _ _ E) as [F _].
    unfold m_start. rewrite F. cbn [pos length]. rewrite Nat.add_0_r.
    repeat split. exact E.
  - destruct (match_here r p i (c :: t)) as [m0|] eqn:E.
    + intros [= <-]. exists [], (c :: t), p.
      pose proof (match_here_advances _ _ _ _ _ E) as [F _].
      unfold m_start. rewrite F. cbn [pos length]. rewrite Nat.add_0_r.
      repeat split. exact E.
    + intros H. apply IH in H as (skipped & tl & p' & L & S & M).
      exists (c :: skipped), tl, p'. cbn [app length]. rewrite L.
      repeat split; [lia|exact M].
Qed.

(** Every match of [finditer] begins at a position of the subject at
    which the pattern matches. *)
Lemma finditer_at_positions r whole : forall fuel l p i done,
  whole = done ++ l -> length done = i ->
  Forall
    (fun m => exists pre tl p',
         whole = pre ++ tl /\ length pre = m_start m
         /\ match_here r p' (m_start m) tl = Some m)
    (finditer_at fuel r p i l).
Proof.
  induction fuel as [|fuel IH]; intros l p i done W D;
    cbn [finditer_at]; [constructor|].
  destruct (search_at r p i l) as [m|] eqn:E; [|constructor].
  pose proof (search_at_used r l p i m E) as U.
  apply search_at_match in E as (skipped & tl & p' & L & S & M).
  constructor.
  - exists (done ++ skipped), tl, p'. rewrite length_app, <- app_assoc.
    repeat split; [now rewrite W, L|lia|exact M].
  - remember (m_start m - i + m_len m)%nat as used eqn:Hu.
    assert (T : l = take used l ++ drop used l)
      by now rewrite take_drop.
    assert (Lt : length (take used l) = used)
      by (rewrite length_take; lia).
    destruct (m_len m) as [|k].
    + destruct (drop used l) as [|c t] eqn:Dr; [constructor|].
      apply (IH t (Some c) _ (done ++ take used l ++ [c])).
      * rewrite W, T at 1. try rewrite Dr. rewrite <- !app_assoc. reflexivity.
      * rewrite !length_app, Lt. cbn [length]. lia.
    + apply (IH _ _ _ (done ++ take used l)).
      * rewrite W, T at 1. now rewrite app_assoc.
      * rewrite length_app, Lt. lia.
Qed.

Lemma empty_catch_first p i tl m :
  match_here EMPTY_CATCH_PATTERN p i tl = Some m ->
  exists t, tl = "c"%char :: t.
Proof.
  unfold match_here.
  destruct (run _ Some _) as [e|] eqn:E; [|discriminate]. intros _.
  apply (proj1 (run_adequate _)) in E as (e' & A & _).
  unfold EMPTY_CATCH_PATTERN, str in A.
  cbn [Text.chars list_ascii_of_string map seqs] in A.
  destruct A as (s1 & (s0 & C & _) & _). apply chr_to in C as (c & Pc & E).
  apply lit_char in Pc as <-. cbn [rest] in E. eauto.
Qed.

Lemma splitlines_nonempty cur l :
  cur <> [] -> (1 <= length (Text.splitlines_chars cur l))%nat.
Proof.
  revert cur. induction l as [|c t IH]; intros cur Hc;
    cbn [Text.splitlines_chars].
  - destruct cur; [now destruct Hc|simpl; lia].
  - destruct (Text.is_linebreak c).
    + destruct t as [|d t']; [simpl; lia|].
      destruct (_ && _); simpl; lia.
    + apply IH. discriminate.
Qed.

Lemma splitlines_counts c rest : forall pre cur,
  Text.is_linebreak c = false ->
  (length (List.filter (Ascii.eqb Text.newline) pre) + 1
   <= length (Text.splitlines_chars cur (pre ++ c :: rest)))%nat.
Proof.
  intros pre. remember (length pre) as n eqn:Hn. revert pre Hn.
  induction n as [n IH] using lt_wf_ind. intros pre Hn cur Hc.
  destruct pre as [|x pre]; cbn [app Text.splitlines_chars List.filter].
  - rewrite Hc. cbn [length]. apply splitlines_nonempty. discriminate.
  - destruct (Text.is_linebreak x) eqn:Ex.
    + destruct pre as [|d pre']; cbn [app].
      * rewrite andb_comm.
        assert (Ascii.eqb c Text.newline = false) as ->.
        { destruct (Ascii.eqb_spec c Text.newline) as [->|]; [|reflexivity].
          discriminate. }
        cbn [andb]. cbn [Text.splitlines_chars]. rewrite Hc.
        pose proof (splitlines_nonempty [c] rest ltac:(discriminate)).
        destruct (Ascii.eqb Text.newline x); cbn [List.filter length]; lia.
      * destruct (Ascii.eqb x "013" && Ascii.eqb d Text.newline) eqn:Ep.
        -- apply andb_true_iff in Ep as [Ex13 Ed].
           apply Ascii.eqb_eq in Ex13 as ->. apply Ascii.eqb_eq in Ed as ->.
           cbn [List.filter Ascii.eqb Bool.eqb length andb].
           pose proof (IH (length pre') ltac:(subst n; simpl; lia) pre'
                         eq_refl [] Hc).
           change (Ascii.eqb Text.newline "013") with false. cbn iota.
           change (Ascii.eqb Text.newline Text.newline) with true.
           cbn iota. cbn [length]. lia.
        -- pose proof (IH (length (d :: pre'))
                         ltac:(subst n; simpl; lia) (d :: pre')
                         eq_refl [] Hc) as H.
           cbn [app] in H. cbn [length].
           destruct (Ascii.eqb Text.newline x); cbn [length]; lia.
    + assert (Ascii.eqb Text.newline x = false) as ->.
      { destruct (Ascii.eqb_spec Text.newline x) as [<-|]; [|reflexivity].
        discriminate. }
      apply (IH (length pre) ltac:(subst n; simpl; lia) pre eq_refl
               (x :: cur) Hc).
Qed.

Lemma empty_catch_lines content :
  Forall
    (fun x => 1 <= line x <= Z.of_nat (length (Text.splitlines content)))
    (empty_catch_issues content).
Proof.
  unfold empty_catch_issues, finditer.
  pose proof (finditer_at_positions EMPTY_CATCH_PATTERN (Text.chars content)
                (S (String.length content)) (Text.chars content) None 0 []
                eq_refl eq_refl) as F.
  rewrite List.Forall_forall in F. apply List.Forall_forall.
  intros x Hx. apply in_map_iff in Hx as (m & <- & Hm).
  apply F in Hm as (pre & tl & p' & W & L & M).
  apply empty_catch_first in M as (t & ->).
  cbn [line]. unfold Text.count_char, Text.slice_to, Text.splitlines.
  rewrite chars_text, length_map, W, <- L, take_app_length.
  pose proof (splitlines_counts "c" t pre [] eq_refl). lia.
Qed.

End IssueLines.

(** X15. Every issue of check_file points to a line of the file: its line
    is at least 1 and at most the number of the lines of the report. *)
Theorem X15_issues_point_to_lines_of_the_file :
  forall (filepath content : string),
    let report := RC.check_content filepath content in
    Forall (fun x => 1 <= RC.line x <= RC.total_lines report)
      (RC.issues report).
Proof.
  intros filepath content report. subst report.
  unfold RC.check_content. cbn [RC.issues RC.total_lines].
  set (lines := Text.splitlines content).
  eapply Permutation_Forall; [symmetry; apply sort_by_line_perm|].
  repeat (apply Forall_app; split).
  - unfold RC.file_length_issues.
    destruct (Z.gtb_spec (Z.of_nat (length lines)) 300);
      [|constructor].
    constructor; [cbn; lia|constructor].
  - apply Forall_flat_map_in. intros [[name start] end_] Hf.
    apply (spans_from_spec lines [] (name, start, end_)) in Hf.
    cbn [app fst snd length] in Hf. destruct Hf as [Hf _].
    unfold RC.long_function_issue.
    destruct (_ >? _); [|constructor].
    constructor; [cbn; lia|constructor].
  - eapply List.Forall_impl; [|apply lines_issues_lines].
    cbn beta. intros x. lia.
  - apply empty_catch_lines.
Qed.

(** ** doc-structure-validator.py: the lines of the issues *)

Section DocIssueLines.
Import DV.

Lemma split_chars_nonempty sep l : Text.split_chars sep l <> [].
Proof.
  destruct l as [|c t]; cbn [Text.split_chars]; [discriminate|].
  destruct (Ascii.eqb c sep); [discriminate|].
  destruct (Text.split_chars sep t); discriminate.
Qed.

Lemma split_length sep s : (1 <= length (Text.split sep s))%nat.
Proof.
  unfold Text.split. rewrite length_map.
  pose proof (split_chars_nonempty sep (Text.chars s)).
  destruct (Text.split_chars sep (Text.chars s)); [easy|simpl; lia].
Qed.

Lemma parse_document_ok lines :
  let n := Z.of_nat (length lines) in
  Forall (heading_ok n) (fst (fst (fst (parse_document lines))))
  /\ Forall (block_ok n) (snd (fst (fst (parse_document lines))))
  /\ Forall (fun x => 1 <= img_line x <= n)
       (snd (fst (parse_document lines)))
  /\ Forall (fun x => 1 <= link_line x <= n) (snd (parse_document lines)).
Proof.
  intros n. unfold parse_document.
  assert (Inv0 : parsed_upto 0 (mkParser [] [] [] [] false (-1) None)).
  { repeat split; try (cbn in *; congruence); constructor. }
  pose proof (parsed_upto_lines lines 0 _ (Z.le_refl 0) Inv0) as Inv.
  rewrite Z.add_0_l in Inv. change (0 + 1) with 1 in Inv. fold n in Inv.
  destruct Inv as (H & S & B & I & L & C). cbn [fst snd].
  split; [exact H|]. split; [|split; assumption].
  destruct (in_code_block _) eqn:E; [|exact B].
  apply Forall_app. split; [exact B|]. constructor; [|constructor].
  unfold block_ok. cbn [cb_start cb_end]. specialize (C eq_refl).
  subst n. lia.
Qed.

Lemma hierarchy_issues_lines_in n hs : forall prev,
  Forall (heading_ok n) hs ->
  Forall (fun x => 1 <= line x <= n) (hierarchy_issues prev hs).
Proof.
  induction hs as [|h t IH]; intros prev F; cbn [hierarchy_issues];
    [constructor|].
  inversion F as [|? ? [_ Hh] Ft]; subst.
  apply Forall_app. split; [|now apply IH].
  destruct (_ && _); [|constructor]. constructor; [exact Hh|constructor].
Qed.

Lemma sections_lines_in n lines : forall hs,
  Forall (heading_ok n) hs ->
  Forall (fun s => 1 <= sec_line s <= n) (sections_from hs lines).
Proof.
  induction hs as [|h t IH]; intros F; cbn [sections_from]; [constructor|].
  inversion F as [|? ? [_ Hh] Ft]; subst.
  constructor; [exact Hh|now apply IH].
Qed.

Lemma markers_from_lines lines : forall b i,
  Forall (fun x => i <= line x < i + Z.of_nat (length lines))
    (markers_from b i lines).
Proof.
  induction lines as [|l t IH]; intros b i; cbn [markers_from];
    [constructor|].
  assert (W : forall b',
             Forall (fun x => i <= line x < i + Z.of_nat (length (l :: t)))
               (markers_from b' (i + 1) t)).
  { intros b'. eapply List.Forall_impl; [|apply IH].
    cbn beta. intros x. cbn [length]. lia. }
  destruct (is_fence _); [apply W|]. destruct b; [apply W|].
  apply Forall_app. split; [|apply W].
  apply Forall_map_const. intros m. cbn [line length]. lia.
Qed.

End DocIssueLines.

(** X16. Every issue of a document that validate_document has read points
    to a line of the document: its line is at least 1 and at most the
    number of the lines, of which a document has at least one. *)
Theorem X16_issues_point_to_lines_of_the_document :
  forall (file_path content : string),
    let n := Z.of_nat (length (Text.split Text.newline content)) in
    1 <= n
    /\ Forall (fun x => 1 <= DV.line x <= n)
         (DV.issues (DV.validate_content file_path content)).
Proof.
  intros file_path content n.
  pose proof (split_length Text.newline content) as Hn.
  split; [subst n; lia|].
  unfold DV.validate_content.
  pose proof (parse_document_ok (Text.split Text.newline content)) as P.
  cbn zeta in P. fold n in P.
  destruct (DV.parse_document _) as [[[hs cbs] imgs] ls].
  cbn [fst snd] in P. destruct P as (H & B & I & L).
  unfold DV.validate_empty_sections. cbn [DV.issues].
  repeat (apply Forall_app; split).
  - unfold DV.validate_heading_hierarchy. destruct hs as [|h t].
    + constructor; [cbn [DV.line]; subst n; lia|constructor].
    + now apply hierarchy_issues_lines_in.
  - unfold DV.empty_section_issues. apply Forall_flat_map_in.
    intros s Hs. destruct (_ =? _); [|constructor].
    constructor; [|constructor]. cbn [DV.line].
    pose proof (sections_lines_in n (Text.split Text.newline content) hs H)
      as Ss.
    rewrite List.Forall_forall in Ss. now apply Ss.
  - unfold DV.validate_internal_links. apply Forall_flat_map_in.
    intros l Hl. unfold DV.link_issue.
    destruct (Text.startswith _ _); [|constructor].
    destruct (bool_decide _); [constructor|].
    constructor; [|constructor]. cbn [DV.line].
    rewrite List.Forall_forall in L. now apply L.
  - unfold DV.validate_code_blocks. apply Forall_flat_map_in.
    intros cb Hcb. rewrite List.Forall_forall in B.
    apply B in Hcb as [Hs He]. unfold DV.code_block_issue.
    destruct (DV.cb_unclosed cb).
    + constructor; [cbn [DV.line]; lia|constructor].
    + destruct (DV.cb_lang cb) as [[|? ?]|];
        try constructor; try (cbn [DV.line]; lia); constructor.
  - unfold DV.validate_images. apply Forall_flat_map_in.
    intros img Hi. destruct (String.eqb _ _); [|constructor].
    constructor; [|constructor]. cbn [DV.line].
    rewrite List.Forall_forall in I. now apply I.
  - unfold DV.validate_markers.
    eapply List.Forall_impl; [|apply markers_from_lines].
    cbn beta. intros x. fold n. lia.
Qed.

(** ** quality-gate.py: the categories that fail a run *)

Section Kinds.
Import QG.
Variable fp : string.

Lemma kinds_add l c m s :
  category_severity c = Some s ->
  appends (issue_of fp) (fun r => add r fp l c m s).
Proof. intros H. apply appends_add. now split. Qed.

Lemma kinds_check_arg name lineno x :
  appends (issue_of fp) (fun r => check_arg fp name lineno r x).
Proof.
  unfold check_arg.
  destruct (_ || _); [apply appends_id|].
  destruct (is_none _); [now apply kinds_add|apply appends_id].
Qed.

Lemma kinds_type_hints_node n :
  appends (issue_of fp) (fun r => type_hints_node fp r n).
Proof.
  destruct n; cbn [type_hints_node]; try apply appends_id.
  destruct (is_private name); [apply appends_id|].
  assert (H : appends (issue_of fp)
                (fun r => fold_left (check_arg fp name lineno) (args a)
                            (bump_functions r))).
  { apply (appends_comp _ bump_functions
             (fun r => fold_left (check_arg fp name lineno) (args a) r)).
    - apply appends_bump_functions.
    - apply appends_fold. intros x. apply kinds_check_arg. }
  destruct (_ && _); [|exact H].
  apply (appends_comp _ _
           (fun r => add r fp lineno "type-hints" _ "error") H).
  now apply kinds_add.
Qed.

Lemma kinds_docstrings_node n :
  appends (issue_of fp) (fun r => docstrings_node fp r n).
Proof.
  destruct n; cbn [docstrings_node]; try apply appends_id.
  - destruct (is_private name); [apply appends_id|].
    destruct (no_docstring _); [now apply kinds_add|apply appends_id].
  - destruct (no_docstring _).
    + apply (appends_comp _ bump_classes
               (fun r => add r fp lineno "docstrings" _ "warning"));
        [apply appends_bump_classes|now apply kinds_add].
    + apply appends_bump_classes.
Qed.

Lemma kinds_function_length_node n :
  appends (issue_of fp) (fun r => function_length_node fp r n).
Proof.
  destruct n; cbn [function_length_node]; try apply appends_id.
  destruct end_lineno; [|apply appends_id].
  destruct (_ >? _); [now apply kinds_add|apply appends_id].
Qed.

Lemma kinds_check_target lineno t :
  appends (issue_of fp) (fun r => check_target fp lineno r t).
Proof.
  destruct t; cbn [check_target]; [|apply appends_id].
  destruct (iskeyword id); [apply appends_id|].
  destruct (matches UPPER_SNAKE id); [apply appends_id|].
  destruct (negb _); [now apply kinds_add|apply appends_id].
Qed.

Lemma kinds_naming_node n :
  appends (issue_of fp) (fun r => naming_node fp r n).
Proof.
  destruct n; cbn [naming_node]; try apply appends_id.
  - destruct (negb _); [now apply kinds_add|apply appends_id].
  - destruct (negb _); [now apply kinds_add|apply appends_id].
  - apply appends_fold. intros x. apply kinds_check_target.
Qed.

Lemma kinds_scan_imports imports :
  forall prev, appends (issue_of fp)
                 (fun r => scan_imports fp prev imports r).
Proof.
  induction imports as [|[[lineno g] name] t IH]; intros prev;
    cbn [scan_imports].
  - apply appends_id.
  - apply (appends_comp _
             (fun r => if group_order g <? prev
                       then add r fp lineno "imports" _ "warning" else r)
             (fun r => scan_imports fp (group_order g) t r)).
    + destruct (_ <? _); [now apply kinds_add|apply appends_id].
    + apply IH.
Qed.

Lemma kinds_run_checks tree :
  appends (issue_of fp) (fun r => run_checks tree fp r).
Proof.
  unfold run_checks.
  apply (appends_comp _ _ (fun r => check_naming tree fp r)).
  apply (appends_comp _ _ (fun r => check_function_length tree fp r)).
  apply (appends_comp _ _ (fun r => check_import_organization tree fp r)).
  apply (appends_comp _ _ (fun r => check_docstrings tree fp r)).
  apply (appends_comp _ bump_files (fun r => check_type_hints tree fp r)).
  - apply appends_bump_files.
  - unfold check_type_hints. apply appends_fold.
    intros x. apply kinds_type_hints_node.
  - unfold check_docstrings.
    apply (appends_comp _
             (fun r => if no_docstring (mod_docstring tree)
                       then add r fp 1 "docstrings" _ "warning" else r)
             (fun r => fold_left (docstrings_node fp) (walk tree) r)).
    + destruct (no_docstring _); [now apply kinds_add|apply appends_id].
    + apply appends_fold. intros x. apply kinds_docstrings_node.
  - unfold check_import_organization. apply kinds_scan_imports.
  - unfold check_function_length. apply appends_fold.
    intros x. apply kinds_function_length_node.
  - unfold check_naming. apply appends_fold.
    intros x. apply kinds_naming_node.
Qed.

Variable fs : string -> entry.
Variable ast_parse : string -> string -> parsed.

Lemma file_issues_kinds : Forall (issue_of fp) (file_issues fs ast_parse fp).
Proof.
  unfold file_issues, analyze_file.
  destruct (read_text fs fp) as [source|exc].
  - destruct (ast_parse source fp) as [tree|lineno msg|exc].
    + destruct (kinds_run_checks tree) as (l & Hl & H).
      now rewrite (H empty_report).
    + destruct (kinds_add
                  (match lineno with
                   | Some n => if n =? 0 then 0 else n
                   | None => 0
                   end)
                  "parse" ("Syntax error: " +:+ msg) "error" eq_refl)
        as (l & Hl & H).
      now rewrite (H empty_report).
    + constructor.
  - destruct (kinds_add 0 "parse" ("Cannot read file: " +:+ exc) "error"
                eq_refl) as (l & Hl & H).
    now rewrite (H empty_report).
Qed.

End Kinds.

(** X17. Every issue of a run of quality-gate.py that no exception ends
    names one of the files that were analysed, and its category gives its
    severity: the issues of the categories parse, type-hints and
    function-length are errors, those of the categories docstrings,
    imports and naming are warnings, and there is no other category. So a
    run fails exactly when it has an issue of one of the first three
    categories. *)
Theorem X17_categories_that_fail_a_run :
  forall (fs : string -> entry) (ast_parse : string -> string -> QG.parsed)
         (files : list string),
    crash_free fs ast_parse files ->
    exists r,
      QG.analyze_all fs ast_parse files = Return r
      /\ Forall
           (fun i =>
              In (QG.file i) files
              /\ category_severity (QG.category i) = Some (QG.severity i))
           (QG.issues r)
      /\ (QG.passed r = false
          <-> exists i,
              In i (QG.issues r)
              /\ In (QG.category i)
                   ["parse"; "type-hints"; "function-length"]).
Proof.
  intros fs ast_parse files Hfree.
  destruct (analyze_all_returns fs ast_parse files Hfree) as [r Hr].
  exists r. split; [exact Hr|].
  assert (F : Forall
                (fun i =>
                   In (QG.file i) files
                   /\ category_severity (QG.category i)
                      = Some (QG.severity i))
                (QG.issues r)).
  { rewrite (analyze_all_issues fs ast_parse files r Hr).
    apply List.Forall_forall. intros i Hi.
    apply in_concat in Hi as (l & Hl & Hi).
    apply in_map_iff in Hl as (f & <- & Hf).
    pose proof (file_issues_kinds f fs ast_parse) as K.
    rewrite List.Forall_forall in K. apply K in Hi as [<- Hc].
    now split. }
  split; [exact F|].
  rewrite List.Forall_forall in F.
  unfold QG.passed. rewrite negb_false_iff, existsb_exists. split.
  - intros (i & Hi & E). exists i. split; [exact Hi|].
    apply F in Hi as [_ Hc]. unfold QG.is_error in E.
    apply String.eqb_eq in E. rewrite E in Hc.
    unfold category_severity in Hc.
    case_bool_decide as D; [now apply list_elem_of_In|].
    case_bool_decide; discriminate.
  - intros (i & Hi & Hc). exists i. split; [exact Hi|].
    apply F in Hi as [_ Hs]. unfold category_severity in Hs.
    apply list_elem_of_In in Hc.
    rewrite bool_decide_eq_true_2 in Hs by exact Hc.
    unfold QG.is_error. injection Hs as <-. reflexivity.
Qed.

Lemma X17_categories_that_fail_a_run_witness :
  let files := ["src/bad.py"; "src/a.py"] in
  crash_free sample_fs sample_parse files
  /\ exists r,
       QG.analyze_all sample_fs sample_parse files = Return r
       /\ Forall
            (fun i =>
               In (QG.file i) files
               /\ category_severity (QG.category i) = Some (QG.severity i))
            (QG.issues r)
       /\ (QG.passed r = false
           <-> exists i,
               In i (QG.issues r)
               /\ In (QG.category i)
                    ["parse"; "type-hints"; "function-length"]).
Proof.
  intros files.
  assert (F : crash_free sample_fs sample_parse files)
    by (repeat constructor).
  split; [exact F|].
  exact (X17_categories_that_fail_a_run sample_fs sample_parse files F).
Defined.

(** ** review-checklist.py: the rules that fail a run *)

Section RuleSeverities.
Import RC.

Lemma rule_severity_kind (k : string * string) l :
  rule_severity (fst k) = Some (snd k) ->
  Forall (fun x => rc_kind x = k) l ->
  Forall (fun x => rule_severity (rule x) = Some (severity x)) l.
Proof.
  intros Hk. apply List.Forall_impl. intros x E.
  change (rule x) with (fst (rc_kind x)).
  change (severity x) with (snd (rc_kind x)). now rewrite E.
Qed.

Lemma rule_severity_line_kinds l :
  Forall (fun x => In (rc_kind x) line_kinds) l ->
  Forall (fun x => rule_severity (rule x) = Some (severity x)) l.
Proof.
  apply List.Forall_impl. intros x H.
  change (rule x) with (fst (rc_kind x)).
  change (severity x) with (snd (rc_kind x)).
  unfold line_kinds in H. cbn [In] in H.
  destruct H as [<-|[<-|[<-|[<-|[<-|[]]]]]]; reflexivity.
Qed.

Lemma check_content_rule_severities filepath content :
  Forall (fun x => rule_severity (rule x) = Some (severity x))
    (issues (check_content filepath content)).
Proof.
  unfold check_content. cbn [issues].
  eapply Permutation_Forall; [symmetry; apply sort_by_line_perm|].
  repeat (apply Forall_app; split).
  - now apply (rule_severity_kind ("file-length", "warning")),
      file_length_kinds.
  - apply Forall_flat_map. intros f.
    now apply (rule_severity_kind ("long-function", "warning")),
      long_function_kinds.
  - apply rule_severity_line_kinds, lines_issues_kinds.
  - now apply (rule_severity_kind ("empty-catch", "warning")),
      empty_catch_kinds.
Qed.

End RuleSeverities.

(** X18. The rule of an issue of review-checklist.py gives its severity:
    file-length, long-function, console-log, deep-nesting and empty-catch
    give warnings, todo-fixme, magic-number and long-line give infos.
    A run on a file ends with the exit status 1 exactly when the file has
    an issue of one of the five rules that give warnings, and with the
    exit status 0 otherwise. *)
Theorem X18_rules_that_fail_a_run :
  forall (fs : string -> entry) (prog filepath : string)
         (rest : list string) (content : string),
    fs filepath = File content ->
    let result := RC.issues (RC.check_content filepath content) in
    Forall (fun x => rule_severity (RC.rule x) = Some (RC.severity x))
      result
    /\ (exit_status (RC.main fs (prog :: filepath :: rest)) = 1
        <-> exists x, In x result /\ In (RC.rule x) warning_rules)
    /\ (exit_status (RC.main fs (prog :: filepath :: rest)) = 0
        \/ exit_status (RC.main fs (prog :: filepath :: rest)) = 1).
Proof.
  intros fs prog filepath rest content Hf result.
  pose proof (check_content_rule_severities filepath content) as F.
  fold result in F. split; [exact F|].
  unfold RC.main, RC.check_file. rewrite Hf. cbn [bind exit_status].
  unfold RC.warning_count. rewrite count_pos. fold result.
  rewrite List.Forall_forall in F.
  destruct (existsb _ result) eqn:E.
  - split; [|now right]. split; [intros _|reflexivity].
    apply existsb_exists in E as (x & Hx & S). exists x.
    split; [exact Hx|]. apply String.eqb_eq in S.
    apply F in Hx. rewrite S in Hx. unfold rule_severity in Hx.
    case_bool_decide as D; [now apply list_elem_of_In|].
    case_bool_decide; discriminate.
  - split; [|now left]. split; [discriminate|].
    intros (x & Hx & R). exfalso.
    assert (S : existsb (fun i => String.eqb (RC.severity i) "warning")
                  result = true).
    { apply existsb_exists. exists x. split; [exact Hx|].
      apply F in Hx. unfold rule_severity in Hx.
      apply list_elem_of_In in R.
      rewrite bool_decide_eq_true_2 in Hx by exact R.
      injection Hx as <-. reflexivity. }
    rewrite S in E. discriminate.
Qed.

Lemma X18_rules_that_fail_a_run_witness :
  let result := RC.issues (RC.check_content "a.js" "console.log(1)") in
  sample_fs "a.js" = File "console.log(1)"
  /\ Forall (fun x => rule_severity (RC.rule x) = Some (RC.severity x))
       result
  /\ (exit_status (RC.main sample_fs ["review-checklist.py"; "a.js"]) = 1
      <-> exists x, In x result /\ In (RC.rule x) warning_rules)
  /\ (exit_status (RC.main sample_fs ["review-checklist.py"; "a.js"]) = 0
      \/ exit_status (RC.main sample_fs ["review-checklist.py"; "a.js"])
         = 1).
Proof.
  intros result.
  assert (Hf : sample_fs "a.js" = File "console.log(1)") by reflexivity.
  split; [exact Hf|].
  exact (X18_rules_that_fail_a_run sample_fs "review-checklist.py" "a.js"
           [] "console.log(1)" Hf).
Defined.

(** ** The order of the files *)

Section SortedFiles.





End SortedFiles.



(** ** review-checklist.py: the depth of the braces of a line *)

Section Nesting.
Import RC.

Lemma brace_delta_chars l :
  brace_delta (Text.text l) = fold_left brace_step l 0.
Proof. unfold brace_delta. now rewrite chars_text. Qed.

Lemma brace_fold_shift l : forall d,
  fold_left brace_step l d = d + fold_left brace_step l 0.
Proof.
  induction l as [|c t IH]; intros d; cbn [fold_left]; [lia|].
  rewrite IH, (IH (brace_step 0 c)). unfold brace_step.
  destruct (Ascii.eqb c "{"); [lia|]. destruct (Ascii.eqb c "}"); lia.
Qed.

Lemma max_depth_spec l : forall d m,
  d <= m ->
  let r :=
    fold_left
      (fun '(brace_depth, max_depth) ch =>
         if Ascii.eqb ch "{" then
           (brace_depth + 1, Z.max max_depth (brace_depth + 1))
         else if Ascii.eqb ch "}" then (brace_depth - 1, max_depth)
         else (brace_depth, max_depth))
      l (d, m) in
  m <= snd r
  /\ (forall n, d + fold_left brace_step (take n l) 0 <= snd r)
  /\ (snd r = m
      \/ exists n, snd r = d + fold_left brace_step (take n l) 0).
Proof.
  induction l as [|c t IH]; intros d m Hd; cbn [fold_left].
  - cbn [snd]. split; [lia|]. split; [|now left].
    intros n. rewrite take_nil. cbn [fold_left]. lia.
  - assert (T : forall n, d + fold_left brace_step (take (S n) (c :: t)) 0
                          = brace_step d c
                            + fold_left brace_step (take n t) 0).
    { intros n. cbn [take fold_left].
      rewrite (brace_fold_shift _ (brace_step 0 c)). unfold brace_step.
      destruct (Ascii.eqb c "{"); [lia|].
      destruct (Ascii.eqb c "}"); lia. }
    unfold brace_step in T.
    destruct (Ascii.eqb c "{") eqn:E1; [|destruct (Ascii.eqb c "}") eqn:E2].
    + destruct (IH (d + 1) (Z.max m (d + 1)) ltac:(lia)) as (I1 & I2 & I3).
      split; [lia|]. split.
      * intros [|n]; [rewrite take_0; cbn [fold_left]; lia|].
        rewrite T. apply I2.
      * destruct I3 as [I3|(n & I3)].
        -- destruct (Z.max_spec m (d + 1)) as [[_ M]|[_ M]].
           ++ right. exists 1%nat. rewrite T, take_0. cbn [fold_left]. lia.
           ++ left. lia.
        -- right. exists (S n). now rewrite T.
    + destruct (IH (d - 1) m ltac:(lia)) as (I1 & I2 & I3).
      split; [lia|]. split.
      * intros [|n]; [rewrite take_0; cbn [fold_left]; lia|].
        rewrite T. apply I2.
      * destruct I3 as [I3|(n & I3)]; [now left|].
        right. exists (S n). now rewrite T.
    + destruct (IH d m ltac:(lia)) as (I1 & I2 & I3).
      split; [lia|]. split.
      * intros [|n]; [rewrite take_0; cbn [fold_left]; lia|].
        rewrite T. apply I2.
      * destruct I3 as [I3|(n & I3)]; [now left|].
        right. exists (S n). now rewrite T.
Qed.

Lemma max_brace_depth_spec stripped :
  (forall n, brace_delta (Text.slice_to n stripped)
             <= max_brace_depth stripped)
  /\ exists n, max_brace_depth stripped
               = brace_delta (Text.slice_to n stripped).
Proof.
  unfold max_brace_depth, Text.slice_to.
  destruct (max_depth_spec (Text.chars stripped) 0 0 (Z.le_refl 0))
    as (_ & H2 & H3).
  split.
  - intros n. rewrite brace_delta_chars. specialize (H2 n). lia.
  - destruct H3 as [H3|(n & H3)].
    + exists 0%nat. rewrite brace_delta_chars, take_0. exact H3.
    + exists n. rewrite brace_delta_chars, H3. lia.
Qed.

End Nesting.

(** X20. The rule deep-nesting looks at the braces of one line alone: a
    line is reported exactly when, somewhere in the line, more than three
    more braces have been opened than closed since the start of the line,
    in the line as it is without its literals and comments. The braces of
    the lines before it do not count. *)
Theorem X20_deep_nesting_is_counted_within_a_line :
  forall (i : Z) (stripped : string),
    RC.deep_nesting_issues i stripped = []
    <-> forall n, RC.brace_delta (Text.slice_to n stripped) <= 3.
Proof.
  intros i stripped.
  destruct (max_brace_depth_spec stripped) as [H1 (n & H2)].
  unfold RC.deep_nesting_issues.
  destruct (Z.gtb_spec (RC.max_brace_depth stripped) 3) as [G|G].
  - split; [discriminate|]. intros H. specialize (H n). lia.
  - split; [|reflexivity]. intros _ k. specialize (H1 k). lia.
Qed.

(** ** review-checklist.py: the numbers that are reported *)

Section MagicNumbers.
Import Re RC.

Lemma plus_chr_to p st st' :
  accepts (plus (Chr p)) st st' ->
  exists body, (body <> [] /\ all_of p body) /\ rest st = body ++ rest st'.
Proof.
  unfold plus. cbn [accepts]. intros (s1 & C & n & R).
  apply chr_to in C as (c & Pc & E1).
  apply star_chr_to in R as (body & F & E2).
  exists (c :: body). split; [split; [discriminate|now constructor]|].
  now rewrite E1, E2.
Qed.

Lemma match_text r p i l m :
  match_here r p i l = Some m ->
  exists taken,
    accepts r (State p i l []) (m_to m)
    /\ l = taken ++ rest (m_to m)
    /\ m_text m = Text.text taken.
Proof.
  intros H. pose proof (match_here_advances _ _ _ _ _ H) as [F A].
  unfold match_here in H.
  destruct (run r Some _) as [e|] eqn:E; [|discriminate].
  injection H as <-. cbn [m_to m_from] in *.
  apply (proj1 (run_adequate r)) in E as (e' & Acc & [= ->]).
  destruct A as (taken & R & P). cbn [rest pos] in R, P.
  exists taken. split; [exact Acc|]. split; [exact R|].
  unfold m_text, m_len. cbn [m_to m_from rest pos]. rewrite P, R.
  replace (i + length taken - i)%nat with (length taken) by lia.
  now rewrite take_app_length.
Qed.

Lemma magic_number_text p i l m :
  match_here MAGIC_NUMBER_PATTERN p i l = Some m -> magic_shape (m_text m).
Proof.
  intros H. apply match_text in H as (taken & A & L & ->).
  unfold magic_shape. rewrite chars_text.
  unfold MAGIC_NUMBER_PATTERN in A. cbn [seqs opt] in A.
  destruct A as (s1 & [_ ->] & s2 & Sg & s3 & Body & [_ Em]).
  rewrite Em in L. cbn [rest] in *.
  assert (S : exists sign, (sign = [] \/ sign = ["-"%char])
                           /\ l = sign ++ rest s2).
  { destruct Sg as [C| ->].
    - apply chr_to in C as (c & Pc & E). apply lit_char in Pc as <-.
      exists ["-"%char]. split; [now right|exact E].
    - exists []. split; [now left|reflexivity]. }
  destruct S as (sign & Hs & Es).
  assert (B : exists body,
             rest s2 = body ++ rest s3
             /\ ((exists d ds, body = d :: ds
                               /\ Text.in_range 50 57 d = true /\ digits ds)
                 \/ (exists a b, body = a ++ "."%char :: b
                                 /\ digits a /\ digits b))).
  { destruct Body as [(s & C & D)|(sa & Da & sb & C & Db)].
    - apply chr_to in C as (d & Pd & E1).
      apply plus_chr_to in D as (ds & Hds & E2).
      exists (d :: ds). split; [now rewrite E1, E2|]. left. now exists d, ds.
    - apply plus_chr_to in Da as (a & Ha & E1).
      apply chr_to in C as (c & Pc & E2). apply lit_char in Pc as <-.
      apply plus_chr_to in Db as (b & Hb & E3).
      exists (a ++ "."%char :: b). split.
      + now rewrite E1, E2, E3, <- app_assoc.
      + right. now exists a, b. }
  destruct B as (body & Eb & Hb).
  exists sign, body. split; [|split; assumption].
  rewrite Es, Eb, app_assoc in L. now apply app_inv_tail in L.
Qed.

End MagicNumbers.

(** X21. The numbers that the rule magic-number reports: the number in
    the message of every such issue is, behind an optional minus sign,
    either a whole number of two digits or more whose first digit is one
    of 2 to 9, or a number with a decimal point and digits on both sides
    of it. A whole number of one digit, or one whose first digit is 0
    or 1, is never reported. *)
Theorem X21_numbers_that_are_reported :
  forall (i : Z) (raw_line stripped : string),
    Forall
      (fun x =>
         exists t,
           x = RC.mkIssue "magic-number" "info" i ("Magic number: " +:+ t)
           /\ magic_shape t)
      (RC.magic_number_issues i raw_line stripped).
Proof.
  intros i raw_line stripped. unfold RC.magic_number_issues, Re.finditer.
  pose proof (finditer_at_positions RC.MAGIC_NUMBER_PATTERN
                (Text.chars stripped) (S (String.length stripped))
                (Text.chars stripped) None 0 [] eq_refl eq_refl) as F.
  rewrite List.Forall_forall in F.
  apply Forall_flat_map_in. intros m Hm.
  apply F in Hm as (pre & tl & p' & _ & _ & M).
  destruct (Re.is_some _); [constructor|].
  destruct (Re.is_some _); [constructor|].
  constructor; [|constructor]. exists (Re.m_text m).
  split; [reflexivity|]. now apply magic_number_text in M.
Qed.
